(** * IronCurtain Python adapter: a shallow embedding of
      [adapters/python/ironcurtain_client.py]

    The adapter drives an agent through matchmaking and play over two
    WebSocket channels.  This development embeds

    - the decoded JSON values the adapter manipulates, with the Python
      operations it applies to them ([dict.get], truthiness, [len],
      [tuple], iteration),
    - [GameState.from_dict] and the two counting properties,
    - the session code of [IronCurtainAgent] ([_join_queue],
      [_wait_for_match], [_play_match], [_handle_match_message] and the
      queue/match loop of [_main_loop]) as programs of a small monad
      threading the agent object, raising Python exceptions and recording
      an observable trace,

    and proves the properties of the protocol state machine. *)

From Stdlib Require Import String Ascii ZArith List Bool Lia PrimFloat.
Import ListNotations.
Open Scope string_scope.
Open Scope Z_scope.
Open Scope list_scope.


Set Warnings "-register-all".

(* ================================================================== *)
(** ** Decoded JSON values *)

(** What [json.loads] produces.  A Python [dict] is kept as the list of
    its bindings in insertion order; [None] is [JNull].  A [string]
    holds the UTF-8 encoding of a Python [str]. *)
Inductive json : Type :=
| JNull
| JBool (b : bool)
| JInt (z : Z)
| JFloat (f : float)
| JStr (s : string)
| JList (l : list json)
| JDict (kvs : list (string * json)).

(** Exceptions the embedded code can raise; all are subclasses of
    Python's [Exception]. *)
Inductive exn : Type :=
| TimeoutError                 (* asyncio.TimeoutError *)
| ConnectionClosed             (* websockets.exceptions.ConnectionClosed *)
| AttributeError               (* [.get] on a value that is not a dict *)
| TypeError                    (* [len], [tuple], [for] on a scalar *)
| AssertionError
| JSONDecodeError
| RuntimeError (msg : string)
| OtherException (name : string).

(** Outcome of a pure Python expression. *)
Inductive result (A : Type) : Type :=
| Ok (a : A)
| Err (e : exn).
Arguments Ok {A} a.
Arguments Err {A} e.

Definition rbind {A B} (r : result A) (k : A -> result B) : result B :=
  match r with
  | Ok a => k a
  | Err e => Err e
  end.

Declare Scope result_scope.
Delimit Scope result_scope with result.
Notation "'let?' x ':=' r 'in' k" :=
  (rbind r (fun x => k))
  (at level 10, x name, r at level 100, k at level 200) : result_scope.

Module Py.

(** Binding of a key in a dict. *)
Fixpoint lookup (k : string) (kvs : list (string * json)) : option json :=
  match kvs with
  | [] => None
  | (k', v) :: rest => if String.eqb k k' then Some v else lookup k rest
  end.

(** [d.get(k, default)]: every value that is not a dict has no
    attribute [get]. *)
Definition get (d : json) (k : string) (default : json) : result json :=
  match d with
  | JDict kvs =>
      Ok (match lookup k kvs with
          | Some v => v
          | None => default
          end)
  | _ => Err AttributeError
  end.

(** Truth value of an object, as tested by [if x] and [not x]. *)
Definition truthy (j : json) : bool :=
  match j with
  | JNull => false
  | JBool b => b
  | JInt z => negb (z =? 0)
  | JFloat f => negb (PrimFloat.eqb f PrimFloat.zero)
  | JStr s => negb (String.eqb s "")
  | JList l => match l with [] => false | _ => true end
  | JDict kvs => match kvs with [] => false | _ => true end
  end.

(** [x == s] for a string literal [s]. *)
Definition eq_str (j : json) (s : string) : bool :=
  match j with
  | JStr s' => String.eqb s' s
  | _ => false
  end.

(** A byte [10xxxxxx], which continues the encoding of a code point. *)
Definition is_continuation (c : ascii) : bool :=
  match c with
  | Ascii _ _ _ _ _ _ b6 b7 => b7 && negb b6
  end.

(** [s] goes on with a continuation byte. *)
Definition continues (s : string) : bool :=
  match s with
  | String c _ => is_continuation c
  | EmptyString => false
  end.

(** The code points of a [str], each as the bytes that encode it: a
    byte starts a new code point unless it is a continuation byte that
    follows another byte. *)
Fixpoint code_points (s : string) : list string :=
  match s with
  | EmptyString => []
  | String c rest =>
      match code_points rest with
      | g :: gs =>
          if continues rest then String c g :: gs
          else String c EmptyString :: g :: gs
      | [] => [String c EmptyString]
      end
  end.

(** The one-character strings a [for] loop over a [str] visits. *)
Definition chars (s : string) : list json := map JStr (code_points s).

(** The elements a [for] loop or [tuple(...)] visits. *)
Definition iter (j : json) : result (list json) :=
  match j with
  | JList l => Ok l
  | JStr s => Ok (chars s)
  | JDict kvs => Ok (map (fun kv => JStr (fst kv)) kvs)
  | _ => Err TypeError
  end.

Definition tuple (j : json) : result (list json) := iter j.

(** [len(x)]. *)
Definition len (j : json) : result Z :=
  match j with
  | JList l => Ok (Z.of_nat (length l))
  | JStr s => Ok (Z.of_nat (length (code_points s)))
  | JDict kvs => Ok (Z.of_nat (length kvs))
  | _ => Err TypeError
  end.

End Py.

(* ================================================================== *)
(** ** Enumerations and dataclasses *)

Inductive GameMode : Type := RANKED_1V1 | CASUAL_1V1 | TOURNAMENT.
Inductive Faction : Type := ALLIES | SOVIET | RANDOM.

Definition GameMode_value (m : GameMode) : string :=
  match m with
  | RANKED_1V1 => "ranked_1v1"
  | CASUAL_1V1 => "casual_1v1"
  | TOURNAMENT => "tournament"
  end.

Definition Faction_value (f : Faction) : string :=
  match f with
  | ALLIES => "allies"
  | SOVIET => "soviet"
  | RANDOM => "random"
  end.

Record AgentCredentials : Type := {
  agent_id : string;
  cred_name : string;
  api_key : string;
  elo : Z
}.

(** The fields hold whatever the pairing payload carried: the dataclass
    does not check its annotations. *)
Record MatchInfo : Type := {
  match_id : json;
  map_name : json;
  faction : json;
  opponent : json;
  settings : json
}.

Module GameState.

(** Parsed fog-filtered game state.  As for [MatchInfo], the
    annotations are not enforced, so each field is the decoded value
    found in the payload ([map_size] is the tuple built from it). *)
Record t : Type := {
  tick : json;
  game_time : json;
  credits : json;
  power_generated : json;
  power_consumed : json;
  own_units : json;
  own_buildings : json;
  enemy_visible_units : json;
  enemy_visible_buildings : json;
  frozen_actors : json;
  explored_percentage : json;
  map_name : json;
  map_size : list json;
  known_ore_fields : json
}.

Local Open Scope result_scope.

Definition from_dict (data : json) : result t :=
  let? own := Py.get data "own" (JDict []) in
  let? enemy := Py.get data "enemy" (JDict []) in
  let? map_info := Py.get data "map" (JDict []) in
  let? power := Py.get own "power" (JDict []) in
  let? v_tick := Py.get data "tick" (JInt 0) in
  let? v_game_time := Py.get data "game_time" (JStr "0:00") in
  let? v_credits := Py.get own "credits" (JInt 0) in
  let? v_generated := Py.get power "generated" (JInt 0) in
  let? v_consumed := Py.get power "consumed" (JInt 0) in
  let? v_units := Py.get own "units" (JList []) in
  let? v_buildings := Py.get own "buildings" (JList []) in
  let? v_visible_units := Py.get enemy "visible_units" (JList []) in
  let? v_visible_buildings := Py.get enemy "visible_buildings" (JList []) in
  let? v_frozen := Py.get enemy "frozen_actors" (JList []) in
  let? v_explored := Py.get own "explored_percentage" (JInt 0) in
  let? v_map_name := Py.get map_info "name" (JStr "Unknown") in
  let? v_size := Py.get map_info "size" (JList [JInt 128; JInt 128]) in
  let? v_map_size := Py.tuple v_size in
  let? v_ore := Py.get map_info "known_ore_fields" (JList []) in
  Ok {| tick := v_tick;
        game_time := v_game_time;
        credits := v_credits;
        power_generated := v_generated;
        power_consumed := v_consumed;
        own_units := v_units;
        own_buildings := v_buildings;
        enemy_visible_units := v_visible_units;
        enemy_visible_buildings := v_visible_buildings;
        frozen_actors := v_frozen;
        explored_percentage := v_explored;
        map_name := v_map_name;
        map_size := v_map_size;
        known_ore_fields := v_ore |}.

Definition unit_count (s : t) : result Z := Py.len (own_units s).

Definition building_count (s : t) : result Z := Py.len (own_buildings s).

End GameState.

(* ================================================================== *)
(** ** The agent object, the observable trace and the effect monad *)

Inductive log_level : Type := DEBUG | INFO | WARNING | ERROR.

(** A value interpolated into a log message. *)
Inductive log_arg : Type :=
| LJson (j : json)
| LStr (s : string)
| LInt (z : Z)
| LExn (e : exn).

(** One call of [logger]: the level, the message as the source writes it
    and the interpolated values, left to right. *)
Record log_record : Type := {
  level : log_level;
  message : string;
  args : list log_arg
}.

Inductive channel : Type := QueueChannel | MatchChannel.

(** What one [await asyncio.wait_for(ws.recv(), timeout=30)] followed by
    [json.loads] can come back with. *)
Inductive recv_outcome : Type :=
| RecvMsg (msg : json)      (* a text frame that decodes to [msg] *)
| RecvUndecodable           (* a frame on which [json.loads] raises *)
| RecvTimeout               (* 30 s without a frame *)
| RecvClosed.               (* the peer closed the connection *)

(** Where a WebSocket is opened. *)
Inductive ws_uri : Type :=
| QueueUri                       (* {ws_url}/ws/queue *)
| MatchUri (match_id : json).    (* {ws_url}/ws/match/{match_id}/agent *)

(** Observable actions, in program order. *)
Inductive event : Type :=
| Log (r : log_record)
| HttpJoinQueue (mode faction_preference bearer : string)
| WsConnect (uri : ws_uri)
| WsSend (ch : channel) (msg : json)
| WsRecv (ch : channel) (o : recv_outcome)
| WsClose (ch : channel)
| Sleep (seconds : Z)
| EnterPlayMatch (match_data : json)       (* [_play_match] is entered *)
| CallOnGameState (state : GameState.t)
| CallOnMatchStart (info : MatchInfo)
| CallOnMatchEnd (result : json)
| CallOnViolation (violations : json)
| CallOnChat (sender message : json).

Definition trace : Type := list event.

Definition log (lvl : log_level) (msg : string) (a : list log_arg) : event :=
  Log {| level := lvl; message := msg; args := a |}.

(** The attributes of an [IronCurtainAgent] that the session code reads
    or writes.  [_ws] records the endpoint of the open match socket. *)
Record Agent : Type := {
  name : string;
  mode : GameMode;
  agent_faction : Faction;
  auto_queue : bool;
  credentials : option AgentCredentials;
  match_info : option MatchInfo;
  game_state : option GameState.t;
  match_result : option json;
  matches_played : Z;
  wins : Z;
  losses : Z;
  _running : bool;
  _ws : option ws_uri
}.

Definition set_match_info (v : option MatchInfo) (a : Agent) : Agent :=
  {| name := name a; mode := mode a; agent_faction := agent_faction a;
     auto_queue := auto_queue a; credentials := credentials a;
     match_info := v; game_state := game_state a;
     match_result := match_result a; matches_played := matches_played a;
     wins := wins a; losses := losses a; _running := _running a;
     _ws := _ws a |}.

Definition set_game_state (v : option GameState.t) (a : Agent) : Agent :=
  {| name := name a; mode := mode a; agent_faction := agent_faction a;
     auto_queue := auto_queue a; credentials := credentials a;
     match_info := match_info a; game_state := v;
     match_result := match_result a; matches_played := matches_played a;
     wins := wins a; losses := losses a; _running := _running a;
     _ws := _ws a |}.

Definition set_match_result (v : option json) (a : Agent) : Agent :=
  {| name := name a; mode := mode a; agent_faction := agent_faction a;
     auto_queue := auto_queue a; credentials := credentials a;
     match_info := match_info a; game_state := game_state a;
     match_result := v; matches_played := matches_played a;
     wins := wins a; losses := losses a; _running := _running a;
     _ws := _ws a |}.

Definition set_matches_played (v : Z) (a : Agent) : Agent :=
  {| name := name a; mode := mode a; agent_faction := agent_faction a;
     auto_queue := auto_queue a; credentials := credentials a;
     match_info := match_info a; game_state := game_state a;
     match_result := match_result a; matches_played := v;
     wins := wins a; losses := losses a; _running := _running a;
     _ws := _ws a |}.

Definition set_wins (v : Z) (a : Agent) : Agent :=
  {| name := name a; mode := mode a; agent_faction := agent_faction a;
     auto_queue := auto_queue a; credentials := credentials a;
     match_info := match_info a; game_state := game_state a;
     match_result := match_result a; matches_played := matches_played a;
     wins := v; losses := losses a; _running := _running a;
     _ws := _ws a |}.

Definition set_losses (v : Z) (a : Agent) : Agent :=
  {| name := name a; mode := mode a; agent_faction := agent_faction a;
     auto_queue := auto_queue a; credentials := credentials a;
     match_info := match_info a; game_state := game_state a;
     match_result := match_result a; matches_played := matches_played a;
     wins := wins a; losses := v; _running := _running a;
     _ws := _ws a |}.

Definition set_running (v : bool) (a : Agent) : Agent :=
  {| name := name a; mode := mode a; agent_faction := agent_faction a;
     auto_queue := auto_queue a; credentials := credentials a;
     match_info := match_info a; game_state := game_state a;
     match_result := match_result a; matches_played := matches_played a;
     wins := wins a; losses := losses a; _running := v;
     _ws := _ws a |}.

Definition set_ws (v : option ws_uri) (a : Agent) : Agent :=
  {| name := name a; mode := mode a; agent_faction := agent_faction a;
     auto_queue := auto_queue a; credentials := credentials a;
     match_info := match_info a; game_state := game_state a;
     match_result := match_result a; matches_played := matches_played a;
     wins := wins a; losses := losses a; _running := _running a;
     _ws := v |}.

(** How a coroutine of the agent can stand at the end of an observation:
    it returned, it raised, or it is still suspended in a [recv] because
    the environment has produced nothing further. *)
Inductive outcome (A : Type) : Type :=
| Return (a : A)
| Raised (e : exn)
| Blocked.
Arguments Return {A} a.
Arguments Raised {A} e.
Arguments Blocked {A}.

(** Programs over the agent object. *)
Definition M (A : Type) : Type := Agent -> outcome A * Agent * trace.

Definition ret {A} (x : A) : M A := fun a => (Return x, a, []).

Definition bind {A B} (m : M A) (k : A -> M B) : M B :=
  fun a =>
    match m a with
    | (Return x, a1, t1) =>
        let '(r, a2, t2) := k x a1 in (r, a2, t1 ++ t2)
    | (Raised e, a1, t1) => (Raised e, a1, t1)
    | (Blocked, a1, t1) => (Blocked, a1, t1)
    end.

Definition raise {A} (e : exn) : M A := fun a => (Raised e, a, []).
Definition emit (ev : event) : M unit := fun a => (Return tt, a, [ev]).
Definition emits (evs : trace) : M unit := fun a => (Return tt, a, evs).
Definition read {A} (f : Agent -> A) : M A := fun a => (Return (f a), a, []).
Definition modify (f : Agent -> Agent) : M unit :=
  fun a => (Return tt, f a, []).

Definition lift {A} (r : result A) : M A :=
  match r with
  | Ok x => ret x
  | Err e => raise e
  end.

(** [try: m  except <e>: h e], where [h e = None] for the exceptions the
    clause list does not name. *)
Definition try_except {A} (m : M A) (h : exn -> option (M A)) : M A :=
  fun a =>
    match m a with
    | (Raised e, a1, t1) =>
        match h e with
        | Some k => let '(r, a2, t2) := k a1 in (r, a2, t1 ++ t2)
        | None => (Raised e, a1, t1)
        end
    | other => other
    end.

(** [try: m  finally: f].  A coroutine that is still suspended has not
    reached its [finally]. *)
Definition try_finally {A} (m : M A) (f : M unit) : M A :=
  fun a =>
    match m a with
    | (Blocked, a1, t1) => (Blocked, a1, t1)
    | (r, a1, t1) =>
        match f a1 with
        | (Return _, a2, t2) => (r, a2, t1 ++ t2)
        | (Raised e, a2, t2) => (Raised e, a2, t1 ++ t2)
        | (Blocked, a2, t2) => (Blocked, a2, t1 ++ t2)
        end
    end.

Declare Scope agent_scope.
Delimit Scope agent_scope with agent.
Notation "x <- m ;; k" := (bind m (fun x => k))
  (at level 61, m at next level, right associativity) : agent_scope.
Notation "m ;; k" := (bind m (fun _ => k))
  (at level 61, right associativity) : agent_scope.

(** [_shutdown(self)], the handler of SIGINT and SIGTERM. *)
Definition _shutdown : M unit :=
  (emit (log INFO "Shutting down..." []);;
   modify (set_running false))%agent.

(** [assert self.credentials is not None] *)
Definition assert_credentials : M AgentCredentials :=
  fun a =>
    match credentials a with
    | Some c => (Return c, a, [])
    | None => (Raised AssertionError, a, [])
    end.

(* ================================================================== *)
(** ** The environment of a session *)

(** One receive on a WebSocket as the environment decides it: whether a
    stop signal was delivered while the coroutine was suspended in it
    (the event loop then runs [_shutdown] before the receive comes
    back), what came back, and whether the connection still transmits
    while the agent reacts.  The receives are where a session waits;
    a signal that arrives during another [await] (the queue-join
    request, a connect, a send, a sleep) is outside this model. *)
Record recv_step : Type := {
  signalled : bool;
  received : recv_outcome;
  link_up : bool
}.

(** A connection that could be opened: whether it transmits right after
    the handshake, and the receives it will serve. *)
Record socket : Type := {
  link_up_at_open : bool;
  inbox : list recv_step
}.

Inductive connect_outcome : Type :=
| ConnectFails (e : exn)
| Connected (s : socket).

(** The answer to [POST /api/queue/join]. *)
Inductive join_outcome : Type :=
| JoinStatus (status : Z) (text : string)
| JoinRaises (e : exn).

(** The handle the code calls [ws]. *)
Record WebSocket : Type := {
  ws_channel : channel;
  transmits : bool
}.

Definition ws_send (ws : WebSocket) (msg : json) : M unit :=
  (emit (WsSend (ws_channel ws) msg);;
   if transmits ws then ret tt else raise ConnectionClosed)%agent.

(** The stop signal, if any, that arrives during the receive [s]. *)
Definition deliver_signal (s : recv_step) : M unit :=
  if signalled s then _shutdown else ret tt.

(** What the signal of the receive [s] leaves behind: the agent, and
    the record in the log. *)
Definition after_signal (s : recv_step) (a : Agent) : Agent :=
  if signalled s then set_running false a else a.

Definition signal_log (s : recv_step) : trace :=
  if signalled s then [log INFO "Shutting down..." []] else [].

(** [json.loads(await asyncio.wait_for(ws.recv(), timeout=30))] *)
Definition receive (ch : channel) (s : recv_step) : M json :=
  (deliver_signal s;;
   emit (WsRecv ch (received s));;
   match received s with
   | RecvMsg msg => ret msg
   | RecvUndecodable => raise JSONDecodeError
   | RecvTimeout => raise TimeoutError
   | RecvClosed => raise ConnectionClosed
   end)%agent.

Definition channel_of (uri : ws_uri) : channel :=
  match uri with
  | QueueUri => QueueChannel
  | MatchUri _ => MatchChannel
  end.

(** [async with websockets.connect(uri) as ws: body] *)
Definition with_connection {A} (uri : ws_uri) (c : connect_outcome)
    (body : socket -> M A) : M A :=
  (emit (WsConnect uri);;
   match c with
   | ConnectFails e => raise e
   | Connected s => try_finally (body s) (emit (WsClose (channel_of uri)))
   end)%agent.

Definition identify_msg (c : AgentCredentials) : json :=
  JDict [("type", JStr "identify"); ("agent_id", JStr (agent_id c))].

Definition get_state_msg (c : AgentCredentials) : json :=
  JDict [("type", JStr "get_state"); ("agent_id", JStr (agent_id c))].

Definition orders_msg (c : AgentCredentials) (orders : list json) : json :=
  JDict [("type", JStr "orders"); ("agent_id", JStr (agent_id c));
         ("orders", JList orders)].

(** The match socket as it stands while the agent reacts to the
    receive [s]. *)
Definition match_ws (s : recv_step) : WebSocket :=
  {| ws_channel := MatchChannel; transmits := link_up s |}.

(** [self.credentials.agent_id], outside an [assert]. *)
Definition read_credentials : M AgentCredentials :=
  fun a =>
    match credentials a with
    | Some c => (Return c, a, [])
    | None => (Raised AttributeError, a, [])
    end.

(* ================================================================== *)
(** ** The strategy callback and the hooks *)

(** What a hook does: it logs, and returns or raises.  (A hook is a
    side-effect-only callback; one that assigned to the attributes of
    the agent would need a richer type.) *)
Definition hook : Type := list log_record * option exn.

(** The overridable methods of [IronCurtainAgent].  [on_game_state] is
    the abstract method: a function of the snapshot that returns the
    order batch, a list as its signature says, or raises. *)
Class Bot : Type := {
  on_game_state : GameState.t -> result (list json);
  on_match_start : MatchInfo -> hook;
  on_match_end : json -> hook;
  on_violation : json -> hook;
  on_chat : json -> json -> hook
}.

Module Default.

Definition info (msg : string) (a : list log_arg) : log_record :=
  {| level := INFO; message := msg; args := a |}.

Definition on_match_start (mi : MatchInfo) : hook :=
  ([info
      "Match started: {match_info.map_name} as {match_info.faction} vs {match_info.opponent}"
      [LJson (map_name mi); LJson (faction mi); LJson (opponent mi)]],
   None).

Definition on_match_end (result : json) : hook :=
  match Py.get result "result" (JStr "unknown") with
  | Ok outcome => ([info "Match ended: {outcome}" [LJson outcome]], None)
  | Err e => ([], Some e)
  end.

Definition on_violation (violations : json) : hook :=
  match Py.iter violations with
  | Ok vs =>
      (map (fun v => {| level := WARNING;
                        message := "Order violation: {v}";
                        args := [LJson v] |}) vs,
       None)
  | Err e => ([], Some e)
  end.

Definition on_chat (sender message : json) : hook :=
  ([{| level := DEBUG; message := "Chat from {sender}: {message}";
       args := [LJson sender; LJson message] |}],
   None).

End Default.

(** A bot that overrides only the strategy. *)
Definition bot_of (strategy : GameState.t -> result (list json)) : Bot :=
  {| on_game_state := strategy;
     on_match_start := Default.on_match_start;
     on_match_end := Default.on_match_end;
     on_violation := Default.on_violation;
     on_chat := Default.on_chat |}.

(** Calling a hook: the call, what it logs, then its return or raise. *)
Definition run_hook (call : event) (h : hook) : M unit :=
  (emit call;;
   emits (map Log (fst h));;
   match snd h with
   | None => ret tt
   | Some e => raise e
   end)%agent.

Definition call_on_game_state `{Bot} (gs : GameState.t) : M (list json) :=
  (emit (CallOnGameState gs);; lift (on_game_state gs))%agent.

(* ================================================================== *)
(** ** The session code of [IronCurtainAgent] *)

Section Session.

Context {bot : Bot}.
Local Open Scope agent_scope.

(** [_handle_match_message(self, ws, msg)] *)
Definition _handle_match_message (ws : WebSocket) (msg : json) : M unit :=
  creds <- assert_credentials;;
  msg_type <- lift (Py.get msg "type" (JStr ""));;
  if Py.eq_str msg_type "state_update" || Py.eq_str msg_type "state_response"
  then
    state_data <- lift (Py.get msg "state" (JDict []));;
    gs <- lift (GameState.from_dict state_data);;
    modify (set_game_state (Some gs));;
    orders <- call_on_game_state gs;;
    match orders with
    | [] => ret tt
    | _ :: _ => ws_send ws (orders_msg creds orders)
    end
  else if Py.eq_str msg_type "game_end" then
    result <- lift (Py.get msg "result" (JStr "unknown"));;
    modify (set_match_result (Some msg));;
    (if Py.eq_str result "victory"
     then modify (fun a => set_wins (wins a + 1) a)
     else if Py.eq_str result "defeat"
     then modify (fun a => set_losses (losses a + 1) a)
     else ret tt);;
    run_hook (CallOnMatchEnd msg) (on_match_end msg)
  else if Py.eq_str msg_type "order_violations" then
    violations <- lift (Py.get msg "violations" (JList []));;
    run_hook (CallOnViolation violations) (on_violation violations)
  else if Py.eq_str msg_type "chat" then
    sender <- lift (Py.get msg "from" (JStr "?"));;
    message <- lift (Py.get msg "message" (JStr ""));;
    run_hook (CallOnChat sender message) (on_chat sender message)
  else if Py.eq_str msg_type "connected" || Py.eq_str msg_type "game_start"
  then emit (log DEBUG "Match event: {msg_type}" [LJson msg_type])
  else ret tt.

(** One pass through the body of the game loop of [_play_match]
    (the [try] statement inside [while self._running]); the result says
    whether the [break] was taken. *)
Definition game_iteration (s : recv_step) : M bool :=
  let ws := match_ws s in
  try_except
    (msg <- receive MatchChannel s;;
     _handle_match_message ws msg;;
     ty <- lift (Py.get msg "type" JNull);;
     ret (Py.eq_str ty "game_end"))
    (fun e =>
       match e with
       | TimeoutError =>
           Some (creds <- read_credentials;;
                 ws_send ws (get_state_msg creds);;
                 ret false)
       | _ => None
       end).

(** The game loop of [_play_match]: [while self._running: ...]. *)
Fixpoint game_loop (msgs : list recv_step) : M unit :=
  fun a =>
    if _running a then
      match msgs with
      | [] => (Blocked, a, [])
      | s :: rest =>
          (stop <- game_iteration s;;
           if stop then ret tt else game_loop rest) a
      end
    else (Return tt, a, []).

(** The loop of [_play_match] that finds our faction and the
    opponent. *)
Fixpoint find_players (me : string) (players : list json)
    (acc : json * json) : result (json * json) :=
  match players with
  | [] => Ok acc
  | p :: rest =>
      match Py.get p "agent_id" JNull with
      | Err e => Err e
      | Ok pid =>
          if Py.eq_str pid me
          then find_players me rest (p, snd acc)
          else
            match Py.get p "agent_name" (JStr "Unknown") with
            | Err e => Err e
            | Ok n => find_players me rest (fst acc, n)
            end
      end
  end.

Definition match_error_log (e : exn) : event :=
  match e with
  | ConnectionClosed => log WARNING "Match connection closed" []
  | _ => log ERROR "Match error: {e}" [LExn e]
  end.

(** The [try] statement of [_play_match]: the match session on the
    endpoint of match [mid], against the connection attempt [conn] the
    environment offers. *)
Definition match_session (mid : json) (conn : connect_outcome) : M unit :=
  try_finally
    (try_except
       (with_connection (MatchUri mid) conn (fun s =>
          modify (set_ws (Some (MatchUri mid)));;
          creds <- read_credentials;;
          ws_send {| ws_channel := MatchChannel;
                     transmits := link_up_at_open s |}
                  (identify_msg creds);;
          game_loop (inbox s)))
       (fun e => Some (emit (match_error_log e))))
    (modify (set_ws None)).

(** [_play_match(self, match_data)] *)
Definition _play_match (match_data : json) (conn : connect_outcome)
    : M unit :=
  emit (EnterPlayMatch match_data);;
  creds <- assert_credentials;;
  mid <- lift (Py.get match_data "id" (JStr "unknown"));;
  players <- lift (Py.get match_data "players" (JList []));;
  map_name <- lift (Py.get match_data "map" (JStr "Unknown"));;
  ps <- lift (Py.iter players);;
  found <- lift (find_players (agent_id creds) ps (JNull, JStr "Unknown"));;
  let our_player := fst found in
  let opponent_name := snd found in
  our_faction <- (if Py.truthy our_player
                  then lift (Py.get our_player "faction" (JStr "random"))
                  else ret (JStr "random"));;
  match_settings <- lift (Py.get match_data "settings" (JDict []));;
  let mi := {| match_id := mid; map_name := map_name;
               faction := our_faction; opponent := opponent_name;
               settings := match_settings |} in
  modify (set_match_info (Some mi));;
  run_hook (CallOnMatchStart mi) (on_match_start mi);;
  match_session mid conn.

(** One pass through the body of the waiting loop of
    [_wait_for_match]; [Some v] stands for [return v]. *)
Definition queue_iteration (s : recv_step) : M (option json) :=
  try_except
    (msg <- receive QueueChannel s;;
     ev <- lift (Py.get msg "event" JNull);;
     if Py.eq_str ev "match_found" then
       emit (log INFO "Match found!" []);;
       data <- lift (Py.get msg "data" (JDict []));;
       ret (Some data)
     else if Py.eq_str ev "queue_timeout" then
       emit (log INFO "Queue timeout. Re-queuing..." []);;
       ret (Some JNull)
     else
       ty <- lift (Py.get msg "type" JNull);;
       if Py.eq_str ty "identified"
       then emit (log DEBUG "Queue connection identified" []);; ret None
       else ret None)
    (fun e =>
       match e with
       | TimeoutError => Some (ret None)
       | _ => None
       end).

(** The waiting loop of [_wait_for_match]; leaving the loop reaches the
    final [return None]. *)
Fixpoint queue_loop (msgs : list recv_step) : M json :=
  fun a =>
    if _running a then
      match msgs with
      | [] => (Blocked, a, [])
      | s :: rest =>
          (r <- queue_iteration s;;
           match r with
           | Some v => ret v
           | None => queue_loop rest
           end) a
      end
    else (Return JNull, a, []).

(** [_wait_for_match(self)]; Python's [None] is [JNull]. *)
Definition _wait_for_match (conn : connect_outcome) : M json :=
  creds <- assert_credentials;;
  emit (log INFO "Waiting for match..." []);;
  try_except
    (with_connection QueueUri conn (fun s =>
       ws_send {| ws_channel := QueueChannel;
                  transmits := link_up_at_open s |}
               (identify_msg creds);;
       queue_loop (inbox s)))
    (fun e =>
       Some (emit (log ERROR "Queue WebSocket error: {e}" [LExn e]);;
             emit (Sleep 3);;
             ret JNull)).

(** [_join_queue(self)] *)
Definition _join_queue (resp : join_outcome) : M unit :=
  creds <- assert_credentials;;
  m <- read mode;;
  f <- read agent_faction;;
  emit (HttpJoinQueue (GameMode_value m) (Faction_value f) (api_key creds));;
  match resp with
  | JoinRaises e => raise e
  | JoinStatus status text =>
      if status =? 409 then emit (log DEBUG "Already in queue" [])
      else if negb (status =? 200)
      then raise (RuntimeError "Queue join failed: {resp.status} {text}")
      else emit (log INFO "Joined {self.mode.value} queue"
                     [LStr (GameMode_value m)])
  end.

(** What the environment offers to one pass of the lifecycle loop. *)
Record cycle_env : Type := {
  join_response : join_outcome;
  queue_socket : connect_outcome;
  match_socket : connect_outcome
}.

Inductive loop_ctl : Type := NextIteration | BreakLoop.

(** The [try] body of the lifecycle loop of [_main_loop]. *)
Definition cycle (env : cycle_env) : M loop_ctl :=
  _join_queue (join_response env);;
  match_data <- _wait_for_match (queue_socket env);;
  if negb (Py.truthy match_data) then ret NextIteration
  else
    _play_match match_data (match_socket env);;
    modify (fun a => set_matches_played (matches_played a + 1) a);;
    w <- read wins;;
    l <- read losses;;
    n <- read matches_played;;
    emit (log INFO "Record: {self.wins}W / {self.losses}L ({self.matches_played} games)"
            [LInt w; LInt l; LInt n]);;
    aq <- read auto_queue;;
    if negb aq then ret BreakLoop
    else emit (Sleep 2);; ret NextIteration.

(** Step 3 of [_main_loop], the queue, match, play loop
    ([while self._running: try: ... except Exception: ...]), for an
    agent that steps 1 and 2 have left with its credentials. *)
Fixpoint _main_loop_step3 (envs : list cycle_env) : M unit :=
  fun a =>
    if _running a then
      match envs with
      | [] => (Blocked, a, [])
      | env :: rest =>
          (c <- try_except (cycle env)
                  (fun e =>
                     Some (emit (log ERROR "Error in main loop: {e}" [LExn e]);;
                           emit (Sleep 5);;
                           ret NextIteration));;
           match c with
           | BreakLoop => ret tt
           | NextIteration => _main_loop_step3 rest
           end) a
      end
    else (Return tt, a, []).

End Session.

(* ================================================================== *)
(** ** Shapes of state payloads *)

Module Payload.

Definition is_dict (j : json) : bool :=
  match j with JDict _ => true | _ => false end.

Definition is_iterable (j : json) : bool :=
  match j with JList _ | JStr _ | JDict _ => true | _ => false end.

(** The value under [k], if there is one, satisfies [p]. *)
Definition if_present (kvs : list (string * json)) (k : string)
    (p : json -> bool) : bool :=
  match Py.lookup k kvs with
  | Some v => p v
  | None => true
  end.

(** The payloads [from_dict] parses: the sections [own], [enemy] and
    [map], and [power] inside [own], are mappings when they occur, and
    the [size] inside [map] can be turned into a tuple. *)
Definition accepts (kvs : list (string * json)) : bool :=
  if_present kvs "own"
    (fun own => match own with
                | JDict o => if_present o "power" is_dict
                | _ => false
                end)
  && if_present kvs "enemy" is_dict
  && if_present kvs "map"
       (fun m => match m with
                 | JDict mkvs => if_present mkvs "size" is_iterable
                 | _ => false
                 end).

(** The section under [k], empty when the key is missing. *)
Definition section (kvs : list (string * json)) (k : string)
    : list (string * json) :=
  match Py.lookup k kvs with
  | Some (JDict d) => d
  | _ => []
  end.

Definition value_or (kvs : list (string * json)) (k : string)
    (default : json) : json :=
  match Py.lookup k kvs with
  | Some v => v
  | None => default
  end.

Definition default_size : json := JList [JInt 128; JInt 128].

End Payload.

(* ================================================================== *)
(** ** Observations on traces *)

Module Trace.

Definition is_send (ev : event) : bool :=
  match ev with WsSend _ _ => true | _ => false end.

Definition is_recv (ev : event) : bool :=
  match ev with WsRecv _ _ => true | _ => false end.


Definition is_strategy_call (ev : event) : bool :=
  match ev with CallOnGameState _ => true | _ => false end.

Definition is_violation_call (ev : event) : bool :=
  match ev with CallOnViolation _ => true | _ => false end.

Definition is_match_end_call (ev : event) : bool :=
  match ev with CallOnMatchEnd _ => true | _ => false end.

Definition is_match_entry (ev : event) : bool :=
  match ev with EnterPlayMatch _ => true | _ => false end.

Definition count (p : event -> bool) (t : trace) : nat :=
  length (filter p t).

(** No two sends without a receive between them; [sent] tells whether
    a send already followed the latest receive. *)
Fixpoint sends_spaced (sent : bool) (t : trace) : bool :=
  match t with
  | [] => true
  | ev :: t' =>
      if is_recv ev then sends_spaced false t'
      else if is_send ev then negb sent && sends_spaced true t'
      else sends_spaced sent t'
  end.

(** The trace is empty or opens with the queue-join request. *)
Definition starts_with_join (t : trace) : bool :=
  match t with
  | [] => true
  | HttpJoinQueue _ _ _ :: _ => true
  | _ => false
  end.

(** The record [_shutdown] writes. *)
Definition is_stop_record (ev : event) : bool :=
  match ev with
  | Log {| level := INFO; message := m; args := [] |} =>
      String.eqb m "Shutting down..."
  | _ => false
  end.

(** The trace is empty or opens with a receive on the match channel,
    with nothing before it but the record of a stop signal that came in
    during that receive. *)
Definition starts_with_recv (t : trace) : bool :=
  match t with
  | [] => true
  | WsRecv MatchChannel _ :: _ => true
  | ev :: WsRecv MatchChannel _ :: _ => is_stop_record ev
  | _ => false
  end.

(** [msg] is a mapping whose ["event"] is [e]. *)
Definition event_is (msg : json) (e : string) : bool :=
  match msg with
  | JDict kvs =>
      match Py.lookup "event" kvs with
      | Some v => Py.eq_str v e
      | None => false
      end
  | _ => false
  end.

(** What the waiting loop returns on the queue message [msg], when
    [msg] is one of the two events that end the wait. *)
Definition queue_verdict (msg : json) : option json :=
  match msg with
  | JDict kvs =>
      if event_is msg "match_found" then
        Some (match Py.lookup "data" kvs with
              | Some d => d
              | None => JDict []
              end)
      else if event_is msg "queue_timeout" then Some JNull
      else None
  | _ => None
  end.

End Trace.

(* ================================================================== *)
(** ** Concrete payloads, bots and environments *)

Module Scenario.

(** A state payload with two own units and one own building. *)
Definition own_section : list (string * json) :=
  [("credits", JInt 2500);
   ("power", JDict [("generated", JInt 100); ("consumed", JInt 40)]);
   ("units", JList [JDict [("id", JInt 1); ("type", JStr "mcv")];
                    JDict [("id", JInt 2); ("type", JStr "3tnk")]]);
   ("buildings", JList [JDict [("id", JInt 7); ("type", JStr "weap")]])].

Definition state_payload : list (string * json) :=
  [("tick", JInt 42); ("game_time", JStr "0:02");
   ("own", JDict own_section);
   ("map", JDict [("name", JStr "Tundra");
                  ("size", JList [JInt 64; JInt 96])])].

(** A state payload whose [own] section is [null]. *)
Definition null_own_payload : list (string * json) := [("own", JNull)].

Definition state_update_msg : json :=
  JDict [("type", JStr "state_update"); ("state", JDict state_payload)].

(** What [from_dict] makes of [state_payload]. *)
Definition parsed_state : GameState.t :=
  {| GameState.tick := JInt 42;
     GameState.game_time := JStr "0:02";
     GameState.credits := JInt 2500;
     GameState.power_generated := JInt 100;
     GameState.power_consumed := JInt 40;
     GameState.own_units :=
       JList [JDict [("id", JInt 1); ("type", JStr "mcv")];
              JDict [("id", JInt 2); ("type", JStr "3tnk")]];
     GameState.own_buildings :=
       JList [JDict [("id", JInt 7); ("type", JStr "weap")]];
     GameState.enemy_visible_units := JList [];
     GameState.enemy_visible_buildings := JList [];
     GameState.frozen_actors := JList [];
     GameState.explored_percentage := JInt 0;
     GameState.map_name := JStr "Tundra";
     GameState.map_size := [JInt 64; JInt 96];
     GameState.known_ore_fields := JList [] |}.


(** Scenario C. *)
Definition victory_msg : json :=
  JDict [("type", JStr "game_end"); ("result", JStr "victory")].

(** Scenario D. *)
Definition two_violations : json :=
  JList [JStr "unit 9 is not yours"; JStr "not enough credits"].

Definition violations_msg : json :=
  JDict [("type", JStr "order_violations"); ("violations", two_violations)].

(** Scenario B. *)
Definition pairing : json :=
  JDict [("id", JStr "m1");
         ("players",
          JList [JDict [("agent_id", JStr "a1"); ("faction", JStr "soviet")];
                 JDict [("agent_id", JStr "a2"); ("agent_name", JStr "Foe")]]);
         ("map", JStr "Tundra")].

Definition match_found_msg : json :=
  JDict [("event", JStr "match_found"); ("data", pairing)].

Definition pairing_info : MatchInfo :=
  {| match_id := JStr "m1";
     map_name := JStr "Tundra";
     faction := JStr "soviet";
     opponent := JStr "Foe";
     settings := JDict [] |}.

Definition queue_timeout_msg : json :=
  JDict [("event", JStr "queue_timeout")].

(** A [match_found] event without its ["data"]. *)
Definition bare_match_found_msg : json :=
  JDict [("event", JStr "match_found")].

Definition creds : AgentCredentials :=
  {| agent_id := "a1"; cred_name := "Bot"; api_key := "k1"; elo := 1200 |}.

(** The agent as [__init__] leaves it when given its credentials. *)
Definition agent0 : Agent :=
  {| name := "Bot"; mode := RANKED_1V1; agent_faction := RANDOM;
     auto_queue := true; credentials := Some creds;
     match_info := None; game_state := None; match_result := None;
     matches_played := 0; wins := 0; losses := 0;
     _running := true; _ws := None |}.

Definition one_order : json :=
  JDict [("type", JStr "deploy"); ("unit_ids", JList [JInt 1])].

(** Three strategies: no orders, one order, and one that raises. *)
Definition idle_bot : Bot := bot_of (fun _ => Ok []).
Definition eager_bot : Bot := bot_of (fun _ => Ok [one_order]).

(** A receive that delivers [msg] on a live connection, no signal. *)
Definition delivers (msg : json) : recv_step :=
  {| signalled := false; received := RecvMsg msg; link_up := true |}.

Definition times_out : recv_step :=
  {| signalled := false; received := RecvTimeout; link_up := true |}.

Definition live (msgs : list recv_step) : connect_outcome :=
  Connected {| link_up_at_open := true; inbox := msgs |}.

(** Passes of the lifecycle loop: the arena accepts the join; the
    queue socket times out once and then announces [queue_timeout], or
    announces a [match_found] without payload, or a proper pairing. *)
Definition timed_out_cycle : cycle_env :=
  {| join_response := JoinStatus 200 "ok";
     queue_socket := live [times_out; delivers queue_timeout_msg];
     match_socket := live [delivers victory_msg] |}.

Definition bare_match_cycle : cycle_env :=
  {| join_response := JoinStatus 200 "ok";
     queue_socket := live [delivers bare_match_found_msg];
     match_socket := live [delivers victory_msg] |}.

Definition paired_cycle : cycle_env :=
  {| join_response := JoinStatus 409 "already queued";
     queue_socket := live [delivers match_found_msg];
     match_socket := live [delivers victory_msg] |}.

(** A pass with a match in it: a snapshot, a silent half minute, then
    the victory. *)
Definition played_cycle : cycle_env :=
  {| join_response := JoinStatus 409 "already queued";
     queue_socket := live [delivers match_found_msg];
     match_socket := live [delivers state_update_msg; times_out;
                           delivers victory_msg] |}.

End Scenario.

(* ================================================================== *)
(** ** Further parts of the adapter: construction, registration,
       derived views, order helpers and the example bot *)

Module Str.

(** [s.rstrip("/")] *)
Fixpoint rstrip_slash (s : string) : string :=
  match s with
  | EmptyString => EmptyString
  | String c rest =>
      match rstrip_slash rest with
      | EmptyString =>
          if Ascii.eqb c "/" then EmptyString else String c EmptyString
      | String c' r => String c (String c' r)
      end
  end.

(** [s.startswith("http")] *)
Definition starts_http (s : string) : bool :=
  match s with
  | String c1 (String c2 (String c3 (String c4 _))) =>
      Ascii.eqb c1 "h" && Ascii.eqb c2 "t" && Ascii.eqb c3 "t"
      && Ascii.eqb c4 "p"
  | _ => false
  end.

(** [s.replace("http", "ws")]: the occurrences are found left to right
    and do not overlap. *)
Fixpoint replace_http_ws (s : string) : string :=
  match s with
  | EmptyString => EmptyString
  | String c rest =>
      if starts_http s then
        match rest with
        | String _ (String _ (String _ after)) =>
            String "w" (String "s" (replace_http_ws after))
        | _ => String c (replace_http_ws rest)
        end
      else String c (replace_http_ws rest)
  end.

Fixpoint ends_with_slash (s : string) : bool :=
  match s with
  | EmptyString => false
  | String c EmptyString => Ascii.eqb c "/"
  | String _ rest => ends_with_slash rest
  end.

(** ["http" in s] *)
Fixpoint has_http (s : string) : bool :=
  match s with
  | EmptyString => false
  | String _ rest => starts_http s || has_http rest
  end.

(** A run of [n] slashes. *)
Fixpoint slashes (n : nat) : string :=
  match n with
  | O => EmptyString
  | S k => String "/" (slashes k)
  end.

(** Truth value of an [Optional[str]]. *)
Definition truthy (o : option string) : bool :=
  match o with
  | Some s => negb (String.eqb s "")
  | None => false
  end.

End Str.

(** The two endpoints [__init__] derives from the arena URL. *)
Record Endpoints : Type := {
  arena_url : string;
  ws_url : string
}.

(** [IronCurtainAgent.__init__] (without the logging set-up): the
    endpoints, and the agent object of the session code. *)
Definition __init__ (name arena_url : string)
    (api_key agent_id : option string) (mode : GameMode)
    (faction : Faction) (auto_queue : bool) : Endpoints * Agent :=
  ({| arena_url := Str.rstrip_slash arena_url;
      ws_url := Str.rstrip_slash (Str.replace_http_ws arena_url) |},
   {| name := name; mode := mode; agent_faction := faction;
      auto_queue := auto_queue;
      credentials :=
        match api_key, agent_id with
        | Some k, Some i =>
            if Str.truthy api_key && Str.truthy agent_id
            then Some {| agent_id := i; cred_name := name;
                         api_key := k; elo := 1200 |}
            else None
        | _, _ => None
        end;
      match_info := None; game_state := None; match_result := None;
      matches_played := 0; wins := 0; losses := 0;
      _running := true; _ws := None |}).

Module PyOps.

(** [d[k]] for a string key. *)
Definition getitem (d : json) (k : string) : result json :=
  match d with
  | JDict kvs =>
      match Py.lookup k kvs with
      | Some v => Ok v
      | None => Err (OtherException "KeyError")
      end
  | _ => Err TypeError
  end.

(** [t[i]] on a tuple. *)
Definition index (t : list json) (i : nat) : result json :=
  match nth_error t i with
  | Some v => Ok v
  | None => Err (OtherException "IndexError")
  end.

Definition int_of_bool (b : bool) : Z := if b then 1 else 0.

(** [x < 1000] and [x > 1000]: numbers compare (a bool as 0 or 1, a
    float by its value, NaN below and above nothing), anything else
    raises. *)
Definition lt_1000 (x : json) : result bool :=
  match x with
  | JInt z => Ok (z <? 1000)
  | JBool b => Ok (int_of_bool b <? 1000)
  | JFloat f => Ok (PrimFloat.ltb f 1000%float)
  | _ => Err TypeError
  end.

Definition gt_1000 (x : json) : result bool :=
  match x with
  | JInt z => Ok (1000 <? z)
  | JBool b => Ok (1000 <? int_of_bool b)
  | JFloat f => Ok (PrimFloat.ltb 1000%float f)
  | _ => Err TypeError
  end.

(** [x // 2], given the floor division of floats. *)
Definition floordiv_2 (float_floordiv_2 : float -> float) (x : json)
    : result json :=
  match x with
  | JInt z => Ok (JInt (z / 2))
  | JBool b => Ok (JInt (int_of_bool b / 2))
  | JFloat f => Ok (JFloat (float_floordiv_2 f))
  | _ => Err TypeError
  end.

(** [[u for u in us if keep(u)]], where [keep] may raise. *)
Fixpoint comprehension (keep : json -> result bool) (us : list json)
    : result (list json) :=
  match us with
  | [] => Ok []
  | u :: rest =>
      match keep u with
      | Err e => Err e
      | Ok b =>
          match comprehension keep rest with
          | Err e => Err e
          | Ok tl => Ok (if b then u :: tl else tl)
          end
      end
  end.

(** [[f(u) for u in us]], where [f] may raise. *)
Fixpoint collect (f : json -> result json) (us : list json)
    : result (list json) :=
  match us with
  | [] => Ok []
  | u :: rest =>
      match f u with
      | Err e => Err e
      | Ok v =>
          match collect f rest with
          | Err e => Err e
          | Ok tl => Ok (v :: tl)
          end
      end
  end.

End PyOps.

Module Views.

Local Open Scope result_scope.

(** [u.get("is_idle", False)] as a condition. *)
Definition is_idle (u : json) : result bool :=
  let? flag := Py.get u "is_idle" (JBool false) in Ok (Py.truthy flag).

(** The property [GameState.idle_units]. *)
Definition idle_units (s : GameState.t) : result (list json) :=
  let? us := Py.iter (GameState.own_units s) in
  PyOps.comprehension is_idle us.

(** A mapping whose ["is_idle"] entry is there and true in Python's
    sense. *)
Definition marked_idle (u : json) : bool :=
  match u with
  | JDict kvs => Py.truthy (Payload.value_or kvs "is_idle" (JBool false))
  | _ => false
  end.

End Views.

Module Registration.

(** The answer to an HTTP request: a status, with what reading the
    body as text ([resp.text()]) and decoding it as JSON ([resp.json()])
    give; or the error of a request that gets no answer. *)
Inductive http_reply : Type :=
| HttpReply (status : Z) (text : result string) (body : result json)
| HttpFails (e : exn).

(** The [AgentCredentials] that [_register] builds: its fields hold
    whatever the arena answered. *)
Record RawCredentials : Type := {
  raw_agent_id : json;
  raw_name : json;
  raw_api_key : json;
  raw_elo : json
}.

Local Open Scope result_scope.

Definition parse_credentials (data : json) : result RawCredentials :=
  let? i := PyOps.getitem data "agent_id" in
  let? n := PyOps.getitem data "name" in
  let? k := PyOps.getitem data "api_key" in
  let? e := Py.get data "elo" (JInt 1200) in
  Ok {| raw_agent_id := i; raw_name := n; raw_api_key := k; raw_elo := e |}.

(** [_register(self)], from the reply to the registration request: what
    it logs, and what it returns or raises. *)
Definition _register (reply : http_reply)
    : list log_record * result RawCredentials :=
  match reply with
  | HttpFails e => ([], Err e)
  | HttpReply status text body =>
      if negb (status =? 200)
      then
        match text with
        | Err e => ([], Err e)
        | Ok _ =>
            ([], Err (RuntimeError "Registration failed: {resp.status} {text}"))
        end
      else
        match rbind body parse_credentials with
        | Err e => ([], Err e)
        | Ok creds =>
            ([{| level := INFO;
                 message := "Registered as {creds.name} (ELO: {creds.elo})";
                 args := [LJson (raw_name creds); LJson (raw_elo creds)] |};
              {| level := WARNING;
                 message := "API KEY (save this!): {creds.api_key}";
                 args := [LJson (raw_api_key creds)] |}],
             Ok creds)
        end
  end.

(** The [try] body of [_self_onboard]. *)
Definition onboard_body (reply : http_reply) : result (list log_record) :=
  match reply with
  | HttpFails e => Err e
  | HttpReply status text body =>
      if status =? 200 then
        let? data := body in
        let? platform := Py.get data "platform" (JStr "IronCurtain") in
        let? version := Py.get data "version" (JStr "?") in
        Ok [{| level := INFO;
               message :=
                 "Connected to {data.get('platform', 'IronCurtain')} v{data.get('version', '?')}";
               args := [LJson platform; LJson version] |}]
      else Ok []
  end.

(** [_self_onboard(self)]: [try: ... except Exception: logger.debug(...)]. *)
Definition _self_onboard (reply : http_reply)
    : list log_record * result unit :=
  match onboard_body reply with
  | Ok logs => (logs, Ok tt)
  | Err _ =>
      ([{| level := DEBUG;
           message := "Self-onboarding endpoint not available (non-critical)";
           args := [] |}],
       Ok tt)
  end.

End Registration.

Module Orders.

Local Open Scope result_scope.

(** What a helper is given as [target] or [position].  The annotation
    asks for a tuple and nothing checks it: a tuple, which no decoded
    message holds, is kept apart from the other values, a list among
    them. *)
Inductive place : Type :=
| Tuple (items : list json)
| Value (v : json).

(** [list(target)] *)
Definition list_ (target : place) : result json :=
  match target with
  | Tuple items => Ok (JList items)
  | Value v => let? items := Py.iter v in Ok (JList items)
  end.

(** The helper class [Orders]: each helper builds the dict of one order.
    The other arguments are stored as they are given. *)
Definition move (unit_ids : json) (target : place) (queued : json)
    : result json :=
  let? t := list_ target in
  Ok (JDict [("type", JStr "move"); ("unit_ids", unit_ids);
             ("target", t); ("queued", queued)]).

Definition attack (unit_ids target_id : json) : json :=
  JDict [("type", JStr "attack"); ("unit_ids", unit_ids);
         ("target_id", target_id)].

Definition attack_move (unit_ids : json) (target : place) : result json :=
  let? t := list_ target in
  Ok (JDict [("type", JStr "attack_move"); ("unit_ids", unit_ids);
             ("target", t)]).

Definition deploy (unit_ids : json) : json :=
  JDict [("type", JStr "deploy"); ("unit_ids", unit_ids)].

Definition build (build_type : json) (position : place) : result json :=
  let? t := list_ position in
  Ok (JDict [("type", JStr "build"); ("build_type", build_type);
             ("target", t)]).

Definition train (unit_type count : json) : json :=
  JDict [("type", JStr "train"); ("build_type", unit_type);
         ("count", count)].

Definition sell (building_id : json) : json :=
  JDict [("type", JStr "sell"); ("building_id", building_id)].

Definition repair (building_id : json) : json :=
  JDict [("type", JStr "repair"); ("building_id", building_id)].

Definition set_rally (building_id : json) (target : place) : result json :=
  let? t := list_ target in
  Ok (JDict [("type", JStr "set_rally"); ("building_id", building_id);
             ("target", t)]).

Definition stop (unit_ids : json) : json :=
  JDict [("type", JStr "stop"); ("unit_ids", unit_ids)].

Definition scatter (unit_ids : json) : json :=
  JDict [("type", JStr "scatter"); ("unit_ids", unit_ids)].

Definition guard (unit_ids target_id : json) : json :=
  JDict [("type", JStr "guard"); ("unit_ids", unit_ids);
         ("target_id", target_id)].

Definition patrol (unit_ids : json) (target : place) : result json :=
  let? t := list_ target in
  Ok (JDict [("type", JStr "patrol"); ("unit_ids", unit_ids);
             ("target", t)]).

(** A call of one of the helpers. *)
Inductive call : Type :=
| Move (unit_ids : json) (target : place) (queued : json)
| Attack (unit_ids target_id : json)
| AttackMove (unit_ids : json) (target : place)
| Deploy (unit_ids : json)
| Build (build_type : json) (position : place)
| Train (unit_type count : json)
| Sell (building_id : json)
| Repair (building_id : json)
| SetRally (building_id : json) (target : place)
| Stop (unit_ids : json)
| Scatter (unit_ids : json)
| Guard (unit_ids target_id : json)
| Patrol (unit_ids : json) (target : place).

Definition run (c : call) : result json :=
  match c with
  | Move u t q => move u t q
  | Attack u t => Ok (attack u t)
  | AttackMove u t => attack_move u t
  | Deploy u => Ok (deploy u)
  | Build b p => build b p
  | Train u n => Ok (train u n)
  | Sell b => Ok (sell b)
  | Repair b => Ok (repair b)
  | SetRally b t => set_rally b t
  | Stop u => Ok (stop u)
  | Scatter u => Ok (scatter u)
  | Guard u t => Ok (guard u t)
  | Patrol u t => patrol u t
  end.

(** The name of the helper, which is the order's type tag. *)
Definition tag (c : call) : string :=
  match c with
  | Move _ _ _ => "move" | Attack _ _ => "attack"
  | AttackMove _ _ => "attack_move" | Deploy _ => "deploy"
  | Build _ _ => "build" | Train _ _ => "train" | Sell _ => "sell"
  | Repair _ => "repair" | SetRally _ _ => "set_rally" | Stop _ => "stop"
  | Scatter _ => "scatter" | Guard _ _ => "guard" | Patrol _ _ => "patrol"
  end.

(** The place of a call, if the helper takes one. *)
Definition place_of (c : call) : option place :=
  match c with
  | Move _ t _ | AttackMove _ t | Build _ t | SetRally _ t | Patrol _ t =>
      Some t
  | _ => None
  end.

(** The call with its place, if any, replaced by the list of the items
    of that place. *)
Definition listed (c : call) : result call :=
  match c with
  | Move u t q => let? l := list_ t in Ok (Move u (Value l) q)
  | AttackMove u t => let? l := list_ t in Ok (AttackMove u (Value l))
  | Build b p => let? l := list_ p in Ok (Build b (Value l))
  | SetRally b t => let? l := list_ t in Ok (SetRally b (Value l))
  | Patrol u t => let? l := list_ t in Ok (Patrol u (Value l))
  | other => Ok other
  end.

End Orders.

Section ExampleBot.

(** Python's [x // 2] on a float, which the primitive floats of Rocq do
    not provide. *)
Variable float_floordiv_2 : float -> float.

Local Open Scope result_scope.

(** [u["type"] == name] *)
Definition type_is (name : string) (u : json) : result bool :=
  let? ty := PyOps.getitem u "type" in Ok (Py.eq_str ty name).

(** [u["type"] not in ("harv", "mcv")] *)
Definition is_combat (u : json) : result bool :=
  let? ty := PyOps.getitem u "type" in
  Ok (negb (Py.eq_str ty "harv" || Py.eq_str ty "mcv")).

(** [b for b in state.own_buildings if b["type"] == "weap"] *)
Definition war_factories (state : GameState.t) : result (list json) :=
  let? buildings := Py.iter (GameState.own_buildings state) in
  PyOps.comprehension (type_is "weap") buildings.

(** The early-game branch of [ExampleBot.on_game_state]. *)
Definition early_game (state : GameState.t) : result (list json) :=
  let? units := Py.iter (GameState.own_units state) in
  let? mcv_units := PyOps.comprehension (type_is "mcv") units in
  let? deploying :=
    match mcv_units with
    | [] => Ok []
    | mcv :: _ =>
        let? id := PyOps.getitem mcv "id" in
        Ok [Orders.deploy (JList [id])]
    end in
  let? factories := war_factories state in
  Ok (deploying ++
      match factories with
      | [] => []
      | _ :: _ => [Orders.train (JStr "harv") (JInt 1)]
      end).

(** The mid-game branch. *)
Definition mid_game (state : GameState.t) : result (list json) :=
  let? factories := war_factories state in
  let? training :=
    match factories with
    | [] => Ok []
    | _ :: _ =>
        let? rich := PyOps.gt_1000 (GameState.credits state) in
        Ok (if rich then [Orders.train (JStr "3tnk") (JInt 2)] else [])
    end in
  let? idle := Views.idle_units state in
  let? combat_idle := PyOps.comprehension is_combat idle in
  if (5 <=? length combat_idle)%nat then
    let? w := PyOps.index (GameState.map_size state) 0 in
    let? cx := PyOps.floordiv_2 float_floordiv_2 w in
    let? h := PyOps.index (GameState.map_size state) 1 in
    let? cy := PyOps.floordiv_2 float_floordiv_2 h in
    let? unit_ids :=
      PyOps.collect (fun u => PyOps.getitem u "id") combat_idle in
    let? attacking :=
      Orders.attack_move (JList unit_ids) (Orders.Tuple [cx; cy]) in
    Ok (training ++ [attacking])
  else Ok training.

(** [ExampleBot.on_game_state] *)
Definition ExampleBot_on_game_state (state : GameState.t)
    : result (list json) :=
  let? early := PyOps.lt_1000 (GameState.tick state) in
  if early then early_game state else mid_game state.

(** [ExampleBot.on_match_start] *)
Definition ExampleBot_on_match_start (mi : MatchInfo) : hook :=
  match Default.on_match_start mi with
  | (logs, Some e) => (logs, Some e)
  | (logs, None) =>
      (logs ++
       [Default.info
          "Let's go! Playing as {match_info.faction} on {match_info.map_name}"
          [LJson (faction mi); LJson (map_name mi)]],
       None)
  end.

(** [ExampleBot.on_match_end] *)
Definition ExampleBot_on_match_end (result : json) : hook :=
  match Default.on_match_end result with
  | (logs, Some e) => (logs, Some e)
  | (logs, None) =>
      match Py.get result "result" (JStr "?") with
      | Err e => (logs, Some e)
      | Ok outcome =>
          (logs ++
           [if Py.eq_str outcome "victory"
            then Default.info "🏆 We won!" []
            else if Py.eq_str outcome "defeat"
            then Default.info "💀 We lost. Analyzing for improvements..." []
            else Default.info "Match ended: {outcome}" [LJson outcome]],
           None)
      end
  end.

Definition ExampleBot : Bot :=
  {| on_game_state := ExampleBot_on_game_state;
     on_match_start := ExampleBot_on_match_start;
     on_match_end := ExampleBot_on_match_end;
     on_violation := Default.on_violation;
     on_chat := Default.on_chat |}.

End ExampleBot.

(** Shapes of the order batches of [ExampleBot]. *)
Module Batch.

(** At most a deployment of one unit, then at most one harvester
    order. *)
Definition early (orders : list json) : Prop :=
  exists dep trn,
    orders = dep ++ trn /\
    (dep = [] \/ exists id, dep = [Orders.deploy (JList [id])]) /\
    (trn = [] \/ trn = [Orders.train (JStr "harv") (JInt 1)]).

(** At most an order for two heavy tanks, then at most one attack-move
    of five units or more. *)
Definition mid (orders : list json) : Prop :=
  exists trn atk,
    orders = trn ++ atk /\
    (trn = [] \/ trn = [Orders.train (JStr "3tnk") (JInt 2)]) /\
    (atk = [] \/
     exists ids center,
       atk = [JDict [("type", JStr "attack_move");
                     ("unit_ids", JList ids);
                     ("target", JList center)]] /\
       (5 <= length ids)%nat).

End Batch.

(* ================================================================== *)
(** ** Message kinds and bookkeeping of the session *)

Module Protocol.

(** The ["type"] under which [_handle_match_message] files [msg]; a
    value without [.get] has none. *)
Definition type_of (msg : json) : option json :=
  match msg with
  | JDict kvs =>
      Some (match Py.lookup "type" kvs with
            | Some ty => ty
            | None => JStr ""
            end)
  | _ => None
  end.

Definition has_type (msg : json) (names : list string) : bool :=
  match type_of msg with
  | Some ty => existsb (Py.eq_str ty) names
  | None => false
  end.

Definition state_types : list string := ["state_update"; "state_response"].

(** The seven types the handler has a branch for. *)
Definition known_types : list string :=
  ["state_update"; "state_response"; "game_end"; "order_violations";
   "chat"; "connected"; "game_start"].

(** The exception a receive raises when it ends the game loop at once. *)
Definition fatal_receive (o : recv_outcome) : option exn :=
  match o with
  | RecvClosed => Some ConnectionClosed
  | RecvUndecodable => Some JSONDecodeError
  | RecvMsg (JDict _) => None
  | RecvMsg _ => Some AttributeError
  | RecvTimeout => None
  end.

(** What can happen while a match is in play: receives and sends on
    the match channel, calls of the strategy and the hooks, and logging. *)
Definition in_play (ev : event) : bool :=
  match ev with
  | Log _ | WsSend MatchChannel _ | WsRecv MatchChannel _
  | CallOnGameState _ | CallOnMatchEnd _ | CallOnViolation _
  | CallOnChat _ _ => true
  | _ => false
  end.

Definition is_close (ev : event) : bool :=
  match ev with WsClose _ => true | _ => false end.

Definition is_connect (ev : event) : bool :=
  match ev with WsConnect _ => true | _ => false end.

Definition is_sleep (ev : event) : bool :=
  match ev with Sleep _ => true | _ => false end.

Definition is_join (ev : event) : bool :=
  match ev with HttpJoinQueue _ _ _ => true | _ => false end.

Definition is_log (ev : event) : bool :=
  match ev with Log _ => true | _ => false end.

(** The trace without its log records. *)
Definition on_the_wire (t : trace) : trace :=
  filter (fun ev => negb (is_log ev)) t.

(** The exception [_join_queue] raises on the answer [resp], if any. *)
Definition join_error (resp : join_outcome) : option exn :=
  match resp with
  | JoinRaises e => Some e
  | JoinStatus status _ =>
      if (status =? 409) || (status =? 200) then None
      else Some (RuntimeError "Queue join failed: {resp.status} {text}")
  end.

(** What can happen while the agent waits in the queue loop: receives
    on the queue channel, and log records below the level ERROR. *)
Definition in_wait (ev : event) : bool :=
  match ev with
  | Log r => match level r with ERROR => false | _ => true end
  | WsRecv QueueChannel _ => true
  | _ => false
  end.

(** The receives after which the queue loop keeps waiting: a timeout,
    and a mapping that is neither of the two verdicts. *)
Definition keeps_waiting (o : recv_outcome) : bool :=
  match o with
  | RecvTimeout => true
  | RecvMsg (JDict kvs) =>
      match Trace.queue_verdict (JDict kvs) with
      | None => true
      | Some _ => false
      end
  | _ => false
  end.

(** What the queue loop logs on such a receive. *)
Definition queue_note (o : recv_outcome) : trace :=
  match o with
  | RecvMsg (JDict kvs) =>
      if Py.eq_str (Payload.value_or kvs "type" JNull) "identified"
      then [log DEBUG "Queue connection identified" []]
      else []
  | _ => []
  end.

(** [p] is an entry of the pairing for the agent [me]. *)
Definition is_self (me : string) (p : json) : bool :=
  match p with
  | JDict kvs => Py.eq_str (Payload.value_or kvs "agent_id" JNull) me
  | _ => false
  end.

Definition agent_name_of (p : json) : json :=
  match p with
  | JDict kvs => Payload.value_or kvs "agent_name" (JStr "Unknown")
  | _ => JStr "Unknown"
  end.

(** The faction of our entry [p] of the pairing ([JNull]: none found). *)
Definition faction_of (p : json) : json :=
  match p with
  | JDict kvs =>
      match kvs with
      | [] => JStr "random"
      | _ => Payload.value_or kvs "faction" (JStr "random")
      end
  | _ => JStr "random"
  end.

End Protocol.

Module Bookkeeping.

(** What no session code assigns to. *)
Definition same_identity (a a' : Agent) : Prop :=
  name a' = name a /\ mode a' = mode a /\
  agent_faction a' = agent_faction a /\ auto_queue a' = auto_queue a /\
  credentials a' = credentials a.

(** A stopped agent is not started again. *)
Definition stays_stopped (a a' : Agent) : Prop :=
  _running a = false -> _running a' = false.

(** The record only grows, by no more results than match-end calls in
    the trace and no more games than matches entered. *)
Definition accounted (a a' : Agent) (t : trace) : Prop :=
  wins a <= wins a' /\ losses a <= losses a' /\
  matches_played a <= matches_played a' /\
  (wins a' - wins a) + (losses a' - losses a)
    <= Z.of_nat (Trace.count Trace.is_match_end_call t) /\
  matches_played a' - matches_played a
    <= Z.of_nat (Trace.count Trace.is_match_entry t).

Definition kept (a a' : Agent) (t : trace) : Prop :=
  same_identity a a' /\ stays_stopped a a' /\ accounted a a' t.

(** Inside a match session no game is counted and no match is entered. *)
Definition in_match (a a' : Agent) (t : trace) : Prop :=
  kept a a' t /\ matches_played a' = matches_played a /\
  Trace.count Trace.is_match_entry t = 0%nat.

End Bookkeeping.

(* ================================================================== *)
(** ** Further concrete inputs *)

Module Cases.

Import Scenario.

(** A receive during which the stop signal arrives. *)
Definition delivers_and_stops (msg : json) : recv_step :=
  {| signalled := true; received := RecvMsg msg; link_up := true |}.


(** A receive that times out on a connection that no longer takes what
    the agent sends. *)
Definition times_out_on_dead_link : recv_step :=
  {| signalled := false; received := RecvTimeout; link_up := false |}.


Definition strict_bot : Bot :=
  {| on_game_state := fun _ => Ok [];
     on_match_start := Default.on_match_start;
     on_match_end := Default.on_match_end;
     on_violation := fun _ => ([], Some (OtherException "ValueError"));
     on_chat := Default.on_chat |}.

Definition defeat_msg : json :=
  JDict [("type", JStr "game_end"); ("result", JStr "defeat")].

Definition draw_msg : json :=
  JDict [("type", JStr "game_end"); ("result", JStr "draw")].

Definition chat_msg : json :=
  JDict [("type", JStr "chat"); ("message", JStr "gl hf")].

(** A message of a type the handler has no branch for. *)
Definition ping_msg : json := JDict [("type", JStr "ping"); ("seq", JInt 7)].

Definition identified_msg : json := JDict [("type", JStr "identified")].

(** An agent configured for a single match. *)
Definition single_match_agent : Agent :=
  {| name := "Bot"; mode := RANKED_1V1; agent_faction := RANDOM;
     auto_queue := false; credentials := Some creds;
     match_info := None; game_state := None; match_result := None;
     matches_played := 0; wins := 0; losses := 0;
     _running := true; _ws := None |}.

(** Passes of the lifecycle loop that go wrong. *)
Definition refused_join_cycle : cycle_env :=
  {| join_response := JoinStatus 503 "unavailable";
     queue_socket := live [delivers match_found_msg];
     match_socket := live [delivers victory_msg] |}.

Definition no_queue_cycle : cycle_env :=
  {| join_response := JoinStatus 200 "ok";
     queue_socket := ConnectFails (OtherException "ConnectionRefusedError");
     match_socket := live [delivers victory_msg] |}.

(** A [match_found] whose payload is a string. *)
Definition string_pairing_msg : json :=
  JDict [("event", JStr "match_found"); ("data", JStr "m1")].

Definition string_pairing_cycle : cycle_env :=
  {| join_response := JoinStatus 200 "ok";
     queue_socket := live [delivers string_pairing_msg];
     match_socket := live [delivers victory_msg] |}.

(** A pairing of three players that names us twice. *)
Definition crowded_players : list json :=
  [JDict [("agent_id", JStr "a1"); ("faction", JStr "allies")];
   JDict [("agent_id", JStr "a2"); ("agent_name", JStr "Foe")];
   JDict [("agent_id", JStr "a1"); ("faction", JStr "soviet")];
   JDict [("agent_id", JStr "a3")]].

(** [Scenario.paired_cycle] with the join answered 200. *)
Definition joined_cycle : cycle_env :=
  {| join_response := JoinStatus 200 "ok";
     queue_socket := live [delivers match_found_msg];
     match_socket := live [delivers victory_msg] |}.

(** Answers of the arena to the registration request: the credentials,
    and a body that lacks the key. *)
Definition registered_reply : Registration.http_reply :=
  Registration.HttpReply 200 (Ok "registered")
    (Ok (JDict [("agent_id", JStr "a1"); ("name", JStr "Bot");
                ("api_key", JStr "k1")])).

Definition keyless_reply : Registration.http_reply :=
  Registration.HttpReply 200 (Ok "registered")
    (Ok (JDict [("agent_id", JStr "a1"); ("name", JStr "Bot")])).

(** A mid-game snapshot: five idle tanks, an idle harvester and a tank
    on its way, one war factory. *)
Definition tank (id : Z) (idle : bool) : json :=
  JDict [("id", JInt id); ("type", JStr "3tnk"); ("is_idle", JBool idle)].

Definition harvester : json :=
  JDict [("id", JInt 3); ("type", JStr "harv"); ("is_idle", JBool true)].

Definition army : list json :=
  [tank 1 true; tank 2 true; harvester; tank 4 false; tank 5 true;
   tank 6 true; tank 7 true].

Definition mid_state : GameState.t :=
  {| GameState.tick := JInt 1500;
     GameState.game_time := JStr "1:00";
     GameState.credits := JInt 2500;
     GameState.power_generated := JInt 100;
     GameState.power_consumed := JInt 40;
     GameState.own_units := JList army;
     GameState.own_buildings :=
       JList [JDict [("id", JInt 9); ("type", JStr "weap")]];
     GameState.enemy_visible_units := JList [];
     GameState.enemy_visible_buildings := JList [];
     GameState.frozen_actors := JList [];
     GameState.explored_percentage := JInt 0;
     GameState.map_name := JStr "Tundra";
     GameState.map_size := [JInt 64; JInt 96];
     GameState.known_ore_fields := JList [] |}.

(** A snapshot with a building that carries no ["type"]. *)
Definition untyped_building_payload : list (string * json) :=
  [("tick", JInt 5);
   ("own", JDict [("buildings", JList [JDict [("id", JInt 9)]])])].

Definition untyped_building_msg : json :=
  JDict [("type", JStr "state_update");
         ("state", JDict untyped_building_payload)].

Definition untyped_building_state : GameState.t :=
  {| GameState.tick := JInt 5;
     GameState.game_time := JStr "0:00";
     GameState.credits := JInt 0;
     GameState.power_generated := JInt 0;
     GameState.power_consumed := JInt 0;
     GameState.own_units := JList [];
     GameState.own_buildings := JList [JDict [("id", JInt 9)]];
     GameState.enemy_visible_units := JList [];
     GameState.enemy_visible_buildings := JList [];
     GameState.frozen_actors := JList [];
     GameState.explored_percentage := JInt 0;
     GameState.map_name := JStr "Unknown";
     GameState.map_size := [JInt 128; JInt 128];
     GameState.known_ore_fields := JList [] |}.

(** A pass in which the stop signal arrives with the victory. *)
Definition stopped_cycle : cycle_env :=
  {| join_response := JoinStatus 200 "ok";
     queue_socket := live [delivers match_found_msg];
     match_socket := live [delivers_and_stops victory_msg;
                           delivers state_update_msg] |}.

(** A queue socket that is silent, then chatty, then times out. *)
Definition patient_queue : list recv_step :=
  [times_out; delivers identified_msg; delivers ping_msg].

End Cases.

(* ================================================================== *)
(** * The embedding at work *)

(** One observed pass of the lifecycle: queue, pairing, one snapshot
    answered by one order batch, one probe after a silent receive, and
    the victory; the loop then waits for the next pass. *)
Example one_match_played :
  let '(r, a, t) :=
    _main_loop_step3 (bot := Scenario.eager_bot) [Scenario.played_cycle]
      Scenario.agent0 in
  r = Blocked /\
  matches_played a = 1 /\ wins a = 1 /\ losses a = 0 /\
  match_info a = Some Scenario.pairing_info /\
  game_state a = Some Scenario.parsed_state /\
  _ws a = None /\
  filter Trace.is_send t =
  [WsSend QueueChannel (identify_msg Scenario.creds);
   WsSend MatchChannel (identify_msg Scenario.creds);
   WsSend MatchChannel (orders_msg Scenario.creds [Scenario.one_order]);
   WsSend MatchChannel (get_state_msg Scenario.creds)] /\
  Trace.count Trace.is_strategy_call t = 1%nat /\
  Trace.count Trace.is_match_entry t = 1%nat.
Proof. vm_compute. repeat split; reflexivity. Qed.

(* ================================================================== *)
(** * Properties of [GameState.from_dict] *)

Module GameStateFacts.

Import GameState Payload.

Lemma get_dict kvs k d : Py.get (JDict kvs) k d = Ok (value_or kvs k d).
Proof. reflexivity. Qed.

Lemma get_section kvs k :
  if_present kvs k is_dict = true ->
  Py.get (JDict kvs) k (JDict []) = Ok (JDict (section kvs k)).
Proof.
  unfold if_present, section, Py.get.
  destruct (Py.lookup k kvs) as [[]|]; simpl; congruence.
Qed.

Lemma tuple_iterable j :
  is_iterable j = true -> exists l, Py.tuple j = Ok l.
Proof. destruct j; simpl; try discriminate; eauto. Qed.

Lemma accepts_own kvs :
  accepts kvs = true ->
  if_present kvs "own" is_dict = true /\
  if_present (section kvs "own") "power" is_dict = true.
Proof.
  unfold accepts, if_present, section. intros H.
  apply andb_prop in H as [H _]. apply andb_prop in H as [H _].
  destruct (Py.lookup "own" kvs) as [[]|]; simpl in *;
    try discriminate; auto.
Qed.

Lemma accepts_enemy kvs :
  accepts kvs = true -> if_present kvs "enemy" is_dict = true.
Proof.
  unfold accepts. intros H.
  apply andb_prop in H as [H _]. apply andb_prop in H as [_ H]. exact H.
Qed.

Lemma accepts_map kvs :
  accepts kvs = true ->
  if_present kvs "map" is_dict = true /\
  is_iterable (value_or (section kvs "map") "size" default_size) = true.
Proof.
  unfold accepts, if_present, section, value_or. intros H.
  apply andb_prop in H as [_ H].
  destruct (Py.lookup "map" kvs) as [[]|]; simpl in *;
    try discriminate; auto.
  destruct (Py.lookup "size" kvs0); auto.
Qed.

(** On an accepted payload [from_dict] returns the snapshot whose
    fields are the payload's values, or the defaults. *)
Lemma from_dict_accepted kvs :
  accepts kvs = true ->
  exists size,
    Py.tuple (value_or (section kvs "map") "size" default_size) = Ok size /\
    from_dict (JDict kvs) =
    Ok {| tick := value_or kvs "tick" (JInt 0);
          game_time := value_or kvs "game_time" (JStr "0:00");
          credits := value_or (section kvs "own") "credits" (JInt 0);
          power_generated :=
            value_or (section (section kvs "own") "power") "generated" (JInt 0);
          power_consumed :=
            value_or (section (section kvs "own") "power") "consumed" (JInt 0);
          own_units := value_or (section kvs "own") "units" (JList []);
          own_buildings := value_or (section kvs "own") "buildings" (JList []);
          enemy_visible_units :=
            value_or (section kvs "enemy") "visible_units" (JList []);
          enemy_visible_buildings :=
            value_or (section kvs "enemy") "visible_buildings" (JList []);
          frozen_actors :=
            value_or (section kvs "enemy") "frozen_actors" (JList []);
          explored_percentage :=
            value_or (section kvs "own") "explored_percentage" (JInt 0);
          map_name := value_or (section kvs "map") "name" (JStr "Unknown");
          map_size := size;
          known_ore_fields :=
            value_or (section kvs "map") "known_ore_fields" (JList []) |}.
Proof.
  intros H.
  destruct (accepts_own _ H) as [Hown Hpower].
  pose proof (accepts_enemy _ H) as Henemy.
  destruct (accepts_map _ H) as [Hmap Hsize].
  destruct (tuple_iterable _ Hsize) as [size Hsz].
  exists size. split; [exact Hsz|].
  unfold from_dict.
  rewrite (get_section _ _ Hown), (get_section _ _ Henemy),
    (get_section _ _ Hmap). cbn [rbind].
  rewrite (get_section _ _ Hpower). cbn [rbind].
  rewrite !get_dict. cbn [rbind].
  fold default_size. rewrite Hsz. reflexivity.
Qed.

(** Conversely a payload that is parsed is an accepted one. *)
Lemma from_dict_ok_accepts kvs gs :
  from_dict (JDict kvs) = Ok gs -> accepts kvs = true.
Proof.
  unfold from_dict, accepts, if_present. rewrite !get_dict.
  unfold value_or. cbn [rbind].
  destruct (Py.lookup "own" kvs) as [[]|];
    cbn [Py.get rbind]; try discriminate;
  destruct (Py.lookup "enemy" kvs) as [[]|];
    cbn [Py.get rbind is_dict andb]; try discriminate;
  destruct (Py.lookup "map" kvs) as [[]|];
    cbn [Py.get rbind is_dict andb]; try discriminate;
  repeat match goal with
  | |- context [Py.lookup "power" ?k] =>
      destruct (Py.lookup "power" k) as [[]|];
        cbn [Py.get rbind is_dict andb]; try discriminate
  | |- context [Py.lookup "size" ?k] =>
      destruct (Py.lookup "size" k) as [[]|];
        cbn [Py.get Py.tuple Py.iter rbind is_iterable andb];
        try discriminate
  end; auto.
Qed.

End GameStateFacts.

(** C3.  On every valid state payload (one that [from_dict] accepts and
    that carries the own units and own buildings as sequences),
    [from_dict] returns a snapshot whose [unit_count] and
    [building_count] are the lengths of those two sequences. *)
Theorem count_roundtrip :
  forall (kvs own : list (string * json)) (units buildings : list json),
    Payload.accepts kvs = true ->
    Py.lookup "own" kvs = Some (JDict own) ->
    Py.lookup "units" own = Some (JList units) ->
    Py.lookup "buildings" own = Some (JList buildings) ->
    exists gs,
      GameState.from_dict (JDict kvs) = Ok gs /\
      GameState.unit_count gs = Ok (Z.of_nat (length units)) /\
      GameState.building_count gs = Ok (Z.of_nat (length buildings)).
Proof.
  intros kvs own units buildings Hacc Hown Hunits Hbuildings.
  destruct (GameStateFacts.from_dict_accepted kvs Hacc) as (size & _ & Hgs).
  eexists. split; [exact Hgs|].
  unfold GameState.unit_count, GameState.building_count.
  cbn [GameState.own_units GameState.own_buildings].
  unfold Payload.section, Payload.value_or.
  rewrite Hown, Hunits, Hbuildings. split; reflexivity.
Qed.

Lemma count_roundtrip_witness :
  exists gs,
    GameState.from_dict (JDict Scenario.state_payload) = Ok gs /\
    GameState.unit_count gs = Ok 2 /\
    GameState.building_count gs = Ok 1.
Proof.
  exact (count_roundtrip Scenario.state_payload Scenario.own_section
           _ _ eq_refl eq_refl eq_refl eq_refl).
Defined.

(** C10, as stated, fails: a mapping whose [own] entry is [null] makes
    [from_dict] raise [AttributeError]. *)
Lemma from_dict_raises_on_null_own :
  GameState.from_dict (JDict Scenario.null_own_payload) = Err AttributeError.
Proof. reflexivity. Qed.

(** C10 (amended).  [from_dict] succeeds on every mapping in which the
    sections [own], [enemy], [map] and [own.power], where present, are
    mappings and [map.size], where present, is a sequence; it never needs
    a key to be present, and every absent field takes its default: tick
    0, game_time "0:00", credits 0, power 0/0, empty unit, building,
    actor and ore-field lists, explored_percentage 0, map_name "Unknown"
    and map_size (128, 128). *)
Theorem from_dict_defaults :
  forall kvs : list (string * json),
    Payload.accepts kvs = true ->
    let own := Payload.section kvs "own" in
    let power := Payload.section own "power" in
    let enemy := Payload.section kvs "enemy" in
    let map_info := Payload.section kvs "map" in
    exists gs,
      GameState.from_dict (JDict kvs) = Ok gs /\
      (Py.lookup "tick" kvs = None -> GameState.tick gs = JInt 0) /\
      (Py.lookup "game_time" kvs = None ->
       GameState.game_time gs = JStr "0:00") /\
      (Py.lookup "credits" own = None -> GameState.credits gs = JInt 0) /\
      (Py.lookup "generated" power = None ->
       GameState.power_generated gs = JInt 0) /\
      (Py.lookup "consumed" power = None ->
       GameState.power_consumed gs = JInt 0) /\
      (Py.lookup "units" own = None -> GameState.own_units gs = JList []) /\
      (Py.lookup "buildings" own = None ->
       GameState.own_buildings gs = JList []) /\
      (Py.lookup "visible_units" enemy = None ->
       GameState.enemy_visible_units gs = JList []) /\
      (Py.lookup "visible_buildings" enemy = None ->
       GameState.enemy_visible_buildings gs = JList []) /\
      (Py.lookup "frozen_actors" enemy = None ->
       GameState.frozen_actors gs = JList []) /\
      (Py.lookup "explored_percentage" own = None ->
       GameState.explored_percentage gs = JInt 0) /\
      (Py.lookup "name" map_info = None ->
       GameState.map_name gs = JStr "Unknown") /\
      (Py.lookup "size" map_info = None ->
       GameState.map_size gs = [JInt 128; JInt 128]) /\
      (Py.lookup "known_ore_fields" map_info = None ->
       GameState.known_ore_fields gs = JList []).
Proof.
  intros kvs Hacc own power enemy map_info.
  destruct (GameStateFacts.from_dict_accepted kvs Hacc) as (size & Hsz & Hgs).
  eexists. split; [exact Hgs|].
  cbn [GameState.tick GameState.game_time GameState.credits
       GameState.power_generated GameState.power_consumed
       GameState.own_units GameState.own_buildings
       GameState.enemy_visible_units GameState.enemy_visible_buildings
       GameState.frozen_actors GameState.explored_percentage
       GameState.map_name GameState.map_size GameState.known_ore_fields].
  subst own power enemy map_info. unfold Payload.value_or in *.
  repeat split; intros Habs; try (rewrite Habs; reflexivity).
  rewrite Habs in Hsz. cbn in Hsz. congruence.
Qed.

Lemma from_dict_defaults_witness :
  exists gs,
    GameState.from_dict (JDict []) = Ok gs /\
    GameState.tick gs = JInt 0 /\
    GameState.map_name gs = JStr "Unknown" /\
    GameState.map_size gs = [JInt 128; JInt 128].
Proof.
  destruct (from_dict_defaults [] eq_refl)
    as (gs & Hgs & Htick & _ & _ & _ & _ & _ & _ & _ & _ & _ & _ & Hname
        & Hsize & _).
  exists gs. repeat split; auto.
Defined.

(* ================================================================== *)
(** * Reasoning about programs of [M] *)

Lemma count_app p (t1 t2 : trace) :
  Trace.count p (t1 ++ t2) = (Trace.count p t1 + Trace.count p t2)%nat.
Proof. unfold Trace.count. rewrite filter_app, length_app. reflexivity. Qed.

Lemma count_logs p (l : list log_record) :
  (forall r, p (Log r) = false) -> Trace.count p (map Log l) = 0%nat.
Proof.
  intros Hp. unfold Trace.count.
  induction l as [|r l IH]; cbn; [reflexivity|]. rewrite Hp. exact IH.
Qed.

Lemma count_cons p ev (t : trace) :
  Trace.count p (ev :: t) =
  ((if p ev then 1 else 0) + Trace.count p t)%nat.
Proof. unfold Trace.count. cbn. destruct (p ev); reflexivity. Qed.

Lemma count_nil p : Trace.count p [] = 0%nat.
Proof. reflexivity. Qed.

Lemma get_raises d k v e : Py.get d k v = Err e -> e = AttributeError.
Proof. destruct d; cbn; congruence. Qed.

(** What a stop signal does during a receive: the handler runs, writes
    its record and clears [_running]. *)
Lemma deliver_signal_eq s a :
  deliver_signal s a = (Return tt, after_signal s a, signal_log s).
Proof.
  unfold deliver_signal, after_signal, signal_log.
  destruct (signalled s); reflexivity.
Qed.

(** Unfolds the combinators of [M], leaving the Python primitives and
    the hooks folded. *)
Ltac unfold_M :=
  cbv beta iota zeta delta
    [bind ret raise emit emits read modify lift try_except try_finally
     run_hook call_on_game_state ws_send assert_credentials
     read_credentials receive] in *;
  rewrite ?deliver_signal_eq in *.

(** Case analysis on the innermost value a run still waits for. *)
Ltac split_on x :=
  lazymatch x with
  | context [match ?y with _ => _ end] => split_on y
  | _ => let E := fresh "E" in destruct x eqn:E
  end.

Ltac split_run :=
  match goal with
  | H : ?lhs = (_, _, _) |- _ =>
      lazymatch lhs with
      | context [match ?x with _ => _ end] => split_on x
      end
  end.

Ltac finish_run :=
  match goal with
  | H : (_, _, _) = (_, _, _) |- _ => inversion H; subst; clear H
  end.

(** Runs a program symbolically, branching where it branches. *)
Ltac run_all :=
  repeat (cbn beta iota zeta in *; cbn [fst snd app] in *;
          first [finish_run | split_run]).

Lemma signal_log_logs s : exists l, signal_log s = map Log l.
Proof.
  unfold signal_log. destruct (signalled s);
    [eexists [_] | exists []]; reflexivity.
Qed.

Lemma count_signal_log p s :
  (forall r, p (Log r) = false) -> Trace.count p (signal_log s) = 0%nat.
Proof.
  intros Hp. destruct (signal_log_logs s) as (l & ->).
  apply count_logs, Hp.
Qed.

Ltac count_trace :=
  repeat (rewrite ?count_app, ?count_cons, ?count_nil;
          rewrite ?count_logs by reflexivity;
          rewrite ?count_signal_log by reflexivity);
  cbn [Trace.is_send Trace.is_recv Trace.is_strategy_call
       Trace.is_violation_call Trace.is_match_end_call
       Trace.is_match_entry Nat.add].

Lemma sends_spaced_app (t1 t2 : trace) :
  (forall sent, Trace.sends_spaced sent t2 = true) ->
  forall sent,
    Trace.count Trace.is_recv t1 = 0%nat ->
    (Trace.count Trace.is_send t1 + (if sent : bool then 1 else 0) <= 1)%nat ->
    Trace.sends_spaced sent (t1 ++ t2) = true.
Proof.
  intros H2. induction t1 as [|ev t1 IH]; intros sent Hr Hs; cbn.
  - apply H2.
  - rewrite count_cons in Hr, Hs.
    destruct (Trace.is_recv ev); [discriminate|].
    destruct (Trace.is_send ev).
    + destruct sent; [lia|]. cbn. apply IH; [exact Hr | lia].
    + apply IH; [exact Hr | exact Hs].
Qed.

(* ================================================================== *)
(** * Properties of the match session *)

Section MatchSession.

Context {bot : Bot}.

(** What handling one message can do, whatever the message: it never
    receives, it sends at most once and not at all when it raises
    [TimeoutError], it is never left suspended, and it leaves the
    credentials, the match descriptor and the running flag alone. *)
Lemma handle_match_message_frame ws msg a r a' t :
  _handle_match_message ws msg a = (r, a', t) ->
  Trace.count Trace.is_recv t = 0%nat /\
  (Trace.count Trace.is_send t <= 1)%nat /\
  (r = Raised TimeoutError -> Trace.count Trace.is_send t = 0%nat) /\
  r <> Blocked /\
  credentials a' = credentials a /\
  match_info a' = match_info a /\
  _running a' = _running a.
Proof.
  unfold _handle_match_message. unfold_M. intros H.
  run_all; unfold log; count_trace; cbn;
    repeat split; try reflexivity; try lia; try discriminate;
    try congruence.
Qed.

Lemma after_signal_frame s a :
  credentials (after_signal s a) = credentials a /\
  match_info (after_signal s a) = match_info a /\
  wins (after_signal s a) = wins a /\
  losses (after_signal s a) = losses a.
Proof. unfold after_signal. destruct (signalled s); cbn; auto. Qed.

(** One pass of the game loop opens with its receive, and after it
    sends at most once and does not receive again. *)
Lemma game_iteration_frame s a r a' t :
  game_iteration s a = (r, a', t) ->
  exists t',
    t = signal_log s ++ WsRecv MatchChannel (received s) :: t' /\
    Trace.count Trace.is_recv t' = 0%nat /\
    (Trace.count Trace.is_send t' <= 1)%nat /\
    r <> Blocked /\
    credentials a' = credentials a /\
    match_info a' = match_info a.
Proof.
  unfold game_iteration. unfold_M. intros H.
  destruct (after_signal_frame s a) as (Hc & Hm & _).
  run_all; rewrite <- ?app_assoc; cbn [app];
    repeat match goal with
    | E : _handle_match_message _ _ _ = _ |- _ =>
        apply handle_match_message_frame in E;
        destruct E as (? & ? & ? & ? & ? & ? & ?)
    end;
    repeat match goal with
    | E : Py.get _ _ _ = Err _ |- _ => apply get_raises in E; try discriminate E
    | H : ?x = ?x -> _ |- _ => specialize (H eq_refl)
    end;
    eexists; (split; [reflexivity|]); count_trace; cbn;
    repeat split; try lia; try discriminate; try congruence.
Qed.

Lemma sends_spaced_signal_log s sent t :
  Trace.sends_spaced sent (signal_log s ++ t) = Trace.sends_spaced sent t.
Proof. unfold signal_log. destruct (signalled s); reflexivity. Qed.

Lemma starts_with_recv_signal s o t :
  Trace.starts_with_recv (signal_log s ++ WsRecv MatchChannel o :: t) = true.
Proof. unfold signal_log. destruct (signalled s); reflexivity. Qed.

Lemma game_loop_cons s rest a :
  _running a = true ->
  game_loop (s :: rest) a =
  match game_iteration s a with
  | (Return true, a1, t1) => (Return tt, a1, t1 ++ [])
  | (Return false, a1, t1) =>
      let '(r, a2, t2) := game_loop rest a1 in (r, a2, t1 ++ t2)
  | (Raised e, a1, t1) => (Raised e, a1, t1)
  | (Blocked, a1, t1) => (Blocked, a1, t1)
  end.
Proof.
  intros Hrun. cbn [game_loop]. rewrite Hrun. unfold bind.
  destruct (game_iteration s a) as [[[[]| |] a1] t1]; reflexivity.
Qed.

(** The game loop as a whole: its trace opens with a receive, never
    holds two sends without a receive between them, and the loop
    leaves the credentials and the match descriptor alone. *)
Lemma game_loop_frame msgs :
  forall a r a' t,
    game_loop msgs a = (r, a', t) ->
    Trace.starts_with_recv t = true /\
    (forall sent, Trace.sends_spaced sent t = true) /\
    credentials a' = credentials a /\
    match_info a' = match_info a.
Proof.
  induction msgs as [|s rest IH]; intros a r a' t H.
  - cbn in H. destruct (_running a); inversion H; subst; auto.
  - destruct (_running a) eqn:Hrun.
    2:{ cbn in H. rewrite Hrun in H. inversion H; subst; auto. }
    rewrite (game_loop_cons s rest a Hrun) in H.
    destruct (game_iteration s a) as [[ri ai] ti] eqn:Hi.
    destruct (game_iteration_frame s a _ _ _ Hi)
      as (t' & -> & Hrecv & Hsend & Hnb & Hc & Hm).
    assert (Hone : forall t2,
               (forall sent, Trace.sends_spaced sent t2 = true) ->
               forall sent,
                 Trace.sends_spaced sent
                   ((signal_log s ++ WsRecv MatchChannel (received s) :: t')
                    ++ t2) = true).
    { intros t2 H2 sent. rewrite <- app_assoc, sends_spaced_signal_log. cbn.
      apply sends_spaced_app; [exact H2 | exact Hrecv | cbn; lia]. }
    assert (Hopen : forall t2,
               Trace.starts_with_recv
                 ((signal_log s ++ WsRecv MatchChannel (received s) :: t')
                  ++ t2) = true).
    { intros t2. rewrite <- app_assoc. cbn [app].
      apply starts_with_recv_signal. }
    destruct ri as [[|] | e |].
    + inversion H; subst. repeat split; auto;
        try (intros sent; apply (Hone []); reflexivity).
    + destruct (game_loop rest ai) as [[r2 a2] t2] eqn:Hl.
      destruct (IH _ _ _ _ Hl) as (_ & Hsp & Hc2 & Hm2).
      inversion H; subst.
      repeat split; [apply Hopen | apply Hone; exact Hsp | congruence
                    | congruence].
    + inversion H; subst.
      rewrite <- (app_nil_r (signal_log s ++ _ :: t')).
      repeat split; auto;
        try (intros sent; apply (Hone []); reflexivity).
    + congruence.
Qed.


Lemma game_iteration_timeout s a c :
  credentials a = Some c ->
  received s = RecvTimeout ->
  game_iteration s a =
  (if link_up s then Return false else Raised ConnectionClosed,
   after_signal s a,
   signal_log s ++
   [WsRecv MatchChannel RecvTimeout;
    WsSend MatchChannel (get_state_msg c)]).
Proof.
  intros Hc Hr.
  assert (Hc' : credentials (after_signal s a) = Some c).
  { unfold after_signal. destruct (signalled s); exact Hc. }
  unfold game_iteration. unfold_M. rewrite Hr. cbn. rewrite Hc'. cbn.
  destruct (link_up s); rewrite <- app_assoc; reflexivity.
Qed.

(** A pass of the loop on a delivered mapping, from what the handler
    does with it. *)
Lemma game_iteration_delivered s a kvs r a' t :
  received s = RecvMsg (JDict kvs) ->
  _handle_match_message (match_ws s) (JDict kvs) (after_signal s a)
    = (r, a', t) ->
  r <> Raised TimeoutError ->
  game_iteration s a =
  (match r with
   | Return _ =>
       Return (Py.eq_str (Payload.value_or kvs "type" JNull) "game_end")
   | Raised e => Raised e
   | Blocked => Blocked
   end, a', signal_log s ++ WsRecv MatchChannel (RecvMsg (JDict kvs)) :: t).
Proof.
  intros Hr Hh Hnt. unfold game_iteration. unfold_M. rewrite Hr.
  cbn beta iota zeta. rewrite Hh.
  destruct r as [[] | e |]; cbn; rewrite <- ?app_assoc; cbn [app];
    try reflexivity.
  - rewrite app_nil_r. reflexivity.
  - destruct e; try reflexivity. congruence.
Qed.

(** The handler on a state message whose payload parses. *)
Lemma handle_state_message ws a c kvs ty gs :
  credentials a = Some c ->
  Py.lookup "type" kvs = Some (JStr ty) ->
  ty = "state_update" \/ ty = "state_response" ->
  GameState.from_dict (Payload.value_or kvs "state" (JDict [])) = Ok gs ->
  _handle_match_message ws (JDict kvs) a =
  match on_game_state gs with
  | Ok [] =>
      (Return tt, set_game_state (Some gs) a, [CallOnGameState gs])
  | Ok (o :: os) =>
      (if transmits ws then Return tt else Raised ConnectionClosed,
       set_game_state (Some gs) a,
       [CallOnGameState gs;
        WsSend (ws_channel ws) (orders_msg c (o :: os))])
  | Err e =>
      (Raised e, set_game_state (Some gs) a, [CallOnGameState gs])
  end.
Proof.
  intros Hc Hty Hcase Hgs.
  unfold _handle_match_message. unfold_M. rewrite Hc.
  cbn [Py.get]. rewrite Hty. cbn beta iota zeta.
  assert (Hb : Py.eq_str (JStr ty) "state_update"
               || Py.eq_str (JStr ty) "state_response" = true)
    by (destruct Hcase; subst; reflexivity).
  rewrite Hb. fold (Payload.value_or kvs "state" (JDict [])).
  rewrite Hgs. cbn beta iota zeta.
  destruct (on_game_state gs) as [[|o os]|e]; cbn; try reflexivity.
  destruct (transmits ws); reflexivity.
Qed.


(** The handler on a violation message. *)
Lemma handle_violations ws a c kvs v :
  credentials a = Some c ->
  Py.lookup "type" kvs = Some (JStr "order_violations") ->
  Py.lookup "violations" kvs = Some v ->
  _handle_match_message ws (JDict kvs) a =
  (match snd (on_violation v) with
   | None => Return tt
   | Some e => Raised e
   end, a, CallOnViolation v :: map Log (fst (on_violation v))).
Proof.
  intros Hc Hty Hv. unfold _handle_match_message. unfold_M.
  rewrite Hc. cbn [Py.get]. rewrite Hty, Hv. cbn.
  destruct (snd (on_violation v)); cbn; rewrite ?app_nil_r; reflexivity.
Qed.

End MatchSession.

(** C5, as stated, fails: the timeout ends the session when the
    connection does not take the probe.  The one [get_state] request is
    sent, sending it raises [ConnectionClosed], and the session is over
    without another receive. *)
Lemma refused_probe_ends_session :
  game_loop (bot := Scenario.idle_bot)
    [Cases.times_out_on_dead_link;
     Scenario.delivers Scenario.state_update_msg] Scenario.agent0 =
  (Raised ConnectionClosed, Scenario.agent0,
   [WsRecv MatchChannel RecvTimeout;
    WsSend MatchChannel
      (JDict [("type", JStr "get_state"); ("agent_id", JStr "a1")])]) /\
  match_session (bot := Scenario.idle_bot) (JStr "m1")
    (Scenario.live [Cases.times_out_on_dead_link;
                    Scenario.delivers Scenario.state_update_msg])
    Scenario.agent0 =
  (Return tt, Scenario.agent0,
   [WsConnect (MatchUri (JStr "m1"));
    WsSend MatchChannel
      (JDict [("type", JStr "identify"); ("agent_id", JStr "a1")]);
    WsRecv MatchChannel RecvTimeout;
    WsSend MatchChannel
      (JDict [("type", JStr "get_state"); ("agent_id", JStr "a1")]);
    WsClose MatchChannel;
    Log {| level := WARNING; message := "Match connection closed";
           args := [] |}]).
Proof. split; reflexivity. Qed.

(** C5 (amended).  While the session is playing, a receive that times
    out is answered by exactly one message, the request
    [{"type": "get_state", "agent_id": <the agent's id>}], and by
    nothing else.  When the connection takes the request the session is
    not ended by the timeout: the loop goes on with the rest of the
    session, where the next thing to happen is a receive.  When sending
    the request raises [ConnectionClosed], that exception leaves the
    loop.  (A stop signal that came in during the receive has written
    its record before it.) *)
Theorem timeout_sends_one_probe :
  forall (bot : Bot) (s : recv_step) (rest : list recv_step) (a : Agent)
         (c : AgentCredentials),
    _running a = true ->
    credentials a = Some c ->
    received s = RecvTimeout ->
    let probe :=
      [WsRecv MatchChannel RecvTimeout;
       WsSend MatchChannel
         (JDict [("type", JStr "get_state");
                 ("agent_id", JStr (agent_id c))])] in
    Trace.count Trace.is_send probe = 1%nat /\
    (link_up s = true ->
     exists r a' t,
       game_loop rest (after_signal s a) = (r, a', t) /\
       game_loop (s :: rest) a = (r, a', signal_log s ++ probe ++ t) /\
       Trace.starts_with_recv t = true) /\
    (link_up s = false ->
     game_loop (s :: rest) a =
     (Raised ConnectionClosed, after_signal s a, signal_log s ++ probe)).
Proof.
  intros bot s rest a c Hrun Hc Hr probe.
  split; [reflexivity|].
  rewrite (game_loop_cons s rest a Hrun),
    (game_iteration_timeout s a c Hc Hr).
  split; intros Hup; rewrite Hup; [|reflexivity].
  destruct (game_loop rest (after_signal s a)) as [[r a'] t] eqn:Hl.
  exists r, a', t. split; [reflexivity|]. split.
  - rewrite <- app_assoc. reflexivity.
  - apply (game_loop_frame rest _ _ _ _ Hl).
Qed.

Lemma timeout_sends_one_probe_witness :
  game_loop (bot := Scenario.idle_bot) [Scenario.times_out] Scenario.agent0 =
  (Blocked, Scenario.agent0,
   [WsRecv MatchChannel RecvTimeout;
    WsSend MatchChannel
      (JDict [("type", JStr "get_state"); ("agent_id", JStr "a1")])]).
Proof.
  destruct (timeout_sends_one_probe Scenario.idle_bot Scenario.times_out []
              Scenario.agent0 Scenario.creds eq_refl eq_refl eq_refl)
    as (_ & Hup & _).
  destruct (Hup eq_refl) as (r & a' & t & Hrest & Hloop & _).
  cbn in Hrest. inversion Hrest; subst. exact Hloop.
Defined.




(** C8, as stated, fails: a violation hook that raises ends the
    session.  The hook is called with the list, its exception leaves
    the game loop, and the session is closed without another receive. *)
Lemma raising_violation_hook_ends_session :
  game_loop (bot := Cases.strict_bot)
    [Scenario.delivers Scenario.violations_msg;
     Scenario.delivers Scenario.state_update_msg] Scenario.agent0 =
  (Raised (OtherException "ValueError"), Scenario.agent0,
   [WsRecv MatchChannel (RecvMsg Scenario.violations_msg);
    CallOnViolation Scenario.two_violations]) /\
  match_session (bot := Cases.strict_bot) (JStr "m1")
    (Scenario.live [Scenario.delivers Scenario.violations_msg;
                    Scenario.delivers Scenario.state_update_msg])
    Scenario.agent0 =
  (Return tt, Scenario.agent0,
   [WsConnect (MatchUri (JStr "m1"));
    WsSend MatchChannel
      (JDict [("type", JStr "identify"); ("agent_id", JStr "a1")]);
    WsRecv MatchChannel (RecvMsg Scenario.violations_msg);
    CallOnViolation Scenario.two_violations;
    WsClose MatchChannel;
    Log {| level := ERROR; message := "Match error: {e}";
           args := [LExn (OtherException "ValueError")] |}]).
Proof. split; reflexivity. Qed.

(** C8 (amended).  While playing, an [order_violations] message calls
    the violation hook exactly once, with the whole list the message
    carries; handling the message sends nothing and changes nothing of
    the agent (wins, losses, match result, game state and all the rest),
    whether the hook returns or raises.  When the hook returns, as the
    default hook does on every list, the session stays in play: the game
    loop goes on with its next receive. *)
Theorem violations_are_advisory :
  forall (bot : Bot) (s : recv_step) (rest : list recv_step) (a : Agent)
         (c : AgentCredentials) (kvs : list (string * json)) (v : json),
    _running a = true ->
    credentials a = Some c ->
    received s = RecvMsg (JDict kvs) ->
    Py.lookup "type" kvs = Some (JStr "order_violations") ->
    Py.lookup "violations" kvs = Some v ->
    let reaction := CallOnViolation v :: map Log (fst (on_violation v)) in
    _handle_match_message (match_ws s) (JDict kvs) a
      = (match snd (on_violation v) with
         | None => Return tt
         | Some e => Raised e
         end, a, reaction) /\
    Trace.count Trace.is_violation_call reaction = 1%nat /\
    Trace.count Trace.is_send reaction = 0%nat /\
    (forall l, snd (Default.on_violation (JList l)) = None) /\
    (snd (on_violation v) = None ->
     exists r a' t,
       game_loop rest (after_signal s a) = (r, a', t) /\
       game_loop (s :: rest) a =
       (r, a',
        signal_log s ++
        WsRecv MatchChannel (RecvMsg (JDict kvs)) :: reaction ++ t) /\
       Trace.starts_with_recv t = true).
Proof.
  intros bot s rest a c kvs v Hrun Hc Hr Hty Hv reaction.
  split; [exact (handle_violations (match_ws s) a c kvs v Hc Hty Hv)|].
  split; [subst reaction; count_trace; reflexivity|].
  split; [subst reaction; count_trace; reflexivity|].
  split; [reflexivity|].
  intros Hret.
  destruct (after_signal_frame s a) as (Hc1 & _).
  rewrite <- Hc1 in Hc.
  pose proof (handle_violations (match_ws s) (after_signal s a) c kvs v
                Hc Hty Hv) as Hh.
  rewrite Hret in Hh.
  destruct (game_loop rest (after_signal s a)) as [[r a'] t] eqn:Hl.
  exists r, a', t. split; [reflexivity|]. split.
  - rewrite (game_loop_cons s rest a Hrun).
    rewrite (game_iteration_delivered s a _ _ _ _ Hr Hh) by discriminate.
    unfold Payload.value_or. rewrite Hty. cbn. rewrite Hl.
    rewrite <- app_assoc. reflexivity.
  - apply (game_loop_frame rest _ _ _ _ Hl).
Qed.

Lemma violations_are_advisory_witness :
  game_loop (bot := Scenario.idle_bot)
    [Scenario.delivers Scenario.violations_msg] Scenario.agent0 =
  (Blocked, Scenario.agent0,
   [WsRecv MatchChannel (RecvMsg Scenario.violations_msg);
    CallOnViolation Scenario.two_violations;
    Log {| level := WARNING; message := "Order violation: {v}";
           args := [LJson (JStr "unit 9 is not yours")] |};
    Log {| level := WARNING; message := "Order violation: {v}";
           args := [LJson (JStr "not enough credits")] |}]).
Proof.
  destruct (violations_are_advisory Scenario.idle_bot
              (Scenario.delivers Scenario.violations_msg) []
              Scenario.agent0 Scenario.creds _ Scenario.two_violations
              eq_refl eq_refl eq_refl eq_refl eq_refl)
    as (_ & _ & _ & _ & Hgo).
  destruct (Hgo eq_refl) as (r & a' & t & Hrest & Hloop & _).
  cbn in Hrest. inversion Hrest; subst. exact Hloop.
Defined.




Section MatchSessionWhole.

Context {bot : Bot}.

(** A match session swallows every exception, and leaves the
    credentials and the match descriptor alone. *)
Lemma match_session_frame mid conn a r a' t :
  match_session mid conn a = (r, a', t) ->
  (forall e, r <> Raised e) /\
  credentials a' = credentials a /\
  match_info a' = match_info a.
Proof.
  unfold match_session, with_connection. unfold_M. intros H.
  run_all;
    repeat match goal with
    | E : game_loop _ _ = _ |- _ =>
        apply game_loop_frame in E; destruct E as (_ & _ & ? & ?)
    end;
    cbn in *; repeat split; try congruence.
Qed.

End MatchSessionWhole.




(** C6.  Scenario B: the queue message
    [{"event":"match_found","data":{"id":"m1","players":[{"agent_id":"a1",
    "faction":"soviet"},{"agent_id":"a2","agent_name":"Foe"}],
    "map":"Tundra"}}] makes the waiting loop return its ["data"], and
    [_play_match] on that payload, for an agent whose credentials carry
    the id "a1", builds the match descriptor with match_id "m1", map_name
    "Tundra", faction "soviet" and opponent "Foe" (and empty settings),
    hands it to the match-start hook and keeps it as [match_info]. *)
Theorem pairing_builds_match_info :
  forall (bot : Bot) (s : recv_step) (conn : connect_outcome) (a : Agent)
         (c : AgentCredentials),
    credentials a = Some c ->
    agent_id c = "a1" ->
    received s = RecvMsg Scenario.match_found_msg ->
    queue_iteration s a =
    (Return (Some Scenario.pairing), after_signal s a,
     signal_log s ++
     [WsRecv QueueChannel (RecvMsg Scenario.match_found_msg);
      log INFO "Match found!" []]) /\
    exists r a' t,
      _play_match Scenario.pairing conn a =
      (r, a',
       EnterPlayMatch Scenario.pairing
         :: CallOnMatchStart Scenario.pairing_info :: t) /\
      match_info a' = Some Scenario.pairing_info.
Proof.
  intros bot s conn a c Hc Hid Hr. split.
  - unfold queue_iteration. unfold_M. rewrite Hr.
    unfold signal_log. destruct (signalled s); reflexivity.
  - unfold _play_match. unfold_M. rewrite Hc, Hid.
    cbn -[match_session]. fold Scenario.pairing_info.
    destruct (snd (on_match_start Scenario.pairing_info)) as [e|].
    + do 3 eexists. split; reflexivity.
    + destruct (match_session (JStr "m1") conn
                  (set_match_info (Some Scenario.pairing_info) a))
        as [[r a'] t] eqn:Hs.
      destruct (match_session_frame _ _ _ _ _ _ Hs) as (_ & _ & Hm).
      do 3 eexists. split; [reflexivity | exact Hm].
Qed.

Lemma pairing_builds_match_info_witness :
  exists r a' t,
    _play_match (bot := Scenario.idle_bot) Scenario.pairing
      (Scenario.live [Scenario.delivers Scenario.victory_msg])
      Scenario.agent0 =
    (r, a',
     EnterPlayMatch Scenario.pairing
       :: CallOnMatchStart Scenario.pairing_info :: t) /\
    match_info a' = Some Scenario.pairing_info.
Proof.
  exact (proj2 (pairing_builds_match_info Scenario.idle_bot
                  (Scenario.delivers Scenario.match_found_msg)
                  (Scenario.live [Scenario.delivers Scenario.victory_msg])
                  Scenario.agent0 Scenario.creds eq_refl eq_refl eq_refl)).
Defined.

(* ================================================================== *)
(** * Properties of the queue session and of the lifecycle loop *)

Lemma count_zero_not_in p (t : trace) ev :
  Trace.count p t = 0%nat -> In ev t -> p ev = false.
Proof.
  unfold Trace.count. induction t as [|x t IH]; cbn; [tauto|].
  destruct (p x) eqn:Hx; cbn; [discriminate|].
  intros H [->|Hin]; auto.
Qed.

Section QueueSession.

Context {bot : Bot}.

Lemma queue_loop_cons s rest a :
  _running a = true ->
  queue_loop (s :: rest) a =
  match queue_iteration s a with
  | (Return (Some v), a1, t1) => (Return v, a1, t1 ++ [])
  | (Return None, a1, t1) =>
      let '(r, a2, t2) := queue_loop rest a1 in (r, a2, t1 ++ t2)
  | (Raised e, a1, t1) => (Raised e, a1, t1)
  | (Blocked, a1, t1) => (Blocked, a1, t1)
  end.
Proof.
  intros Hrun. cbn [queue_loop]. rewrite Hrun. unfold bind.
  destruct (queue_iteration s a) as [[[[]| |] a1] t1]; reflexivity.
Qed.

(** One pass of the waiting loop, case by case. *)
Lemma queue_iteration_eq s a :
  queue_iteration s a =
  let a1 := after_signal s a in
  let rcv := WsRecv QueueChannel (received s) in
  match received s with
  | RecvMsg (JDict kvs) =>
      if Py.eq_str (Payload.value_or kvs "event" JNull) "match_found" then
        (Return (Some (Payload.value_or kvs "data" (JDict []))), a1,
         signal_log s ++ [rcv; log INFO "Match found!" []])
      else if Py.eq_str (Payload.value_or kvs "event" JNull) "queue_timeout"
      then (Return (Some JNull), a1,
            signal_log s ++ [rcv; log INFO "Queue timeout. Re-queuing..." []])
      else if Py.eq_str (Payload.value_or kvs "type" JNull) "identified"
      then (Return None, a1,
            signal_log s ++ [rcv; log DEBUG "Queue connection identified" []])
      else (Return None, a1, signal_log s ++ [rcv])
  | RecvMsg _ => (Raised AttributeError, a1, signal_log s ++ [rcv])
  | RecvUndecodable => (Raised JSONDecodeError, a1, signal_log s ++ [rcv])
  | RecvTimeout => (Return None, a1, signal_log s ++ [rcv])
  | RecvClosed => (Raised ConnectionClosed, a1, signal_log s ++ [rcv])
  end.
Proof.
  unfold queue_iteration. unfold_M.
  unfold signal_log. destruct (signalled s);
  destruct (received s) as [[]| | |]; try reflexivity.
  all: cbn [Py.get]; fold (Payload.value_or kvs "event" JNull);
    fold (Payload.value_or kvs "data" (JDict []));
    fold (Payload.value_or kvs "type" JNull);
    cbn beta iota zeta;
    (destruct (Py.eq_str (Payload.value_or kvs "event" JNull) "match_found");
     [reflexivity|]);
    (destruct (Py.eq_str (Payload.value_or kvs "event" JNull)
                 "queue_timeout");
     [reflexivity|]);
    destruct (Py.eq_str (Payload.value_or kvs "type" JNull) "identified");
    reflexivity.
Qed.

Lemma queue_verdict_eq kvs :
  Trace.queue_verdict (JDict kvs) =
  if Py.eq_str (Payload.value_or kvs "event" JNull) "match_found"
  then Some (Payload.value_or kvs "data" (JDict []))
  else if Py.eq_str (Payload.value_or kvs "event" JNull) "queue_timeout"
  then Some JNull
  else None.
Proof.
  unfold Trace.queue_verdict, Trace.event_is, Payload.value_or.
  destruct (Py.lookup "event" kvs); reflexivity.
Qed.

(** One pass of the waiting loop: it opens with its receive and does
    nothing else on the wire, it enters no match, and it ends the wait
    exactly as the verdict on the received message says. *)
Lemma queue_iteration_frame s a r a' t :
  queue_iteration s a = (r, a', t) ->
  exists t',
    t = signal_log s ++ WsRecv QueueChannel (received s) :: t' /\
    Trace.count Trace.is_recv t' = 0%nat /\
    Trace.count Trace.is_match_entry t' = 0%nat /\
    credentials a' = credentials a /\
    (forall m v,
       received s = RecvMsg m ->
       Trace.queue_verdict m = Some v -> r = Return (Some v)) /\
    (forall m,
       received s = RecvMsg m ->
       Trace.queue_verdict m = None -> forall v, r <> Return (Some v)).
Proof.
  rewrite queue_iteration_eq. cbn zeta. intros H.
  destruct (after_signal_frame s a) as (Hc & _).
  destruct (received s) as [m| | |] eqn:Hr.
  2-4: inversion H; subst; eexists; split; [reflexivity|];
       repeat split; auto; intros; discriminate.
  destruct m as [| | | | | |kvs].
  1-6: inversion H; subst; eexists; split; [reflexivity|];
       repeat split; auto; intros m v Hm Hv;
       inversion Hm; subst; try discriminate Hv; intros; discriminate.
  pose proof (queue_verdict_eq kvs) as Hv.
  destruct (Py.eq_str (Payload.value_or kvs "event" JNull) "match_found");
    [|destruct (Py.eq_str (Payload.value_or kvs "event" JNull)
                 "queue_timeout");
      [|destruct (Py.eq_str (Payload.value_or kvs "type" JNull)
                   "identified")]];
    inversion H; subst; (eexists; split; [reflexivity|]);
    (split; [reflexivity|]); (split; [reflexivity|]);
    (split; [exact Hc|]);
    (split;
     [intros m v Hm Hq | intros m Hm Hq v];
     inversion Hm; subst; rewrite Hv in Hq; congruence).
Qed.

(** The waiting loop: a message that carries a verdict decides what
    the loop returns; the loop enters no match and leaves the
    credentials alone. *)
Lemma queue_loop_frame msgs :
  forall a r a' t,
    queue_loop msgs a = (r, a', t) ->
    Trace.count Trace.is_match_entry t = 0%nat /\
    credentials a' = credentials a /\
    (forall m v,
       In (WsRecv QueueChannel (RecvMsg m)) t ->
       Trace.queue_verdict m = Some v -> r = Return v).
Proof.
  induction msgs as [|s rest IH]; intros a r a' t H.
  - cbn in H. destruct (_running a); inversion H; subst;
      repeat split; auto; intros m v [].
  - destruct (_running a) eqn:Hrun.
    2:{ cbn in H. rewrite Hrun in H. inversion H; subst.
        repeat split; auto. intros m v []. }
    rewrite (queue_loop_cons s rest a Hrun) in H.
    destruct (queue_iteration s a) as [[ri ai] ti] eqn:Hi.
    destruct (queue_iteration_frame s a _ _ _ Hi)
      as (t' & -> & Hrecv & Hentry & Hc & Hsome & Hnone).
    assert (Hhead : forall m v tl,
              In (WsRecv QueueChannel (RecvMsg m))
                 ((signal_log s ++ WsRecv QueueChannel (received s) :: t')
                  ++ tl) ->
              Trace.queue_verdict m = Some v ->
              ri = Return (Some v) \/
              In (WsRecv QueueChannel (RecvMsg m)) tl).
    { intros m v tl Hin Hv. rewrite <- app_assoc in Hin.
      apply in_app_or in Hin as [Hin|Hin].
      { destruct (signal_log_logs s) as (l & Hl). rewrite Hl in Hin.
        apply in_map_iff in Hin. destruct Hin as (x & Hx & _).
        discriminate Hx. }
      cbn in Hin. destruct Hin as [Heq|Hin].
      - left. inversion Heq as [Hm]. exact (Hsome m v Hm Hv).
      - apply in_app_or in Hin as [Hin|Hin]; [|right; exact Hin].
        apply (count_zero_not_in _ _ _ Hrecv) in Hin. discriminate. }
    destruct ri as [[v0|] | e |].
    + inversion H; subst. split; [|split; [exact Hc|]].
      * rewrite app_nil_r. count_trace. exact Hentry.
      * intros m v Hin Hv.
        destruct (Hhead m v [] Hin Hv) as [Heq|[]]. congruence.
    + destruct (queue_loop rest ai) as [[r2 a2] t2] eqn:Hl.
      destruct (IH _ _ _ _ Hl) as (Hentry2 & Hc2 & Hv2).
      inversion H; subst. split; [|split; [congruence|]].
      * count_trace. rewrite Hentry, Hentry2. reflexivity.
      * intros m v Hin Hv.
        destruct (Hhead m v _ Hin Hv) as [Heq|Hin2];
          [discriminate | exact (Hv2 m v Hin2 Hv)].
    + inversion H; subst. split; [|split; [exact Hc|]].
      * count_trace. exact Hentry.
      * intros m v Hin Hv.
        rewrite <- (app_nil_r (signal_log s ++ _ :: t')) in Hin.
        destruct (Hhead m v [] Hin Hv) as [Heq|[]]. discriminate.
    + inversion H; subst. split; [|split; [exact Hc|]].
      * count_trace. exact Hentry.
      * intros m v Hin Hv.
        rewrite <- (app_nil_r (signal_log s ++ _ :: t')) in Hin.
        destruct (Hhead m v [] Hin Hv) as [Heq|[]]. discriminate.
Qed.

(** [_wait_for_match] as a whole. *)
Lemma wait_for_match_frame conn a r a' t :
  _wait_for_match conn a = (r, a', t) ->
  Trace.count Trace.is_match_entry t = 0%nat /\
  credentials a' = credentials a /\
  (forall m v,
     In (WsRecv QueueChannel (RecvMsg m)) t ->
     Trace.queue_verdict m = Some v ->
     r = Return v /\ credentials a <> None).
Proof.
  unfold _wait_for_match, with_connection. unfold_M. intros H.
  run_all;
    repeat match goal with
    | E : queue_loop _ _ = _ |- _ =>
        apply queue_loop_frame in E; destruct E as (? & ? & ?)
    end;
    unfold log; count_trace; cbn [credentials] in *;
    (split; [try reflexivity; try lia|]);
    (split; [try reflexivity; try congruence|]);
    intros m v Hin Hv; cbn in Hin;
    repeat match goal with
    | H : _ \/ _ |- _ => destruct H
    | H : In _ (_ ++ _) |- _ => apply in_app_or in H
    | H : In _ (_ :: _) |- _ => cbn in H
    | H : In _ [] |- _ => destruct H
    | H : False |- _ => destruct H
    | H : _ = WsRecv _ _ |- _ => discriminate H
    end;
    try match goal with
    | Hf : forall m v, In _ ?t -> _ -> _ = Return v, Hi : In _ ?t |- _ =>
        pose proof (Hf _ _ Hi Hv)
    end;
    try (split; congruence).
Qed.

Lemma join_queue_frame resp a r a' t :
  _join_queue resp a = (r, a', t) ->
  a' = a /\
  Trace.count Trace.is_match_entry t = 0%nat.
Proof.
  unfold _join_queue. unfold_M. intros H.
  run_all; unfold log; count_trace; split; reflexivity.
Qed.

(** With credentials at hand, whatever the lifecycle loop does starts
    with the queue-join request; and it does send that request when it
    is running and a further pass is observed. *)
Lemma main_loop_starts_with_join envs a r a' t :
  credentials a <> None ->
  _main_loop_step3 envs a = (r, a', t) ->
  Trace.starts_with_join t = true /\
  (_running a = true -> envs <> [] ->
   exists mo fa key t'', t = HttpJoinQueue mo fa key :: t'').
Proof.
  intros Hc H. destruct envs as [|env rest]; cbn [_main_loop_step3] in H.
  - destruct (_running a); inversion H; split; auto; congruence.
  - destruct (_running a); [|inversion H; split; auto; congruence].
    destruct (credentials a) as [c|] eqn:Hcred; [|congruence].
    unfold cycle, _join_queue in H. unfold_M. rewrite Hcred in H.
    run_all; (split; [reflexivity|]); intros _ _; cbn; eauto.
Qed.

(** A pass of the lifecycle loop in which the wait hands back a falsy
    payload goes straight to the next pass. *)
Lemma main_loop_requeue env rest a aj tj aw tw v :
  _running a = true ->
  _join_queue (join_response env) a = (Return tt, aj, tj) ->
  _wait_for_match (queue_socket env) aj = (Return v, aw, tw) ->
  Py.truthy v = false ->
  _main_loop_step3 (env :: rest) a =
  let '(r', a', t') := _main_loop_step3 rest aw in
  (r', a', tj ++ tw ++ t').
Proof.
  intros Hrun Hj Hw Hv. cbn [_main_loop_step3]. rewrite Hrun.
  unfold cycle. unfold_M. rewrite Hj, Hw, Hv. cbn.
  destruct (_main_loop_step3 rest aw) as [[r' a'] t'].
  rewrite !app_nil_r, <- app_assoc. reflexivity.
Qed.


(** When the wait receives a message whose verdict is a falsy payload,
    it returns that payload, and the lifecycle loop, having entered no
    match, goes on to its next pass, which starts with a queue-join. *)
Lemma falsy_verdict_requeues env rest a aj tj r aw tw m v :
  _running a = true ->
  _join_queue (join_response env) a = (Return tt, aj, tj) ->
  _wait_for_match (queue_socket env) aj = (r, aw, tw) ->
  In (WsRecv QueueChannel (RecvMsg m)) tw ->
  Trace.queue_verdict m = Some v ->
  Py.truthy v = false ->
  r = Return v /\
  Trace.count Trace.is_match_entry (tj ++ tw) = 0%nat /\
  exists r' a' t',
    _main_loop_step3 rest aw = (r', a', t') /\
    _main_loop_step3 (env :: rest) a = (r', a', tj ++ tw ++ t') /\
    Trace.starts_with_join t' = true /\
    (_running aw = true -> rest <> [] ->
     exists mo fa key t'', t' = HttpJoinQueue mo fa key :: t'').
Proof.
  intros Hrun Hj Hw Hin Hv Hfalsy.
  destruct (join_queue_frame _ _ _ _ _ Hj) as (-> & Hej).
  destruct (wait_for_match_frame _ _ _ _ _ Hw) as (Hew & Hc & Hverdict).
  destruct (Hverdict m v Hin Hv) as (-> & Hcred).
  split; [reflexivity|]. split.
  - rewrite count_app, Hej, Hew. reflexivity.
  - destruct (_main_loop_step3 rest aw) as [[r' a'] t'] eqn:Hl.
    exists r', a', t'. split; [reflexivity|]. split.
    + rewrite (main_loop_requeue env rest a a tj aw tw v Hrun Hj Hw Hfalsy).
      rewrite Hl. reflexivity.
    + apply (main_loop_starts_with_join rest aw r' a' t'); [|exact Hl].
      congruence.
Qed.

End QueueSession.

(** C4.  Whenever the queue channel delivers a [queue_timeout] event,
    [_wait_for_match] returns no match payload ([None]), and the
    lifecycle loop, without entering a match session, goes on to its
    next pass: whatever it does next starts with a fresh queue-join. *)
Theorem queue_timeout_requeues :
  forall (bot : Bot) (env : cycle_env) (rest : list cycle_env)
         (a aj aw : Agent) (tj tw : trace) (r : outcome json) (m : json),
    _running a = true ->
    _join_queue (join_response env) a = (Return tt, aj, tj) ->
    _wait_for_match (queue_socket env) aj = (r, aw, tw) ->
    In (WsRecv QueueChannel (RecvMsg m)) tw ->
    Trace.event_is m "queue_timeout" = true ->
    r = Return JNull /\
    Trace.count Trace.is_match_entry (tj ++ tw) = 0%nat /\
    exists r' a' t',
      _main_loop_step3 rest aw = (r', a', t') /\
      _main_loop_step3 (env :: rest) a = (r', a', tj ++ tw ++ t') /\
      Trace.starts_with_join t' = true /\
      (_running aw = true -> rest <> [] ->
       exists mo fa key t'', t' = HttpJoinQueue mo fa key :: t'').
Proof.
  intros bot env rest a aj aw tj tw r m Hrun Hj Hw Hin Hev.
  apply (falsy_verdict_requeues env rest a aj tj r aw tw m JNull
           Hrun Hj Hw Hin); [|reflexivity].
  destruct m as [| | | | | |kvs]; try discriminate Hev.
  rewrite queue_verdict_eq.
  unfold Trace.event_is, Payload.value_or in *.
  destruct (Py.lookup "event" kvs) as [[]|]; try discriminate Hev.
  cbn in Hev. apply String.eqb_eq in Hev. subst. reflexivity.
Qed.

Lemma queue_timeout_requeues_witness :
  exists r' a' t',
    _main_loop_step3 (bot := Scenario.idle_bot)
      [Scenario.timed_out_cycle; Scenario.paired_cycle] Scenario.agent0 =
    (r', a',
     [HttpJoinQueue "ranked_1v1" "random" "k1";
      log INFO "Joined {self.mode.value} queue" [LStr "ranked_1v1"]]
     ++ [log INFO "Waiting for match..." [];
         WsConnect QueueUri;
         WsSend QueueChannel (identify_msg Scenario.creds);
         WsRecv QueueChannel RecvTimeout;
         WsRecv QueueChannel (RecvMsg Scenario.queue_timeout_msg);
         log INFO "Queue timeout. Re-queuing..." [];
         WsClose QueueChannel]
     ++ t') /\
    exists mo fa key t'', t' = HttpJoinQueue mo fa key :: t''.
Proof.
  destruct (queue_timeout_requeues Scenario.idle_bot Scenario.timed_out_cycle
              [Scenario.paired_cycle] Scenario.agent0 Scenario.agent0
              Scenario.agent0 _ _ (Return JNull) Scenario.queue_timeout_msg
              eq_refl eq_refl eq_refl)
    as (_ & _ & r' & a' & t' & _ & Hloop & _ & Hjoin).
  - cbn. tauto.
  - reflexivity.
  - exists r', a', t'. split; [exact Hloop|].
    apply Hjoin; [reflexivity | discriminate].
Defined.

(** C9.  When a [match_found] event arrives whose ["data"] is absent or
    an empty mapping, [_wait_for_match] returns the empty mapping, and
    the lifecycle loop treats it as no match: without entering a match
    session it goes on to its next pass, which starts with a queue-join. *)
Theorem empty_match_found_requeues :
  forall (bot : Bot) (env : cycle_env) (rest : list cycle_env)
         (a aj aw : Agent) (tj tw : trace) (r : outcome json)
         (kvs : list (string * json)),
    _running a = true ->
    _join_queue (join_response env) a = (Return tt, aj, tj) ->
    _wait_for_match (queue_socket env) aj = (r, aw, tw) ->
    In (WsRecv QueueChannel (RecvMsg (JDict kvs))) tw ->
    Trace.event_is (JDict kvs) "match_found" = true ->
    Py.lookup "data" kvs = None \/ Py.lookup "data" kvs = Some (JDict []) ->
    r = Return (JDict []) /\
    Trace.count Trace.is_match_entry (tj ++ tw) = 0%nat /\
    exists r' a' t',
      _main_loop_step3 rest aw = (r', a', t') /\
      _main_loop_step3 (env :: rest) a = (r', a', tj ++ tw ++ t') /\
      Trace.starts_with_join t' = true /\
      (_running aw = true -> rest <> [] ->
       exists mo fa key t'', t' = HttpJoinQueue mo fa key :: t'').
Proof.
  intros bot env rest a aj aw tj tw r kvs Hrun Hj Hw Hin Hev Hdata.
  apply (falsy_verdict_requeues env rest a aj tj r aw tw (JDict kvs)
           (JDict []) Hrun Hj Hw Hin); [|reflexivity].
  unfold Trace.queue_verdict. rewrite Hev.
  destruct Hdata as [-> | ->]; reflexivity.
Qed.

Lemma empty_match_found_requeues_witness :
  exists r' a' t',
    _main_loop_step3 (bot := Scenario.idle_bot)
      [Scenario.bare_match_cycle; Scenario.paired_cycle] Scenario.agent0 =
    (r', a',
     [HttpJoinQueue "ranked_1v1" "random" "k1";
      log INFO "Joined {self.mode.value} queue" [LStr "ranked_1v1"]]
     ++ [log INFO "Waiting for match..." [];
         WsConnect QueueUri;
         WsSend QueueChannel (identify_msg Scenario.creds);
         WsRecv QueueChannel (RecvMsg Scenario.bare_match_found_msg);
         log INFO "Match found!" [];
         WsClose QueueChannel]
     ++ t') /\
    exists mo fa key t'', t' = HttpJoinQueue mo fa key :: t''.
Proof.
  destruct (empty_match_found_requeues Scenario.idle_bot
              Scenario.bare_match_cycle [Scenario.paired_cycle]
              Scenario.agent0 Scenario.agent0 Scenario.agent0 _ _
              (Return (JDict [])) [("event", JStr "match_found")]
              eq_refl eq_refl eq_refl)
    as (_ & _ & r' & a' & t' & _ & Hloop & _ & Hjoin).
  - cbn. tauto.
  - reflexivity.
  - left. reflexivity.
  - exists r', a', t'. split; [exact Hloop|].
    apply Hjoin; [reflexivity | discriminate].
Defined.

(* ================================================================== *)
(** * Further properties of the session code *)

Section Bookkeeping.

Context {bot : Bot}.
Import Bookkeeping.

Ltac open_kept :=
  unfold in_match, kept, same_identity, stays_stopped, accounted in *;
  repeat match goal with
  | H : _ /\ _ |- _ => destruct H
  end.

Ltac close_kept :=
  count_trace; cbn; rewrite ?count_nil in *; cbn [Z.of_nat] in *;
  cbn [name mode agent_faction auto_queue credentials wins losses
       matches_played _running set_ws set_game_state set_match_info
       set_match_result set_wins set_losses set_matches_played
       set_running] in *;
  repeat split; intros; try congruence; try lia; try solve [auto].

Lemma after_signal_kept s a : in_match a (after_signal s a) [].
Proof.
  unfold after_signal, in_match, kept, same_identity, stays_stopped, accounted.
  destruct (signalled s); cbn; repeat split; auto; lia.
Qed.

Lemma handle_match_message_kept ws msg a r a' t :
  _handle_match_message ws msg a = (r, a', t) -> in_match a a' t.
Proof.
  unfold _handle_match_message. unfold_M. intros H.
  run_all; unfold log; open_kept; close_kept.
Qed.

Lemma game_iteration_kept s a r a' t :
  game_iteration s a = (r, a', t) ->
  in_match a a' t /\ _running a' = _running (after_signal s a).
Proof.
  unfold game_iteration. unfold_M. intros H.
  pose proof (after_signal_kept s a) as Hs.
  run_all;
    repeat match goal with
    | E : _handle_match_message _ _ _ = _ |- _ =>
        let E' := fresh "K" in
        pose proof (handle_match_message_kept _ _ _ _ _ _ E) as E';
        apply handle_match_message_frame in E;
        destruct E as (_ & _ & _ & _ & _ & _ & ?)
    end;
    open_kept; close_kept.
Qed.

Lemma kept_refl a : in_match a a [].
Proof. open_kept. close_kept. Qed.

Lemma kept_trans a a1 a2 t1 t2 :
  in_match a a1 t1 -> in_match a1 a2 t2 -> in_match a a2 (t1 ++ t2).
Proof. intros H1 H2. open_kept. close_kept. Qed.

Lemma game_loop_kept msgs :
  forall a r a' t, game_loop msgs a = (r, a', t) -> in_match a a' t.
Proof.
  induction msgs as [|s rest IH]; intros a r a' t H.
  - cbn in H. destruct (_running a); inversion H; subst; apply kept_refl.
  - destruct (_running a) eqn:Hrun.
    2:{ cbn in H. rewrite Hrun in H. inversion H; subst. apply kept_refl. }
    rewrite (game_loop_cons s rest a Hrun) in H.
    destruct (game_iteration s a) as [[ri ai] ti] eqn:Hi.
    destruct (game_iteration_kept _ _ _ _ _ Hi) as (Hk & _).
    destruct ri as [[|] | e |]; try (inversion H; subst; exact Hk).
    + inversion H; subst. rewrite app_nil_r. exact Hk.
    + destruct (game_loop rest ai) as [[r2 a2] t2] eqn:Hl.
      inversion H; subst. exact (kept_trans _ _ _ _ _ Hk (IH _ _ _ _ Hl)).
Qed.

Lemma match_session_kept mid conn a r a' t :
  match_session mid conn a = (r, a', t) -> in_match a a' t.
Proof.
  unfold match_session, with_connection. unfold_M. intros H.
  run_all;
    repeat match goal with
    | E : game_loop _ _ = _ |- _ => apply game_loop_kept in E
    end;
    unfold match_error_log, log; open_kept;
    try match goal with |- context [match ?e with _ => _ end] =>
      destruct e end;
    close_kept.
Qed.

Lemma play_match_kept match_data conn a r a' t :
  _play_match match_data conn a = (r, a', t) ->
  kept a a' t /\ matches_played a' = matches_played a /\
  Trace.count Trace.is_match_entry t = 1%nat.
Proof.
  unfold _play_match. unfold_M. intros H.
  run_all;
    repeat match goal with
    | E : match_session _ _ _ = _ |- _ => apply match_session_kept in E
    end;
    open_kept; close_kept.
Qed.

Lemma queue_iteration_kept s a r a' t :
  queue_iteration s a = (r, a', t) -> in_match a a' t.
Proof.
  rewrite queue_iteration_eq. cbn zeta. intros H.
  pose proof (after_signal_kept s a) as Hs.
  run_all; unfold log; open_kept; close_kept.
Qed.

Lemma queue_loop_kept msgs :
  forall a r a' t, queue_loop msgs a = (r, a', t) -> in_match a a' t.
Proof.
  induction msgs as [|s rest IH]; intros a r a' t H.
  - cbn in H. destruct (_running a); inversion H; subst; apply kept_refl.
  - destruct (_running a) eqn:Hrun.
    2:{ cbn in H. rewrite Hrun in H. inversion H; subst. apply kept_refl. }
    rewrite (queue_loop_cons s rest a Hrun) in H.
    destruct (queue_iteration s a) as [[ri ai] ti] eqn:Hi.
    pose proof (queue_iteration_kept _ _ _ _ _ Hi) as Hk.
    destruct ri as [[v|] | e |]; try (inversion H; subst; exact Hk).
    + inversion H; subst. rewrite app_nil_r. exact Hk.
    + destruct (queue_loop rest ai) as [[r2 a2] t2] eqn:Hl.
      inversion H; subst. exact (kept_trans _ _ _ _ _ Hk (IH _ _ _ _ Hl)).
Qed.

Lemma wait_for_match_kept conn a r a' t :
  _wait_for_match conn a = (r, a', t) -> in_match a a' t.
Proof.
  unfold _wait_for_match, with_connection. unfold_M. intros H.
  run_all;
    repeat match goal with
    | E : queue_loop _ _ = _ |- _ => apply queue_loop_kept in E
    end;
    unfold log; open_kept; close_kept.
Qed.

Lemma cycle_kept env a r a' t :
  cycle env a = (r, a', t) -> kept a a' t.
Proof.
  unfold cycle. unfold_M. intros H.
  run_all;
    repeat match goal with
    | E : _join_queue _ _ = _ |- _ =>
        apply join_queue_frame in E; destruct E as (? & _); subst
    | E : _wait_for_match _ _ = _ |- _ => apply wait_for_match_kept in E
    | E : _play_match _ _ _ = _ |- _ => apply play_match_kept in E
    end;
    unfold log; open_kept; close_kept.
Qed.

(** The lifecycle loop: it never lets an exception out, and it keeps the
    books. *)
Lemma main_loop_kept envs :
  forall a r a' t,
    _main_loop_step3 envs a = (r, a', t) ->
    kept a a' t /\ forall e, r <> Raised e.
Proof.
  induction envs as [|env rest IH]; intros a r a' t H;
    cbn [_main_loop_step3] in H.
  - destruct (_running a); inversion H; subst;
      (split; [apply kept_refl | discriminate]).
  - destruct (_running a);
      [|inversion H; subst; split; [apply kept_refl | discriminate]].
    unfold_M.
    destruct (cycle env a) as [[rc ac] tc] eqn:Hc.
    pose proof (cycle_kept _ _ _ _ _ Hc) as Hk.
    run_all;
      repeat match goal with
      | E : _main_loop_step3 rest _ = _ |- _ =>
          apply IH in E; destruct E as (? & ?)
      end;
      (split; [|try discriminate; try assumption]);
      unfold log; open_kept; close_kept.
Qed.

End Bookkeeping.

(** X1.  The lifecycle loop keeps the books.  Whatever the environment does,
    [_main_loop_step3] lets no exception out; it leaves the name, mode,
    faction preference, auto-queue flag and credentials of the agent as
    they were; it never sets [_running] again once it is cleared; and
    the record only grows: [wins], [losses] and [matches_played] never
    decrease, no more results are counted than match-end hook calls were
    made, and no more games than [_play_match] was entered. *)
Theorem lifecycle_keeps_the_books :
  forall (bot : Bot) (envs : list cycle_env) (a : Agent),
    let '(r, a', t) := _main_loop_step3 envs a in
    (forall e, r <> Raised e) /\
    Bookkeeping.same_identity a a' /\
    Bookkeeping.stays_stopped a a' /\
    Bookkeeping.accounted a a' t.
Proof.
  intros bot envs a.
  destruct (_main_loop_step3 envs a) as [[r a'] t] eqn:H.
  destruct (main_loop_kept envs a r a' t H) as ((Hid & Hstop & Hacc) & Hr).
  auto.
Qed.

Section InPlay.

Context {bot : Bot}.

Lemma in_play_logs (l : list log_record) :
  forallb Protocol.in_play (map Log l) = true.
Proof. induction l; cbn; auto. Qed.

Lemma in_play_signal_log s :
  forallb Protocol.in_play (signal_log s) = true.
Proof. destruct (signal_log_logs s) as (l & ->). apply in_play_logs. Qed.

Ltac close_in_play :=
  unfold log;
  repeat (progress
            (rewrite ?forallb_app, ?in_play_logs, ?in_play_signal_log;
             cbn [forallb Protocol.in_play andb];
             repeat match goal with
             | H : forallb Protocol.in_play ?t = true
               |- context [forallb _ ?t] => rewrite H
             end));
  try reflexivity.

Lemma handle_match_message_in_play ws msg a r a' t :
  ws_channel ws = MatchChannel ->
  _handle_match_message ws msg a = (r, a', t) ->
  forallb Protocol.in_play t = true.
Proof.
  unfold _handle_match_message. unfold_M. intros Hws H.
  run_all; rewrite ?Hws; close_in_play.
Qed.

Lemma game_iteration_in_play s a r a' t :
  game_iteration s a = (r, a', t) -> forallb Protocol.in_play t = true.
Proof.
  unfold game_iteration. unfold_M. intros H.
  run_all;
    repeat match goal with
    | E : _handle_match_message _ _ _ = _ |- _ =>
        apply handle_match_message_in_play in E; [|reflexivity]
    end;
    close_in_play.
Qed.

(** The game loop does nothing but receive and send on the match
    channel, call the strategy and the hooks, and log. *)
Lemma game_loop_in_play msgs :
  forall a r a' t,
    game_loop msgs a = (r, a', t) -> forallb Protocol.in_play t = true.
Proof.
  induction msgs as [|s rest IH]; intros a r a' t H.
  - cbn in H. destruct (_running a); inversion H; reflexivity.
  - destruct (_running a) eqn:Hrun.
    2:{ cbn in H. rewrite Hrun in H. inversion H; reflexivity. }
    rewrite (game_loop_cons s rest a Hrun) in H.
    destruct (game_iteration s a) as [[ri ai] ti] eqn:Hi.
    apply game_iteration_in_play in Hi.
    destruct ri as [[|] | e |]; try (inversion H; subst; exact Hi).
    + inversion H; subst. rewrite app_nil_r. exact Hi.
    + destruct (game_loop rest ai) as [[r2 a2] t2] eqn:Hl.
      apply IH in Hl. inversion H; subst.
      rewrite forallb_app, Hi, Hl. reflexivity.
Qed.

Lemma count_in_play p (t : trace) :
  (forall ev, Protocol.in_play ev = true -> p ev = false) ->
  forallb Protocol.in_play t = true ->
  Trace.count p t = 0%nat.
Proof.
  intros Hp. induction t as [|ev t IH]; [reflexivity|].
  intros H. cbn [forallb] in H. apply andb_prop in H as [Hev Ht].
  rewrite count_cons, (Hp ev Hev), (IH Ht). reflexivity.
Qed.

End InPlay.

(** X2.  A match session swallows every exception and always cleans up:
    [match_session] (the [try] statement of [_play_match]) either returns
    or is still waiting for a message, never raises; when it returns,
    [_ws] is [None] again, and a socket that was opened has been closed,
    once.  During the session no game is counted. *)
Theorem match_session_always_cleans_up :
  forall (bot : Bot) (mid : json) (conn : connect_outcome) (a : Agent),
    let '(r, a', t) := match_session mid conn a in
    (r = Return tt \/ r = Blocked) /\
    (r = Return tt ->
     _ws a' = None /\
     forall s, conn = Connected s ->
               Trace.count Protocol.is_close t = 1%nat) /\
    Trace.count Protocol.is_connect t = 1%nat /\
    matches_played a' = matches_played a.
Proof.
  intros bot mid conn a.
  destruct (match_session mid conn a) as [[r a'] t] eqn:H.
  assert (Hnone : forall p (t0 : trace),
            (forall ev, Protocol.in_play ev = true -> p ev = false) ->
            forallb Protocol.in_play t0 = true -> Trace.count p t0 = 0%nat)
    by (intros; apply count_in_play; assumption).
  assert (Hclose : forall ev, Protocol.in_play ev = true ->
                              Protocol.is_close ev = false)
    by (intros [] Hev; try reflexivity; discriminate Hev).
  assert (Hconn : forall ev, Protocol.in_play ev = true ->
                             Protocol.is_connect ev = false)
    by (intros [] Hev; try reflexivity; discriminate Hev).
  split; [|split; [|split]].
  - destruct (match_session_frame _ _ _ _ _ _ H) as (Hr & _).
    destruct r as [[]| e |]; auto. destruct (Hr e eq_refl).
  - intros ->. revert H. unfold match_session, with_connection. unfold_M.
    intros H.
    run_all; (split; [reflexivity|]); intros s0 Hs0; try discriminate;
      repeat match goal with
      | E : game_loop _ _ = _ |- _ =>
          apply game_loop_in_play in E;
          apply (Hnone _ _ Hclose) in E
      end.
    all: unfold match_error_log, log.
    all: try match goal with |- context [match ?e with _ => _ end] =>
           destruct e end.
    all: repeat rewrite ?count_app, ?count_cons, ?count_nil;
         cbn [Protocol.is_close Protocol.is_connect];
         repeat match goal with
         | E : Trace.count _ _ = 0%nat |- _ => rewrite E
         end; reflexivity.
  - revert H. unfold match_session, with_connection. unfold_M. intros H.
    run_all;
      repeat match goal with
      | E : game_loop _ _ = _ |- _ =>
          apply game_loop_in_play in E;
          apply (Hnone _ _ Hconn) in E
      end.
    all: unfold match_error_log, log.
    all: try match goal with |- context [match ?e with _ => _ end] =>
           destruct e end.
    all: repeat rewrite ?count_app, ?count_cons, ?count_nil;
         cbn [Protocol.is_close Protocol.is_connect];
         repeat match goal with
         | E : Trace.count _ _ = 0%nat |- _ => rewrite E
         end; reflexivity.
  - apply match_session_kept in H. apply H.
Qed.

Section Handler.

Context {bot : Bot}.

Lemma get_type_of msg ty :
  Py.get msg "type" (JStr "") = Ok ty -> Protocol.type_of msg = Some ty.
Proof.
  destruct msg; cbn; try discriminate. intros H. inversion H. reflexivity.
Qed.


End Handler.



(** X4.  Cooperative cancellation.  When the stop signal arrives while
    the game loop is suspended in a receive, [_shutdown] logs
    "Shutting down..." at INFO and clears [_running]; the receive still
    completes and its message is handled as usual; then the loop ends,
    without a further receive, whatever else the server would have
    sent. *)
Theorem stop_signal_ends_game_loop :
  forall (bot : Bot) (s : recv_step) (rest : list recv_step) (a : Agent),
    _running a = true ->
    signalled s = true ->
    let '(r, a', t) := game_iteration s a in
    _running a' = false /\
    (exists t',
       t = Log {| level := INFO; message := "Shutting down...";
                  args := [] |}
             :: WsRecv MatchChannel (received s) :: t' /\
       Trace.count Trace.is_recv t' = 0%nat) /\
    game_loop (s :: rest) a =
    (match r with
     | Return _ => Return tt
     | Raised e => Raised e
     | Blocked => Blocked
     end, a', t).
Proof.
  intros bot s rest a Hrun Hsig.
  rewrite (game_loop_cons s rest a Hrun).
  destruct (game_iteration s a) as [[r a'] t] eqn:Hi.
  destruct (game_iteration_kept _ _ _ _ _ Hi) as (_ & Hrun').
  unfold after_signal in Hrun'. rewrite Hsig in Hrun'. cbn in Hrun'.
  split; [exact Hrun'|]. split.
  { destruct (game_iteration_frame _ _ _ _ _ Hi) as (t' & Ht & Hrecv & _).
    unfold signal_log in Ht. rewrite Hsig in Ht.
    exists t'. split; [exact Ht | exact Hrecv]. }
  destruct r as [[|] | e |]; try reflexivity.
  - rewrite app_nil_r. reflexivity.
  - destruct rest; cbn [game_loop]; rewrite Hrun', app_nil_r; reflexivity.
Qed.

Lemma stop_signal_ends_game_loop_witness :
  game_loop (bot := Scenario.eager_bot)
    [Cases.delivers_and_stops Scenario.state_update_msg;
     Scenario.delivers Scenario.state_update_msg] Scenario.agent0 =
  (Return tt,
   set_game_state (Some Scenario.parsed_state)
     (set_running false Scenario.agent0),
   [Log {| level := INFO; message := "Shutting down..."; args := [] |};
    WsRecv MatchChannel (RecvMsg Scenario.state_update_msg);
    CallOnGameState Scenario.parsed_state;
    WsSend MatchChannel
      (JDict [("type", JStr "orders"); ("agent_id", JStr "a1");
              ("orders", JList [Scenario.one_order])])]).
Proof.
  exact (proj2 (proj2 (stop_signal_ends_game_loop Scenario.eager_bot
                  (Cases.delivers_and_stops Scenario.state_update_msg)
                  [Scenario.delivers Scenario.state_update_msg]
                  Scenario.agent0 eq_refl eq_refl))).
Defined.

(** X5.  Only state messages reach the strategy.  Handling a message whose
    type is neither [state_update] nor [state_response] (any other type,
    no type at all, or a message that is not a mapping) never calls
    [on_game_state], never sends anything and leaves [game_state] as it
    was. *)
Theorem only_state_messages_reach_strategy :
  forall (bot : Bot) (ws : WebSocket) (msg : json) (a : Agent),
    Protocol.has_type msg Protocol.state_types = false ->
    let '(_, a', t) := _handle_match_message ws msg a in
    Trace.count Trace.is_strategy_call t = 0%nat /\
    Trace.count Trace.is_send t = 0%nat /\
    game_state a' = game_state a.
Proof.
  intros bot ws msg a Hty.
  destruct (_handle_match_message ws msg a) as [[r a'] t] eqn:H.
  revert H. unfold _handle_match_message. unfold_M. intros H.
  unfold Protocol.has_type in Hty.
  run_all;
    try match goal with
    | E : Py.get msg "type" (JStr "") = Ok _ |- _ =>
        let E' := fresh in
        pose proof (get_type_of _ _ E) as E'; rewrite E' in Hty;
        cbn in Hty; rewrite orb_false_r in Hty
    end;
    try congruence;
    unfold log; count_trace; cbn; auto.
Qed.

Lemma only_state_messages_reach_strategy_witness :
  _handle_match_message (bot := Scenario.eager_bot)
    (match_ws (Scenario.delivers Cases.chat_msg)) Cases.chat_msg
    Scenario.agent0 =
  (Return tt, Scenario.agent0,
   [CallOnChat (JStr "?") (JStr "gl hf");
    Log {| level := DEBUG; message := "Chat from {sender}: {message}";
           args := [LJson (JStr "?"); LJson (JStr "gl hf")] |}]) /\
  Trace.count Trace.is_send
    [CallOnChat (JStr "?") (JStr "gl hf");
     Log {| level := DEBUG; message := "Chat from {sender}: {message}";
            args := [LJson (JStr "?"); LJson (JStr "gl hf")] |}] = 0%nat.
Proof.
  pose proof (only_state_messages_reach_strategy Scenario.eager_bot
                (match_ws (Scenario.delivers Cases.chat_msg)) Cases.chat_msg
                Scenario.agent0 eq_refl) as H.
  cbn in H. destruct H as (_ & Hsend & _).
  split; [reflexivity | exact Hsend].
Defined.

(** X6.  Only [game_end] touches the record.  Handling a message of any other
    type (or none, or a message that is not a mapping) leaves [wins],
    [losses] and [match_result] as they were and does not call the
    match-end hook. *)
Theorem only_game_end_touches_record :
  forall (bot : Bot) (ws : WebSocket) (msg : json) (a : Agent),
    Protocol.has_type msg ["game_end"] = false ->
    let '(_, a', t) := _handle_match_message ws msg a in
    wins a' = wins a /\ losses a' = losses a /\
    match_result a' = match_result a /\
    Trace.count Trace.is_match_end_call t = 0%nat.
Proof.
  intros bot ws msg a Hty.
  destruct (_handle_match_message ws msg a) as [[r a'] t] eqn:H.
  revert H. unfold _handle_match_message. unfold_M. intros H.
  unfold Protocol.has_type in Hty.
  run_all;
    try match goal with
    | E : Py.get msg "type" (JStr "") = Ok _ |- _ =>
        let E' := fresh in
        pose proof (get_type_of _ _ E) as E'; rewrite E' in Hty;
        cbn in Hty; rewrite orb_false_r in Hty
    end;
    try congruence;
    unfold log; count_trace; cbn; auto.
Qed.

Lemma only_game_end_touches_record_witness :
  let '(_, a', _) :=
    _handle_match_message (bot := Scenario.eager_bot)
      (match_ws (Scenario.delivers Scenario.state_update_msg))
      Scenario.state_update_msg Scenario.agent0 in
  wins a' = 0 /\ losses a' = 0 /\ match_result a' = None.
Proof.
  pose proof (only_game_end_touches_record Scenario.eager_bot
                (match_ws (Scenario.delivers Scenario.state_update_msg))
                Scenario.state_update_msg Scenario.agent0 eq_refl) as H.
  cbn in H. cbn. destruct H as (Hw & Hl & Hm & _). auto.
Defined.

(** X7.  How a match result is scored.  A [game_end] message is kept whole as
    [match_result]; [wins] grows by one exactly when its ["result"] is
    "victory", [losses] by one exactly when it is "defeat"; any other
    result, a missing one included, changes neither counter.  The
    match-end hook is called once, nothing is sent and the snapshot is
    kept. *)
Theorem game_end_is_scored_once :
  forall (bot : Bot) (ws : WebSocket) (kvs : list (string * json))
         (a : Agent) (c : AgentCredentials),
    credentials a = Some c ->
    Py.lookup "type" kvs = Some (JStr "game_end") ->
    let result := Payload.value_or kvs "result" (JStr "unknown") in
    let '(_, a', t) := _handle_match_message ws (JDict kvs) a in
    match_result a' = Some (JDict kvs) /\
    wins a' = wins a + (if Py.eq_str result "victory" then 1 else 0) /\
    losses a' = losses a + (if Py.eq_str result "defeat" then 1 else 0) /\
    wins a' + losses a' <= wins a + losses a + 1 /\
    game_state a' = game_state a /\
    Trace.count Trace.is_match_end_call t = 1%nat /\
    Trace.count Trace.is_send t = 0%nat.
Proof.
  intros bot ws kvs a c Hc Hty result.
  unfold _handle_match_message. unfold_M. rewrite Hc.
  cbn [Py.get]. rewrite Hty. cbn beta iota zeta.
  change (Py.eq_str (JStr "game_end") "state_update"
          || Py.eq_str (JStr "game_end") "state_response") with false.
  change (Py.eq_str (JStr "game_end") "game_end") with true.
  cbn beta iota zeta. fold (Payload.value_or kvs "result" (JStr "unknown")).
  fold result.
  assert (Hex : Py.eq_str result "victory" = true ->
                Py.eq_str result "defeat" = false).
  { destruct result; cbn; try discriminate.
    intros Hv. apply String.eqb_eq in Hv. subst. reflexivity. }
  destruct (Py.eq_str result "victory") eqn:Hv;
    [rewrite (Hex eq_refl) | destruct (Py.eq_str result "defeat")];
    cbn beta iota zeta; destruct (snd (on_match_end (JDict kvs)));
    cbn beta iota zeta; cbn [fst snd app];
    count_trace;
    cbn [wins losses match_result game_state set_wins set_losses
         set_match_result];
    repeat split; try lia.
Qed.

Lemma game_end_is_scored_once_witness :
  let '(_, a', _) :=
    _handle_match_message (bot := Scenario.idle_bot)
      (match_ws (Scenario.delivers Cases.defeat_msg)) Cases.defeat_msg
      Scenario.agent0 in
  match_result a' = Some Cases.defeat_msg /\ wins a' = 0 /\ losses a' = 1.
Proof.
  pose proof (game_end_is_scored_once Scenario.idle_bot
                (match_ws (Scenario.delivers Cases.defeat_msg))
                [("type", JStr "game_end"); ("result", JStr "defeat")]
                Scenario.agent0 Scenario.creds eq_refl eq_refl) as H.
  cbn in H. cbn. destruct H as (Hm & Hw & Hl & _). auto.
Defined.

(** X8.  Forward compatibility.  A mapping whose type is none of the seven
    the handler knows (a missing or non-string type included) is ignored
    without a trace: nothing is logged, called or sent, the agent is
    unchanged, and the game loop goes on to its next receive. *)
Theorem unknown_message_is_ignored :
  forall (bot : Bot) (s : recv_step) (rest : list recv_step) (a : Agent)
         (c : AgentCredentials) (kvs : list (string * json)),
    _running a = true ->
    credentials a = Some c ->
    received s = RecvMsg (JDict kvs) ->
    Protocol.has_type (JDict kvs) Protocol.known_types = false ->
    _handle_match_message (match_ws s) (JDict kvs) a = (Return tt, a, []) /\
    game_loop (s :: rest) a =
    let '(r, a', t) := game_loop rest (after_signal s a) in
    (r, a', signal_log s ++ WsRecv MatchChannel (RecvMsg (JDict kvs)) :: t).
Proof.
  intros bot s rest a c kvs Hrun Hc Hr Hty.
  unfold Protocol.has_type, Protocol.type_of, Protocol.known_types in Hty.
  cbn [existsb] in Hty.
  repeat (apply orb_false_elim in Hty; destruct Hty as [? Hty]).
  assert (Hh : forall a0, credentials a0 = Some c ->
             _handle_match_message (match_ws s) (JDict kvs) a0
             = (Return tt, a0, [])).
  { intros a0 Hc0. unfold _handle_match_message. unfold_M. rewrite Hc0.
    cbn [Py.get].
    repeat match goal with
    | H : Py.eq_str _ _ = false |- _ => rewrite H; clear H
    end. reflexivity. }
  split; [exact (Hh a Hc)|].
  destruct (after_signal_frame s a) as (Hc1 & _).
  rewrite (game_loop_cons s rest a Hrun).
  rewrite (game_iteration_delivered s a _ _ _ _ Hr (Hh _ (eq_trans Hc1 Hc)))
    by discriminate.
  unfold Payload.value_or.
  destruct (Py.lookup "type" kvs) as [ty|] eqn:Hl.
  - match goal with H : Py.eq_str ty "game_end" = false |- _ => rewrite H end.
    destruct (game_loop rest (after_signal s a)) as [[r a'] t].
    rewrite <- app_assoc. reflexivity.
  - cbn. destruct (game_loop rest (after_signal s a)) as [[r a'] t].
    rewrite <- app_assoc. reflexivity.
Qed.

Lemma unknown_message_is_ignored_witness :
  game_loop (bot := Scenario.eager_bot)
    [Scenario.delivers Cases.ping_msg] Scenario.agent0 =
  (Blocked, Scenario.agent0, [WsRecv MatchChannel (RecvMsg Cases.ping_msg)]).
Proof.
  exact (proj2 (unknown_message_is_ignored Scenario.eager_bot
                  (Scenario.delivers Cases.ping_msg) [] Scenario.agent0
                  Scenario.creds _ eq_refl eq_refl eq_refl eq_refl)).
Defined.

Section Lifecycle.

Context {bot : Bot}.

Lemma join_queue_ok resp a c :
  credentials a = Some c ->
  Protocol.join_error resp = None ->
  exists note,
    _join_queue resp a =
    (Return tt, a,
     [HttpJoinQueue (GameMode_value (mode a))
        (Faction_value (agent_faction a)) (api_key c);
      Log note]).
Proof.
  intros Hc He. unfold _join_queue. unfold_M. rewrite Hc.
  destruct resp as [status text|e]; cbn in He; [|discriminate].
  cbn beta iota zeta.
  destruct (status =? 409); [eexists; reflexivity|].
  destruct (status =? 200); [eexists; reflexivity | discriminate].
Qed.

Lemma join_queue_fails resp a c e :
  credentials a = Some c ->
  Protocol.join_error resp = Some e ->
  _join_queue resp a =
  (Raised e, a,
   [HttpJoinQueue (GameMode_value (mode a))
      (Faction_value (agent_faction a)) (api_key c)]).
Proof.
  intros Hc He. unfold _join_queue. unfold_M. rewrite Hc.
  destruct resp as [status text|e0]; cbn in He.
  - cbn beta iota zeta.
    destruct (status =? 409); [discriminate|].
    destruct (status =? 200); [discriminate|].
    inversion He. reflexivity.
  - inversion He. reflexivity.
Qed.

Lemma main_loop_cons env rest a :
  _running a = true ->
  _main_loop_step3 (env :: rest) a =
  match cycle env a with
  | (Return NextIteration, a1, t1) =>
      let '(r, a2, t2) := _main_loop_step3 rest a1 in (r, a2, t1 ++ t2)
  | (Return BreakLoop, a1, t1) => (Return tt, a1, t1 ++ [])
  | (Raised e, a1, t1) =>
      let '(r, a2, t2) := _main_loop_step3 rest a1 in
      (r, a2,
       (t1 ++ [log ERROR "Error in main loop: {e}" [LExn e]; Sleep 5]) ++ t2)
  | (Blocked, a1, t1) => (Blocked, a1, t1)
  end.
Proof.
  intros Hrun. cbn [_main_loop_step3]. rewrite Hrun. unfold_M.
  destruct (cycle env a) as [[[[]| e |] a1] t1]; reflexivity.
Qed.

End Lifecycle.

(** X9.  "Already queued" is success.  On the answer 409 [_join_queue]
    returns just as on 200, the agent untouched, after the one request
    carrying the mode, the faction preference and the bearer key; so a
    pass of the lifecycle loop runs the same on either answer: same
    result, same agent, same trace up to what is logged. *)
Theorem join_conflict_is_success :
  forall (bot : Bot) (env409 env200 : cycle_env) (a : Agent)
         (c : AgentCredentials) (text text' : string),
    credentials a = Some c ->
    join_response env409 = JoinStatus 409 text ->
    join_response env200 = JoinStatus 200 text' ->
    queue_socket env409 = queue_socket env200 ->
    match_socket env409 = match_socket env200 ->
    let request := HttpJoinQueue (GameMode_value (mode a))
                     (Faction_value (agent_faction a)) (api_key c) in
    (exists note, _join_queue (JoinStatus 409 text) a
                  = (Return tt, a, [request; Log note])) /\
    (exists note, _join_queue (JoinStatus 200 text') a
                  = (Return tt, a, [request; Log note])) /\
    let '(r1, a1, t1) := cycle env409 a in
    let '(r2, a2, t2) := cycle env200 a in
    r1 = r2 /\ a1 = a2 /\
    Protocol.on_the_wire t1 = Protocol.on_the_wire t2.
Proof.
  intros bot env409 env200 a c text text' Hc H409 H200 Hq Hm request.
  destruct (join_queue_ok (JoinStatus 409 text) a c Hc eq_refl) as (n1 & E1).
  destruct (join_queue_ok (JoinStatus 200 text') a c Hc eq_refl) as (n2 & E2).
  split; [eauto|]. split; [eauto|].
  unfold cycle. unfold_M. rewrite H409, H200, E1, E2, Hq, Hm.
  repeat (cbn beta iota zeta;
          match goal with
          | |- context [match ?x with _ => _ end] => split_on x
          end);
    cbn beta iota zeta; repeat split; reflexivity.
Qed.

Lemma join_conflict_is_success_witness :
  fst (fst (cycle (bot := Scenario.idle_bot) Scenario.paired_cycle
              Scenario.agent0)) =
  fst (fst (cycle (bot := Scenario.idle_bot) Cases.joined_cycle
              Scenario.agent0)) /\
  snd (fst (cycle (bot := Scenario.idle_bot) Scenario.paired_cycle
              Scenario.agent0)) =
  snd (fst (cycle (bot := Scenario.idle_bot) Cases.joined_cycle
              Scenario.agent0)).
Proof.
  pose proof (join_conflict_is_success Scenario.idle_bot
                Scenario.paired_cycle Cases.joined_cycle Scenario.agent0
                Scenario.creds _ _ eq_refl eq_refl eq_refl eq_refl eq_refl)
    as (_ & _ & H).
  destruct (cycle (bot := Scenario.idle_bot) Scenario.paired_cycle
              Scenario.agent0) as [[r1 a1] t1].
  destruct (cycle (bot := Scenario.idle_bot) Cases.joined_cycle
              Scenario.agent0) as [[r2 a2] t2].
  destruct H as (Hr & Ha & _). split; assumption.
Defined.

(** X10.  A refused queue-join backs off.  When [_join_queue] fails (any
    status other than 200 and 409, or a transport error), the pass opens
    no socket and enters no match: after the request the lifecycle loop
    logs the error, sleeps 5 seconds and goes on to its next pass, the
    agent unchanged. *)
Theorem join_failure_backs_off :
  forall (bot : Bot) (env : cycle_env) (rest : list cycle_env) (a : Agent)
         (c : AgentCredentials) (e : exn),
    _running a = true ->
    credentials a = Some c ->
    Protocol.join_error (join_response env) = Some e ->
    _main_loop_step3 (env :: rest) a =
    let '(r, a', t) := _main_loop_step3 rest a in
    (r, a',
     [HttpJoinQueue (GameMode_value (mode a))
        (Faction_value (agent_faction a)) (api_key c);
      log ERROR "Error in main loop: {e}" [LExn e];
      Sleep 5] ++ t).
Proof.
  intros bot env rest a c e Hrun Hc He.
  rewrite (main_loop_cons env rest a Hrun).
  unfold cycle, bind. rewrite (join_queue_fails _ a c e Hc He).
  destruct (_main_loop_step3 rest a) as [[r a'] t]. reflexivity.
Qed.

Lemma join_failure_backs_off_witness :
  _main_loop_step3 (bot := Scenario.idle_bot) [Cases.refused_join_cycle]
    Scenario.agent0 =
  (Blocked, Scenario.agent0,
   [HttpJoinQueue "ranked_1v1" "random" "k1";
    log ERROR "Error in main loop: {e}"
      [LExn (RuntimeError "Queue join failed: {resp.status} {text}")];
    Sleep 5]).
Proof.
  exact (join_failure_backs_off Scenario.idle_bot Cases.refused_join_cycle []
           Scenario.agent0 Scenario.creds _ eq_refl eq_refl eq_refl).
Defined.

Section QueueWait.

Context {bot : Bot}.

Lemma queue_iteration_in_wait s a r a' t :
  queue_iteration s a = (r, a', t) -> forallb Protocol.in_wait t = true.
Proof.
  rewrite queue_iteration_eq. cbn zeta. unfold signal_log. intros H.
  destruct (signalled s); run_all; reflexivity.
Qed.

(** The queue loop only receives on the queue channel and logs. *)
Lemma queue_loop_in_wait msgs :
  forall a r a' t,
    queue_loop msgs a = (r, a', t) -> forallb Protocol.in_wait t = true.
Proof.
  induction msgs as [|s rest IH]; intros a r a' t H.
  - cbn in H. destruct (_running a); inversion H; reflexivity.
  - destruct (_running a) eqn:Hrun.
    2:{ cbn in H. rewrite Hrun in H. inversion H; reflexivity. }
    rewrite (queue_loop_cons s rest a Hrun) in H.
    destruct (queue_iteration s a) as [[ri ai] ti] eqn:Hi.
    apply queue_iteration_in_wait in Hi.
    destruct ri as [[v|] | e |]; try (inversion H; subst; exact Hi).
    + inversion H; subst. rewrite app_nil_r. exact Hi.
    + destruct (queue_loop rest ai) as [[r2 a2] t2] eqn:Hl.
      apply IH in Hl. inversion H; subst.
      rewrite forallb_app, Hi, Hl. reflexivity.
Qed.

Lemma filter_in_wait p (t : trace) :
  (forall ev, Protocol.in_wait ev = true -> p ev = false) ->
  forallb Protocol.in_wait t = true ->
  filter p t = [].
Proof.
  intros Hp. induction t as [|ev t IH]; [reflexivity|].
  intros H. cbn [forallb] in H. apply andb_prop in H as [Hev Ht].
  cbn [filter]. rewrite (Hp ev Hev). exact (IH Ht).
Qed.

End QueueWait.

Section QueueErrors.

Lemma in_wait_no_error (t : trace) m args :
  forallb Protocol.in_wait t = true -> ~ In (log ERROR m args) t.
Proof.
  induction t as [|ev t IH]; intros H Hin; [destruct Hin|].
  cbn [forallb] in H. apply andb_prop in H as [Hev Ht].
  destruct Hin as [->|Hin]; [discriminate Hev | exact (IH Ht Hin)].
Qed.

Lemma ends_base (x y : event) : exists t0, [x; y] = t0 ++ [x; y].
Proof. exists []. reflexivity. Qed.

Lemma ends_cons (ev : event) l x y :
  (exists t0, l = t0 ++ [x; y]) -> exists t0, ev :: l = t0 ++ [x; y].
Proof. intros (t0 & ->). exists (ev :: t0). reflexivity. Qed.

Lemma ends_app (l1 l2 : trace) x y :
  (exists t0, l2 = t0 ++ [x; y]) -> exists t0, l1 ++ l2 = t0 ++ [x; y].
Proof. intros (t0 & ->). exists (l1 ++ t0). apply app_assoc. Qed.

(** A waiting loop left suspended after the receives [pre] is still
    running; given more receives it goes on from there. *)
Lemma queue_loop_app pre :
  forall more a ab tpre,
    queue_loop pre a = (Blocked, ab, tpre) ->
    _running ab = true /\
    queue_loop (pre ++ more) a =
    let '(r, a', t) := queue_loop more ab in (r, a', tpre ++ t).
Proof.
  induction pre as [|s pre IH]; intros more a ab tpre H.
  - cbn in H. destruct (_running a) eqn:Hrun; inversion H; subst.
    split; [exact Hrun|]. cbn [app].
    destruct (queue_loop more ab) as [[r a'] t]. reflexivity.
  - destruct (_running a) eqn:Hrun.
    2:{ cbn in H. rewrite Hrun in H. discriminate H. }
    rewrite (queue_loop_cons s pre a Hrun) in H.
    cbn [app]. rewrite (queue_loop_cons s (pre ++ more) a Hrun).
    destruct (queue_iteration s a) as [[ri ai] ti] eqn:Hi.
    destruct ri as [[v|] | e |]; try discriminate H.
    + destruct (queue_loop pre ai) as [[r2 a2] t2] eqn:Hl.
      inversion H; subst.
      destruct (IH more ai ab t2 Hl) as (Hrun' & ->).
      split; [exact Hrun'|].
      destruct (queue_loop more ab) as [[r a'] t].
      rewrite app_assoc. reflexivity.
    + exfalso. rewrite queue_iteration_eq in Hi. cbn zeta in Hi.
      destruct (received s) as [[| | | | | |kvs]| | |];
        try discriminate Hi.
      destruct (Py.eq_str (Payload.value_or kvs "event" JNull) "match_found");
        [discriminate Hi|].
      destruct (Py.eq_str (Payload.value_or kvs "event" JNull)
                  "queue_timeout"); [discriminate Hi|].
      destruct (Py.eq_str (Payload.value_or kvs "type" JNull) "identified");
        discriminate Hi.
Qed.

Lemma queue_iteration_fatal s a e :
  Protocol.fatal_receive (received s) = Some e ->
  queue_iteration s a =
  (Raised e, after_signal s a,
   signal_log s ++ [WsRecv QueueChannel (received s)]).
Proof.
  intros Hf. rewrite queue_iteration_eq. cbn zeta.
  destruct (received s) as [[]| | |]; cbn in Hf; inversion Hf; reflexivity.
Qed.

(** The wait when the first error inside it is that of a receive. *)
Lemma wait_for_match_fatal sock pre s rest a ab tpre c e :
  credentials a = Some c ->
  link_up_at_open sock = true ->
  inbox sock = pre ++ s :: rest ->
  queue_loop pre a = (Blocked, ab, tpre) ->
  Protocol.fatal_receive (received s) = Some e ->
  _wait_for_match (Connected sock) a =
  (Return JNull, after_signal s ab,
   ([log INFO "Waiting for match..." []; WsConnect QueueUri;
     WsSend QueueChannel (identify_msg c)]
    ++ tpre ++ signal_log s
    ++ [WsRecv QueueChannel (received s); WsClose QueueChannel])
   ++ [log ERROR "Queue WebSocket error: {e}" [LExn e]; Sleep 3]).
Proof.
  intros Hc Hup Hin Hpre Hf.
  destruct (queue_loop_app pre (s :: rest) a ab tpre Hpre) as (Hrun & Happ).
  assert (Hloop : queue_loop (inbox sock) a =
                  (Raised e, after_signal s ab,
                   tpre ++ signal_log s
                     ++ [WsRecv QueueChannel (received s)])).
  { rewrite Hin, Happ, (queue_loop_cons s rest ab Hrun).
    rewrite (queue_iteration_fatal s ab e Hf). reflexivity. }
  unfold _wait_for_match, with_connection. unfold_M.
  rewrite Hc. cbn beta iota zeta. cbn [transmits ws_channel].
  rewrite Hup. cbn beta iota zeta.
  rewrite Hloop. cbn.
  rewrite ?app_nil_r, <- ?app_assoc. reflexivity.
Qed.

End QueueErrors.

(** X11.  The queue session is quiet and safe.  For an agent with
    credentials [_wait_for_match] never raises, whatever the connection
    does.  All it ever sends is the one message
    [{"type": "identify", "agent_id": <the agent's id>}], and it neither
    joins the queue nor enters a match.  Every error inside is turned
    into the answer [None]: whenever the error record is in the log the
    wait has returned [None], and it ended with that record and a sleep
    of 3 seconds; that is what happens when the connection cannot be
    opened, when sending the [identify] message raises, and when a
    receive, at whatever point of the wait, finds the connection closed
    or brings a frame that does not decode to a mapping. *)
Theorem wait_for_match_never_raises :
  forall (conn : connect_outcome) (a : Agent) (c : AgentCredentials),
    credentials a = Some c ->
    let identify :=
      WsSend QueueChannel
        (JDict [("type", JStr "identify");
                ("agent_id", JStr (agent_id c))]) in
    let caught := fun e : exn =>
      [Log {| level := ERROR; message := "Queue WebSocket error: {e}";
              args := [LExn e] |};
       Sleep 3] in
    let '(r, _, t) := _wait_for_match conn a in
    (forall e, r <> Raised e) /\
    (filter Trace.is_send t = [] \/ filter Trace.is_send t = [identify]) /\
    Trace.count Protocol.is_join t = 0%nat /\
    Trace.count Trace.is_match_entry t = 0%nat /\
    (forall e,
       In (Log {| level := ERROR; message := "Queue WebSocket error: {e}";
                  args := [LExn e] |}) t ->
       r = Return JNull /\ exists t0, t = t0 ++ caught e) /\
    (forall e,
       conn = ConnectFails e ->
       r = Return JNull /\ exists t0, t = t0 ++ caught e) /\
    (forall sock,
       conn = Connected sock -> link_up_at_open sock = false ->
       r = Return JNull /\ exists t0, t = t0 ++ caught ConnectionClosed) /\
    (forall sock pre s rest ab tpre e,
       conn = Connected sock -> link_up_at_open sock = true ->
       inbox sock = pre ++ s :: rest ->
       queue_loop pre a = (Blocked, ab, tpre) ->
       Protocol.fatal_receive (received s) = Some e ->
       r = Return JNull /\ exists t0, t = t0 ++ caught e).
Proof.
  intros conn a c Hc identify caught.
  assert (Hsend : forall ev, Protocol.in_wait ev = true ->
                             Trace.is_send ev = false)
    by (intros [] Hev; try reflexivity; discriminate Hev).
  assert (Hjoin : forall ev, Protocol.in_wait ev = true ->
                             Protocol.is_join ev = false)
    by (intros [] Hev; try reflexivity; discriminate Hev).
  assert (Hentry : forall ev, Protocol.in_wait ev = true ->
                              Trace.is_match_entry ev = false)
    by (intros [] Hev; try reflexivity; discriminate Hev).
  destruct (_wait_for_match conn a) as [[r a'] t] eqn:H.
  (* the three ways into the handler *)
  assert (H6 : forall e, conn = ConnectFails e ->
                 r = Return JNull /\ exists t0, t = t0 ++ caught e).
  { intros e ->. revert H. unfold _wait_for_match, with_connection.
    unfold_M. rewrite Hc. cbn. intros H. inversion H; subst.
    split; [reflexivity|].
    exists [log INFO "Waiting for match..." []; WsConnect QueueUri].
    reflexivity. }
  assert (H7 : forall sock, conn = Connected sock ->
                 link_up_at_open sock = false ->
                 r = Return JNull /\
                 exists t0, t = t0 ++ caught ConnectionClosed).
  { intros sock -> Hdown. revert H.
    unfold _wait_for_match, with_connection. unfold_M.
    rewrite Hc, Hdown. cbn. intros H. inversion H; subst.
    split; [reflexivity|].
    exists [log INFO "Waiting for match..." []; WsConnect QueueUri;
            WsSend QueueChannel (identify_msg c); WsClose QueueChannel].
    reflexivity. }
  assert (H8 : forall sock pre s rest ab tpre e,
                 conn = Connected sock -> link_up_at_open sock = true ->
                 inbox sock = pre ++ s :: rest ->
                 queue_loop pre a = (Blocked, ab, tpre) ->
                 Protocol.fatal_receive (received s) = Some e ->
                 r = Return JNull /\ exists t0, t = t0 ++ caught e).
  { intros sock pre s rest ab tpre e -> Hup Hin Hpre Hf.
    rewrite (wait_for_match_fatal sock pre s rest a ab tpre c e
               Hc Hup Hin Hpre Hf) in H.
    injection H as Hr _ Ht. subst r t.
    split; [reflexivity|].
    exists ([log INFO "Waiting for match..." []; WsConnect QueueUri;
             WsSend QueueChannel (identify_msg c)]
            ++ tpre ++ signal_log s
            ++ [WsRecv QueueChannel (received s); WsClose QueueChannel]).
    reflexivity. }
  revert H. unfold _wait_for_match, with_connection. unfold_M.
  rewrite Hc. intros H.
  split; [|split; [|split; [|split; [|split; [|auto]]]]].
  5:{ (* the error record in the log *)
      intros e Hin. revert H Hin. clear H6 H7 H8.
      intros H Hin.
      run_all;
        repeat match goal with
        | E : queue_loop _ _ = _ |- _ => apply queue_loop_in_wait in E
        end;
        cbn [app] in Hin;
        repeat match goal with
        | Hi : In _ (_ :: _) |- _ => destruct Hi as [Hi|Hi]
        | Hi : In _ (_ ++ _) |- _ => apply in_app_or in Hi as [Hi|Hi]
        | Hi : In _ [] |- _ => destruct Hi
        | Hi : _ = Log _ |- _ => first [discriminate Hi | inversion Hi; subst; clear Hi]
        | Hi : In (Log _) ?tq, E : forallb Protocol.in_wait ?tq = true |- _ =>
            exfalso; exact (in_wait_no_error tq _ _ E Hi)
        end;
        (split; [reflexivity|]);
        rewrite ?app_nil_r;
        repeat first [apply ends_base | apply ends_cons | apply ends_app]. }
  all: run_all;
    repeat match goal with
    | E : queue_loop _ _ = _ |- _ => apply queue_loop_in_wait in E
    end;
    try (intros; discriminate);
    unfold Trace.count, log;
    repeat (progress
              (rewrite ?filter_app;
               cbn [filter app Trace.is_send Protocol.is_join
                    Trace.is_match_entry]));
    try match goal with
    | E : forallb Protocol.in_wait ?t = true |- _ =>
        rewrite ?(filter_in_wait Trace.is_send t Hsend E),
                ?(filter_in_wait Protocol.is_join t Hjoin E),
                ?(filter_in_wait Trace.is_match_entry t Hentry E)
    end;
    cbn; auto.
Qed.

Lemma wait_for_match_never_raises_witness :
  _wait_for_match (ConnectFails (OtherException "ConnectionRefusedError"))
    Scenario.agent0 =
  (Return JNull, Scenario.agent0,
   [log INFO "Waiting for match..." [];
    WsConnect QueueUri;
    log ERROR "Queue WebSocket error: {e}"
      [LExn (OtherException "ConnectionRefusedError")];
    Sleep 3]) /\
  forall e, Return JNull <> Raised (A := json) e.
Proof.
  pose proof (wait_for_match_never_raises
                (ConnectFails (OtherException "ConnectionRefusedError"))
                Scenario.agent0 Scenario.creds eq_refl) as H.
  cbn in H. destruct H as (Hr & _).
  split; [reflexivity | exact Hr].
Defined.

(** X12.  A queue socket that cannot be opened costs a pause, not the agent.
    When connecting to the queue endpoint fails, [_wait_for_match] logs
    the error, sleeps 3 seconds and answers [None] without having sent
    anything; the lifecycle loop then enters no match and goes on to its
    next pass, which starts with a fresh queue-join. *)
Theorem queue_connect_failure_requeues :
  forall (bot : Bot) (env : cycle_env) (rest : list cycle_env) (a : Agent)
         (c : AgentCredentials) (e : exn),
    _running a = true ->
    credentials a = Some c ->
    Protocol.join_error (join_response env) = None ->
    queue_socket env = ConnectFails e ->
    let waited := [log INFO "Waiting for match..." [];
                   WsConnect QueueUri;
                   log ERROR "Queue WebSocket error: {e}" [LExn e];
                   Sleep 3] in
    _wait_for_match (ConnectFails e) a = (Return JNull, a, waited) /\
    exists note r a' t,
      _main_loop_step3 rest a = (r, a', t) /\
      _main_loop_step3 (env :: rest) a =
      (r, a',
       [HttpJoinQueue (GameMode_value (mode a))
          (Faction_value (agent_faction a)) (api_key c);
        Log note] ++ waited ++ t) /\
      Trace.starts_with_join t = true.
Proof.
  intros bot env rest a c e Hrun Hc Hj Hq waited.
  assert (Hw : _wait_for_match (ConnectFails e) a = (Return JNull, a, waited)).
  { unfold _wait_for_match, with_connection. unfold_M. rewrite Hc.
    reflexivity. }
  split; [exact Hw|].
  destruct (join_queue_ok (join_response env) a c Hc Hj) as (note & Ej).
  destruct (_main_loop_step3 rest a) as [[r a'] t] eqn:Hl.
  exists note, r, a', t. split; [reflexivity|]. split.
  - rewrite <- Hq in Hw.
    rewrite (main_loop_requeue env rest a a _ a waited JNull Hrun Ej Hw
               eq_refl).
    rewrite Hl. reflexivity.
  - apply (main_loop_starts_with_join rest a r a' t); [congruence | exact Hl].
Qed.

Lemma queue_connect_failure_requeues_witness :
  exists note,
    _main_loop_step3 (bot := Scenario.idle_bot) [Cases.no_queue_cycle]
      Scenario.agent0 =
    (Blocked, Scenario.agent0,
     [HttpJoinQueue "ranked_1v1" "random" "k1";
      Log note;
      log INFO "Waiting for match..." [];
      WsConnect QueueUri;
      log ERROR "Queue WebSocket error: {e}"
        [LExn (OtherException "ConnectionRefusedError")];
      Sleep 3]).
Proof.
  destruct (queue_connect_failure_requeues Scenario.idle_bot
              Cases.no_queue_cycle [] Scenario.agent0
              Scenario.creds _ eq_refl eq_refl eq_refl eq_refl)
    as (_ & note & r & a' & t & Hrest & Hloop & _).
  exists note. cbn in Hrest. inversion Hrest; subst. exact Hloop.
Defined.

(** X13.  Waiting in the queue is silent.  A receive timeout on the queue
    channel, or a mapping that is neither [match_found] nor
    [queue_timeout], sends nothing (unlike a timeout on the match
    channel, there is no probe) and ends nothing: the queue loop goes on
    to its next receive, having at most logged the "identified" notice
    (and, before the receive, the record of a stop signal that came in
    during it). *)
Theorem queue_wait_is_silent :
  forall (s : recv_step) (rest : list recv_step) (a : Agent),
    _running a = true ->
    Protocol.keeps_waiting (received s) = true ->
    queue_loop (s :: rest) a =
    (let '(r, a', t) := queue_loop rest (after_signal s a) in
     (r, a',
      signal_log s ++
      WsRecv QueueChannel (received s)
        :: Protocol.queue_note (received s) ++ t)) /\
    Trace.count Trace.is_send (Protocol.queue_note (received s)) = 0%nat.
Proof.
  intros s rest a Hrun Hk.
  rewrite (queue_loop_cons s rest a Hrun), queue_iteration_eq. cbn zeta.
  unfold Protocol.keeps_waiting, Protocol.queue_note in *.
  destruct (received s) as [[| | | | | |kvs]| | |]; try discriminate Hk.
  - rewrite queue_verdict_eq in Hk.
    destruct (Py.eq_str (Payload.value_or kvs "event" JNull) "match_found");
      [discriminate|].
    destruct (Py.eq_str (Payload.value_or kvs "event" JNull) "queue_timeout");
      [discriminate|].
    destruct (Py.eq_str (Payload.value_or kvs "type" JNull) "identified");
      (split; [|reflexivity]);
      destruct (queue_loop rest (after_signal s a)) as [[r a'] t];
      rewrite <- app_assoc; reflexivity.
  - split; [|reflexivity].
    destruct (queue_loop rest (after_signal s a)) as [[r a'] t].
    rewrite <- app_assoc. reflexivity.
Qed.

Lemma queue_wait_is_silent_witness :
  queue_loop [Scenario.delivers Cases.identified_msg] Scenario.agent0 =
  (Blocked, Scenario.agent0,
   [WsRecv QueueChannel (RecvMsg Cases.identified_msg);
    log DEBUG "Queue connection identified" []]).
Proof.
  exact (proj1 (queue_wait_is_silent
                  (Scenario.delivers Cases.identified_msg) []
                  Scenario.agent0 eq_refl eq_refl)).
Defined.

Section Played.

Context {bot : Bot}.

Lemma cycle_played env a aj tj aw tw v r ap tp :
  _join_queue (join_response env) a = (Return tt, aj, tj) ->
  _wait_for_match (queue_socket env) aj = (Return v, aw, tw) ->
  Py.truthy v = true ->
  _play_match v (match_socket env) aw = (r, ap, tp) ->
  cycle env a =
  match r with
  | Return _ =>
      let a1 := set_matches_played (matches_played ap + 1) ap in
      let record :=
        log INFO
          "Record: {self.wins}W / {self.losses}L ({self.matches_played} games)"
          [LInt (wins ap); LInt (losses ap); LInt (matches_played ap + 1)] in
      if auto_queue ap
      then (Return NextIteration, a1, tj ++ tw ++ tp ++ [record; Sleep 2])
      else (Return BreakLoop, a1, tj ++ tw ++ tp ++ [record])
  | Raised e => (Raised e, ap, tj ++ tw ++ tp)
  | Blocked => (Blocked, ap, tj ++ tw ++ tp)
  end.
Proof.
  intros Hj Hw Hv Hp. unfold cycle. unfold_M. rewrite Hj, Hw.
  cbn beta iota zeta. rewrite Hv. cbn [negb]. cbn beta iota zeta.
  rewrite Hp.
  destruct r as [[]| e |]; cbn; try reflexivity.
  destruct (auto_queue ap); cbn; rewrite ?app_nil_r; reflexivity.
Qed.

End Played.

(** X14.  A match that was played counts once.  When the wait hands a truthy
    payload to [_play_match] and that returns (however the match went,
    a lost connection included), [matches_played] grows by exactly one
    and the record is logged; with [auto_queue] the loop sleeps 2
    seconds and starts its next pass, without it the loop ends there. *)
Theorem played_match_counts_once :
  forall (bot : Bot) (env : cycle_env) (rest : list cycle_env)
         (a aj aw ap : Agent) (tj tw tp : trace) (v : json),
    _running a = true ->
    _join_queue (join_response env) a = (Return tt, aj, tj) ->
    _wait_for_match (queue_socket env) aj = (Return v, aw, tw) ->
    Py.truthy v = true ->
    _play_match v (match_socket env) aw = (Return tt, ap, tp) ->
    let a1 := set_matches_played (matches_played ap + 1) ap in
    let record :=
      log INFO
        "Record: {self.wins}W / {self.losses}L ({self.matches_played} games)"
        [LInt (wins ap); LInt (losses ap); LInt (matches_played ap + 1)] in
    matches_played a1 = matches_played a + 1 /\
    _main_loop_step3 (env :: rest) a =
    (if auto_queue a
     then let '(r, a', t) := _main_loop_step3 rest a1 in
          (r, a', (tj ++ tw ++ tp ++ [record; Sleep 2]) ++ t)
     else (Return tt, a1, tj ++ tw ++ tp ++ [record])).
Proof.
  intros bot env rest a aj aw ap tj tw tp v Hrun Hj Hw Hv Hp a1 record.
  destruct (join_queue_frame _ _ _ _ _ Hj) as (-> & _).
  destruct (wait_for_match_kept _ _ _ _ _ Hw)
    as (((_ & _ & _ & Haq1 & _) & _) & Hmp1 & _).
  destruct (play_match_kept _ _ _ _ _ _ Hp)
    as (((_ & _ & _ & Haq2 & _) & _) & Hmp2 & _).
  split; [subst a1; cbn; congruence|].
  rewrite (main_loop_cons env rest a Hrun).
  rewrite (cycle_played env a a tj aw tw v _ ap tp Hj Hw Hv Hp).
  cbn zeta. fold a1. fold record.
  assert (Haq : auto_queue ap = auto_queue a) by congruence.
  rewrite Haq. destruct (auto_queue a); [reflexivity|].
  rewrite app_nil_r. reflexivity.
Qed.

Lemma played_match_counts_once_witness :
  exists a' t,
    _main_loop_step3 (bot := Scenario.idle_bot)
      [Scenario.paired_cycle; Scenario.timed_out_cycle]
      Cases.single_match_agent = (Return tt, a', t) /\
    matches_played a' = 1 /\ wins a' = 1 /\
    Trace.count Protocol.is_join t = 1%nat /\
    Trace.count Protocol.is_sleep t = 0%nat.
Proof.
  destruct (played_match_counts_once Scenario.idle_bot Scenario.paired_cycle
              [Scenario.timed_out_cycle] Cases.single_match_agent
              Cases.single_match_agent Cases.single_match_agent
              _ _ _ _ Scenario.pairing
              eq_refl eq_refl eq_refl eq_refl eq_refl)
    as (Hmp & Hloop).
  cbn [auto_queue Cases.single_match_agent] in Hloop.
  do 2 eexists. split; [exact Hloop|].
  repeat split.
Defined.

Section Pairing.

Context {bot : Bot}.

Lemma last_cons {A} (x : A) (l : list A) (d : A) :
  last (x :: l) d = last l x.
Proof.
  revert x d. induction l as [|y l IH]; intros x d; [reflexivity|].
  change (last (x :: y :: l) d) with (last (y :: l) d).
  rewrite (IH y d), (IH y x). reflexivity.
Qed.

Lemma last_forallb {A} (P : A -> bool) (l : list A) :
  forall d,
    forallb P l = true ->
    l = [] \/ P (last l d) = true.
Proof.
  induction l as [|x l IH]; intros d H; [left; reflexivity|].
  right. cbn [forallb] in H. apply andb_prop in H as [Hx Hl].
  rewrite last_cons. destruct (IH x Hl) as [-> | Hp]; [exact Hx | exact Hp].
Qed.

Lemma forallb_filter {A} (P Q : A -> bool) (l : list A) :
  forallb P l = true -> forallb P (filter Q l) = true.
Proof.
  induction l as [|x l IH]; [reflexivity|]. cbn [forallb filter].
  intros H. apply andb_prop in H as [Hx Hl].
  destruct (Q x); [cbn [forallb]; rewrite Hx|]; auto.
Qed.

Lemma find_players_dicts me ps :
  forall acc,
    forallb Payload.is_dict ps = true ->
    find_players me ps acc =
    Ok (last (filter (Protocol.is_self me) ps) (fst acc),
        last (map Protocol.agent_name_of
                (filter (fun p => negb (Protocol.is_self me p)) ps))
             (snd acc)).
Proof.
  induction ps as [|p ps IH]; intros [self other] Hd.
  - reflexivity.
  - cbn [forallb] in Hd. apply andb_prop in Hd as [Hp Hps].
    destruct p; try discriminate Hp.
    cbn [find_players Py.get filter Protocol.is_self].
    fold (Payload.value_or kvs "agent_id" JNull).
    destruct (Py.eq_str (Payload.value_or kvs "agent_id" JNull) me).
    + rewrite (IH _ Hps). cbn [fst snd negb map]. rewrite last_cons.
      reflexivity.
    + rewrite (IH _ Hps). cbn [fst snd negb map Protocol.agent_name_of].
      rewrite last_cons. reflexivity.
Qed.

Lemma find_players_not_dicts me ps :
  forall acc,
    forallb Payload.is_dict ps = false ->
    find_players me ps acc = Err AttributeError.
Proof.
  induction ps as [|p ps IH]; intros acc Hd; [discriminate|].
  cbn [forallb] in Hd.
  destruct p; try reflexivity.
  cbn [Payload.is_dict andb] in Hd. cbn [find_players Py.get].
  destruct (Py.eq_str _ me); apply IH; exact Hd.
Qed.

End Pairing.

(** X15.  Who is who in a pairing.  Over a list of player entries that are all
    mappings, the search of [_play_match] takes as our entry the last
    one whose ["agent_id"] is ours, and as opponent the ["agent_name"]
    ("Unknown" if missing) of the last one whose id is not; where there
    is none, what it started with stays.  One entry that is not a
    mapping makes the whole search raise [AttributeError]. *)
Theorem find_players_last_wins :
  forall (me : string) (ps : list json) (acc : json * json),
    find_players me ps acc =
    if forallb Payload.is_dict ps
    then Ok (last (filter (Protocol.is_self me) ps) (fst acc),
             last (map Protocol.agent_name_of
                     (filter (fun p => negb (Protocol.is_self me p)) ps))
                  (snd acc))
    else Err AttributeError.
Proof.
  intros me ps acc.
  destruct (forallb Payload.is_dict ps) eqn:Hd.
  - apply find_players_dicts. exact Hd.
  - apply find_players_not_dicts. exact Hd.
Qed.

(** X16.  The match descriptor of any pairing.  For a pairing payload that is
    a mapping whose players, if any, are mappings, [_play_match] builds
    the descriptor from the payload with its defaults: match id
    "unknown", map "Unknown", no settings, opponent "Unknown" and
    faction "random" when the keys or the entries are missing; it keeps
    the descriptor as [match_info] and hands it to the match-start hook
    before anything is connected. *)
Theorem match_info_of_pairing :
  forall (bot : Bot) (conn : connect_outcome) (a : Agent)
         (c : AgentCredentials) (kvs : list (string * json))
         (ps : list json),
    credentials a = Some c ->
    Payload.value_or kvs "players" (JList []) = JList ps ->
    forallb Payload.is_dict ps = true ->
    let mi :=
      {| match_id := Payload.value_or kvs "id" (JStr "unknown");
         map_name := Payload.value_or kvs "map" (JStr "Unknown");
         faction :=
           Protocol.faction_of
             (last (filter (Protocol.is_self (agent_id c)) ps) JNull);
         opponent :=
           last (map Protocol.agent_name_of
                   (filter (fun p => negb (Protocol.is_self (agent_id c) p))
                           ps))
                (JStr "Unknown");
         settings := Payload.value_or kvs "settings" (JDict []) |} in
    let '(_, a', t) := _play_match (JDict kvs) conn a in
    match_info a' = Some mi /\
    exists t',
      t = EnterPlayMatch (JDict kvs) :: CallOnMatchStart mi :: t' /\
      Trace.count Protocol.is_connect
        [EnterPlayMatch (JDict kvs); CallOnMatchStart mi] = 0%nat.
Proof.
  intros bot conn a c kvs ps Hc Hps Hd mi.
  assert (Hfaction :
            (if Py.truthy (last (filter (Protocol.is_self (agent_id c)) ps)
                             JNull)
             then lift (Py.get (last (filter (Protocol.is_self (agent_id c))
                                        ps) JNull)
                          "faction" (JStr "random"))
             else ret (JStr "random")) =
            ret (Protocol.faction_of
                   (last (filter (Protocol.is_self (agent_id c)) ps) JNull))).
  { destruct (last_forallb Payload.is_dict
                (filter (Protocol.is_self (agent_id c)) ps) JNull
                (forallb_filter _ _ ps Hd)) as [-> | Hp]; [reflexivity|].
    destruct (last (filter (Protocol.is_self (agent_id c)) ps) JNull)
      as [| | | | | |d]; try discriminate Hp.
    destruct d; reflexivity. }
  unfold _play_match. unfold_M. rewrite Hc.
  cbn [Py.get]. fold (Payload.value_or kvs "players" (JList [])).
  rewrite Hps. cbn [Py.iter]. cbn beta iota zeta.
  rewrite (find_players_dicts (agent_id c) ps (JNull, JStr "Unknown") Hd).
  cbn [fst snd]. cbn beta iota zeta.
  unfold lift, ret in Hfaction. unfold_M.
  rewrite Hfaction.
  fold (Payload.value_or kvs "id" (JStr "unknown")).
  fold (Payload.value_or kvs "map" (JStr "Unknown")).
  fold (Payload.value_or kvs "settings" (JDict [])).
  cbn beta iota zeta. fold mi.
  destruct (snd (on_match_start mi)) as [e|].
  - cbn. split; [reflexivity|]. eexists. split; reflexivity.
  - destruct (match_session (Payload.value_or kvs "id" (JStr "unknown")) conn
                (set_match_info (Some mi) a)) as [[r a'] t] eqn:Hs.
    destruct (match_session_frame _ _ _ _ _ _ Hs) as (_ & _ & Hm).
    cbn. split; [exact Hm|]. eexists. split; reflexivity.
Qed.

Lemma match_info_of_pairing_witness :
  let '(_, a', _) :=
    _play_match (bot := Scenario.idle_bot)
      (JDict [("players", JList Cases.crowded_players)])
      (ConnectFails (OtherException "ConnectionRefusedError"))
      Scenario.agent0 in
  match_info a' =
  Some {| match_id := JStr "unknown"; map_name := JStr "Unknown";
          faction := JStr "soviet"; opponent := JStr "Unknown";
          settings := JDict [] |}.
Proof.
  pose proof (match_info_of_pairing Scenario.idle_bot
                (ConnectFails (OtherException "ConnectionRefusedError"))
                Scenario.agent0 Scenario.creds
                [("players", JList Cases.crowded_players)]
                Cases.crowded_players eq_refl eq_refl eq_refl) as H.
  cbn in H. cbn. exact (proj1 H).
Defined.

(** X17.  A pairing that is not a mapping is dropped.  When the wait hands
    over a truthy payload that is not a mapping (a string, a number, a
    non-empty list), [_play_match] raises [AttributeError] before it
    calls any hook or opens any socket; the lifecycle loop logs the
    error, sleeps 5 seconds and goes on to its next pass, and no game is
    counted. *)
Theorem non_mapping_pairing_is_dropped :
  forall (bot : Bot) (env : cycle_env) (rest : list cycle_env)
         (a aj aw : Agent) (tj tw : trace) (v : json),
    _running a = true ->
    _join_queue (join_response env) a = (Return tt, aj, tj) ->
    _wait_for_match (queue_socket env) aj = (Return v, aw, tw) ->
    Py.truthy v = true ->
    Payload.is_dict v = false ->
    _play_match v (match_socket env) aw =
    (Raised AttributeError, aw, [EnterPlayMatch v]) /\
    matches_played aw = matches_played a /\
    _main_loop_step3 (env :: rest) a =
    (let '(r, a', t) := _main_loop_step3 rest aw in
     (r, a',
      ((tj ++ tw ++ [EnterPlayMatch v])
         ++ [log ERROR "Error in main loop: {e}" [LExn AttributeError];
             Sleep 5]) ++ t)).
Proof.
  intros bot env rest a aj aw tj tw v Hrun Hj Hw Hv Hd.
  destruct (join_queue_frame _ _ _ _ _ Hj) as (-> & _).
  destruct (wait_for_match_kept _ _ _ _ _ Hw)
    as (((_ & _ & _ & _ & Hc) & _) & Hmp & _).
  assert (Hcred : exists c, credentials aw = Some c).
  { rewrite Hc. revert Hj. unfold _join_queue. unfold_M.
    destruct (credentials a) as [c|]; [eauto | discriminate]. }
  destruct Hcred as (c & Hcred).
  assert (Hp : _play_match v (match_socket env) aw =
               (Raised AttributeError, aw, [EnterPlayMatch v])).
  { unfold _play_match. unfold_M. rewrite Hcred.
    destruct v; try discriminate Hd; reflexivity. }
  split; [exact Hp|]. split; [exact Hmp|].
  rewrite (main_loop_cons env rest a Hrun).
  rewrite (cycle_played env a a tj aw tw v _ aw _ Hj Hw Hv Hp).
  destruct (_main_loop_step3 rest aw) as [[r a'] t]. reflexivity.
Qed.

Lemma non_mapping_pairing_is_dropped_witness :
  exists tj tw,
    _main_loop_step3 (bot := Scenario.idle_bot) [Cases.string_pairing_cycle]
      Scenario.agent0 =
    (Blocked, Scenario.agent0,
     ((tj ++ tw ++ [EnterPlayMatch (JStr "m1")])
        ++ [log ERROR "Error in main loop: {e}" [LExn AttributeError];
            Sleep 5]) ++ []).
Proof.
  do 2 eexists.
  exact (proj2 (proj2 (non_mapping_pairing_is_dropped Scenario.idle_bot
                         Cases.string_pairing_cycle [] Scenario.agent0
                         Scenario.agent0 Scenario.agent0 _ _ (JStr "m1")
                         eq_refl eq_refl eq_refl eq_refl eq_refl))).
Defined.

(** X18.  A stopped agent starts no new pass.  If a pass of the lifecycle loop
    ends with [_running] cleared (the stop signal came in during one of
    its receives), the loop ends with that pass: what further passes the
    environment would offer makes no difference, and the loop returns
    unless the pass itself was left waiting for a message. *)
Theorem stopped_agent_starts_no_pass :
  forall (bot : Bot) (env : cycle_env) (rest : list cycle_env)
         (a a' : Agent) (r : outcome unit) (t : trace),
    _main_loop_step3 [env] a = (r, a', t) ->
    _running a' = false ->
    _main_loop_step3 (env :: rest) a = (r, a', t).
Proof.
  intros bot env rest a a' r t H Hstop.
  assert (Hstopped : forall a0 l, _running a0 = false ->
                                  _main_loop_step3 l a0 = (Return tt, a0, [])).
  { intros a0 l H0. destruct l; cbn [_main_loop_step3]; rewrite H0;
      reflexivity. }
  destruct (_running a) eqn:Hrun.
  2:{ rewrite (Hstopped a [env] Hrun) in H.
      rewrite (Hstopped a (env :: rest) Hrun). exact H. }
  rewrite (main_loop_cons env [] a Hrun) in H.
  rewrite (main_loop_cons env rest a Hrun).
  destruct (cycle env a) as [[[[]| e |] a1] t1]; try exact H.
  - destruct (_main_loop_step3 [] a1) as [[r2 a2] t2] eqn:Hl.
    inversion H; subst.
    destruct (main_loop_kept [] a1 _ _ _ Hl) as ((_ & Hs & _) & _).
    destruct (_running a1) eqn:Hrun1.
    + cbn in Hl. rewrite Hrun1 in Hl. inversion Hl; subst. congruence.
    + rewrite (Hstopped a1 [] Hrun1) in Hl. inversion Hl; subst.
      rewrite (Hstopped a' rest Hrun1). reflexivity.
  - destruct (_main_loop_step3 [] a1) as [[r2 a2] t2] eqn:Hl.
    inversion H; subst.
    destruct (_running a1) eqn:Hrun1.
    + cbn in Hl. rewrite Hrun1 in Hl. inversion Hl; subst. congruence.
    + rewrite (Hstopped a1 [] Hrun1) in Hl. inversion Hl; subst.
      rewrite (Hstopped a' rest Hrun1). reflexivity.
Qed.

Lemma stopped_agent_starts_no_pass_witness :
  exists a' t,
    _main_loop_step3 (bot := Scenario.idle_bot)
      [Cases.stopped_cycle; Scenario.paired_cycle] Scenario.agent0 =
    (Return tt, a', t) /\
    _running a' = false /\ matches_played a' = 1 /\
    Trace.count Protocol.is_join t = 1%nat.
Proof.
  do 2 eexists. split.
  - apply (stopped_agent_starts_no_pass Scenario.idle_bot
             Cases.stopped_cycle [Scenario.paired_cycle] Scenario.agent0).
    + vm_compute. reflexivity.
    + reflexivity.
  - repeat split.
Defined.

(* ================================================================== *)
(** * Further properties: construction, registration, views, order
      helpers and the example bot *)

Section Strings.

Lemma rstrip_cons c s :
  Str.rstrip_slash (String c s) =
  match Str.rstrip_slash s with
  | EmptyString => if Ascii.eqb c "/" then EmptyString else String c EmptyString
  | String c' r => String c (String c' r)
  end.
Proof. reflexivity. Qed.

Lemma rstrip_no_slash s : Str.ends_with_slash (Str.rstrip_slash s) = false.
Proof.
  induction s as [|c s IH]; [reflexivity|].
  rewrite rstrip_cons.
  destruct (Str.rstrip_slash s) as [|c' r].
  - destruct (Ascii.eqb c "/") eqn:E; cbn; [reflexivity | exact E].
  - exact IH.
Qed.

(** What [rstrip] removes is a run of slashes. *)
Lemma rstrip_slashes s :
  exists n, s = (Str.rstrip_slash s ++ Str.slashes n)%string.
Proof.
  induction s as [|c s (n & IH)]; [exists O; reflexivity|].
  rewrite rstrip_cons.
  destruct (Str.rstrip_slash s) as [|c' r].
  - destruct (Ascii.eqb c "/") eqn:E.
    + apply Ascii.eqb_eq in E. subst c. exists (S n). cbn in *. congruence.
    + exists n. cbn in *. congruence.
  - exists n. cbn in *. congruence.
Qed.

Lemma starts_http_app p q :
  Str.starts_http p = true -> Str.starts_http (p ++ q)%string = true.
Proof.
  destruct p as [|c1 [|c2 [|c3 [|c4 p]]]]; cbn; try discriminate. auto.
Qed.

Lemma has_http_cons c rest :
  Str.has_http (String c rest) =
  Str.starts_http (String c rest) || Str.has_http rest.
Proof. reflexivity. Qed.

Lemma has_http_app p q :
  Str.has_http p = true -> Str.has_http (p ++ q)%string = true.
Proof.
  induction p as [|c p IH]; [discriminate|].
  change (String c p ++ q)%string with (String c (p ++ q)%string).
  rewrite !has_http_cons.
  intros H. apply orb_true_iff in H. apply orb_true_iff.
  destruct H as [H|H]; [left | right; auto].
  apply (starts_http_app (String c p) q). exact H.
Qed.

Lemma has_http_rstrip s :
  Str.has_http s = false -> Str.has_http (Str.rstrip_slash s) = false.
Proof.
  intros H. destruct (Str.has_http (Str.rstrip_slash s)) eqn:E; [|reflexivity].
  destruct (rstrip_slashes s) as (n & Hs).
  apply (has_http_app _ (Str.slashes n)) in E. rewrite <- Hs in E. congruence.
Qed.

Lemma replace_cons c rest :
  Str.replace_http_ws (String c rest) =
  if Str.starts_http (String c rest) then
    match rest with
    | String _ (String _ (String _ after)) =>
        String "w" (String "s" (Str.replace_http_ws after))
    | _ => String c (Str.replace_http_ws rest)
    end
  else String c (Str.replace_http_ws rest).
Proof. reflexivity. Qed.

(** A string without the pattern is left as it is. *)
Lemma replace_unchanged s :
  Str.has_http s = false -> Str.replace_http_ws s = s.
Proof.
  induction s as [|c s IH]; [reflexivity|].
  rewrite has_http_cons, replace_cons. intros H.
  apply orb_false_iff in H. destruct H as [H1 H2].
  rewrite H1, (IH H2). reflexivity.
Qed.

(** A character other than the [w] of a replacement at the head of the
    rewritten string was at the head of the string. *)
Lemma replace_keeps_head c s s' :
  c <> "w"%char ->
  Str.replace_http_ws s = String c s' ->
  exists r, s = String c r /\ s' = Str.replace_http_ws r.
Proof.
  intros Hc H. destruct s as [|d r]; [discriminate|].
  rewrite replace_cons in H.
  destruct (Str.starts_http (String d r)) eqn:E.
  - destruct r as [|c2 [|c3 [|c4 r]]]; try discriminate E.
    inversion H. congruence.
  - inversion H; subst. eexists. split; reflexivity.
Qed.

Lemma starts_http_replace c rest :
  Str.starts_http (String c (Str.replace_http_ws rest)) = true ->
  Str.starts_http (String c rest) = true.
Proof.
  destruct (Str.replace_http_ws rest) as [|c2 [|c3 [|c4 r]]] eqn:E;
    cbn [Str.starts_http]; try discriminate.
  intros H.
  apply andb_true_iff in H. destruct H as [H H4].
  apply andb_true_iff in H. destruct H as [H H3].
  apply andb_true_iff in H. destruct H as [H1 H2].
  apply Ascii.eqb_eq in H2, H3, H4. subst c2 c3 c4.
  destruct (replace_keeps_head "t" rest _ ltac:(discriminate) E)
    as (r1 & -> & E1).
  symmetry in E1.
  destruct (replace_keeps_head "t" r1 _ ltac:(discriminate) E1)
    as (r2 & -> & E2).
  symmetry in E2.
  destruct (replace_keeps_head "p" r2 _ ltac:(discriminate) E2)
    as (r3 & -> & _).
  cbn. rewrite H1. reflexivity.
Qed.

Lemma replace_no_http_bounded n :
  forall s, (String.length s <= n)%nat ->
            Str.has_http (Str.replace_http_ws s) = false.
Proof.
  induction n as [|n IH]; intros s Hn.
  - destruct s; [reflexivity | cbn in Hn; lia].
  - destruct s as [|c rest]; [reflexivity|].
    rewrite replace_cons.
    destruct (Str.starts_http (String c rest)) eqn:E.
    + destruct rest as [|c2 [|c3 [|c4 after]]]; try discriminate E.
      rewrite has_http_cons.
      replace (Str.starts_http
                 (String "w" (String "s" (Str.replace_http_ws after))))
        with false
        by (destruct (Str.replace_http_ws after) as [|? [|? ?]]; reflexivity).
      rewrite has_http_cons.
      replace (Str.starts_http (String "s" (Str.replace_http_ws after)))
        with false
        by (destruct (Str.replace_http_ws after) as [|? [|? [|? ?]]];
            reflexivity).
      cbn [orb]. apply IH. cbn in Hn. lia.
    + rewrite has_http_cons.
      rewrite (IH rest) by (cbn in Hn; lia).
      rewrite orb_false_r.
      destruct (Str.starts_http (String c (Str.replace_http_ws rest))) eqn:E2;
        [|reflexivity].
      apply starts_http_replace in E2. congruence.
Qed.

(** No occurrence of the pattern survives the replacement. *)
Lemma replace_no_http s : Str.has_http (Str.replace_http_ws s) = false.
Proof. apply (replace_no_http_bounded (String.length s)). lia. Qed.

End Strings.

(** The agent of the scenarios is the one the constructor builds. *)
Example agent0_is_constructed :
  __init__ "Bot" "http://localhost:8080/" (Some "k1") (Some "a1")
    RANKED_1V1 RANDOM true =
  ({| arena_url := "http://localhost:8080";
      ws_url := "ws://localhost:8080" |},
   Scenario.agent0).
Proof. reflexivity. Qed.

(** X19.  The endpoints [__init__] derives.  Whatever the arena URL,
    [arena_url] is the URL without its trailing slashes and neither
    endpoint ends with a slash.  [ws_url] holds no "http" any more:
    every occurrence is replaced, not only the scheme.  A URL without
    "http" gives the same string for both endpoints, and a URL that is
    "http" followed by text without "http" gives "ws" followed by that
    text (so "https" becomes "wss"). *)
Theorem endpoints_are_normalised :
  forall (name url : string) (k i : option string) (m : GameMode)
         (f : Faction) (q : bool),
    let e := fst (__init__ name url k i m f q) in
    (exists n, url = (arena_url e ++ Str.slashes n)%string) /\
    Str.ends_with_slash (arena_url e) = false /\
    Str.ends_with_slash (ws_url e) = false /\
    Str.has_http (ws_url e) = false /\
    (Str.has_http url = false -> ws_url e = arena_url e) /\
    (forall rest, url = ("http" ++ rest)%string ->
                  Str.has_http rest = false ->
                  ws_url e = Str.rstrip_slash ("ws" ++ rest)%string).
Proof.
  intros name url k i m f q. cbn.
  split; [apply rstrip_slashes|].
  split; [apply rstrip_no_slash|].
  split; [apply rstrip_no_slash|].
  split; [apply has_http_rstrip, replace_no_http|].
  split.
  - intros H. rewrite (replace_unchanged _ H). reflexivity.
  - intros rest -> H. cbn [append]. rewrite replace_cons.
    cbn [Str.starts_http Ascii.eqb Bool.eqb andb].
    rewrite (replace_unchanged _ H). reflexivity.
Qed.

(** X20.  Credentials out of the constructor.  The agent starts with
    credentials exactly when both an API key and an agent id are given
    and neither is the empty string; they then hold the two values, the
    name of the agent and an ELO of 1200.  In every other case,
    a lone or an empty secret included, it starts without credentials. *)
Theorem credentials_need_both_secrets :
  forall (name url : string) (k i : option string) (m : GameMode)
         (f : Faction) (q : bool) (c : AgentCredentials),
    credentials (snd (__init__ name url k i m f q)) = Some c <->
    k = Some (api_key c) /\ i = Some (agent_id c) /\
    api_key c <> "" /\ agent_id c <> "" /\
    cred_name c = name /\ elo c = 1200.
Proof.
  intros name url k i m f q c. cbn. split.
  - destruct k as [k|]; [|discriminate].
    destruct i as [i|]; [|discriminate].
    cbn. destruct (String.eqb k "") eqn:Ek; [discriminate|].
    destruct (String.eqb i "") eqn:Ei; [discriminate|].
    cbn. intros H. inversion H; subst; cbn.
    apply String.eqb_neq in Ek, Ei. repeat split; auto.
  - intros (-> & -> & Hk & Hi & Hn & He). cbn.
    apply String.eqb_neq in Hk, Hi. rewrite Hk, Hi. cbn.
    destruct c; cbn in *. subst. reflexivity.
Qed.

Section Registering.

Import Registration.

(** X21.  What registration returns.  [_register] returns credentials
    exactly when the arena answers 200 with a body that decodes to a
    mapping holding "agent_id", "name" and "api_key"; the credentials
    carry these three values as they came and the "elo" of the body,
    1200 when the body has none. *)
Theorem register_returns_what_the_arena_sent :
  forall (reply : http_reply) (c : RawCredentials),
    snd (_register reply) = Ok c <->
    exists text kvs,
      reply = HttpReply 200 text (Ok (JDict kvs)) /\
      Py.lookup "agent_id" kvs = Some (raw_agent_id c) /\
      Py.lookup "name" kvs = Some (raw_name c) /\
      Py.lookup "api_key" kvs = Some (raw_api_key c) /\
      raw_elo c = Payload.value_or kvs "elo" (JInt 1200).
Proof.
  intros reply c. split.
  - destruct reply as [status text body|e]; [|discriminate].
    unfold _register.
    destruct (status =? 200) eqn:Es; [|destruct text; discriminate].
    apply Z.eqb_eq in Es. subst status. cbn [negb].
    destruct body as [data|e]; [|discriminate].
    cbn [rbind]. unfold parse_credentials.
    destruct data; try discriminate.
    cbn [PyOps.getitem Py.get rbind].
    destruct (Py.lookup "agent_id" kvs) as [i|] eqn:Ei; [|discriminate].
    cbn [rbind].
    destruct (Py.lookup "name" kvs) as [n|] eqn:En; [|discriminate].
    cbn [rbind].
    destruct (Py.lookup "api_key" kvs) as [k|] eqn:Ek; [|discriminate].
    cbn [rbind snd]. intros H. inversion H; subst; cbn.
    exists text, kvs. repeat split; auto.
  - intros (text & kvs & -> & Hi & Hn & Hk & He).
    unfold _register, parse_credentials.
    cbn [Z.eqb Pos.eqb negb rbind PyOps.getitem Py.get].
    rewrite Hi, Hn, Hk. cbn [rbind snd].
    destruct c; cbn in *. subst. reflexivity.
Qed.

(** X22.  How registration fails.  When [_register] raises it has logged
    nothing.  A request that gets no answer raises its own error; a
    status other than 200 raises [RuntimeError] once the text of the
    answer is read, whatever the body; on status 200 a body that does
    not decode raises the decoding error, a mapping that lacks one of
    the three keys raises [KeyError], and any other JSON value raises
    [TypeError]. *)
Theorem register_failure_is_silent :
  forall (reply : http_reply) (e : exn),
    snd (_register reply) = Err e ->
    fst (_register reply) = [] /\
    match reply with
    | HttpFails e' => e = e'
    | HttpReply status text body =>
        if status =? 200 then
          match body with
          | Err e' => e = e'
          | Ok (JDict _) => e = OtherException "KeyError"
          | Ok _ => e = TypeError
          end
        else
          match text with
          | Err e' => e = e'
          | Ok _ => e = RuntimeError "Registration failed: {resp.status} {text}"
          end
    end.
Proof.
  intros reply e.
  destruct reply as [status text body|e']; cbn;
    [|intros H; inversion H; auto].
  destruct (status =? 200); cbn;
    [|destruct text; cbn; intros H; inversion H; auto].
  destruct body as [data|e']; cbn; [|intros H; inversion H; auto].
  unfold parse_credentials.
  destruct data; cbn; try (intros H; inversion H; auto; fail).
  destruct (Py.lookup "agent_id" kvs); cbn;
    [|intros H; inversion H; auto].
  destruct (Py.lookup "name" kvs); cbn;
    [|intros H; inversion H; auto].
  destruct (Py.lookup "api_key" kvs); cbn;
    [|intros H; inversion H; auto].
  discriminate.
Qed.

Lemma register_failure_is_silent_witness :
  snd (_register Cases.keyless_reply) = Err (OtherException "KeyError") /\
  fst (_register Cases.keyless_reply) = [].
Proof.
  split; [reflexivity|].
  exact (proj1 (register_failure_is_silent Cases.keyless_reply
                  (OtherException "KeyError") eq_refl)).
Defined.

(** X23.  Onboarding is optional.  [_self_onboard] never raises.  It
    logs one INFO record when the arena answers 200 with a body that
    decodes to a mapping; it logs nothing, and does not look at the
    body, on any other status; in all other cases (no answer, a body
    that does not decode or is no mapping) it logs one DEBUG record. *)
Theorem self_onboard_never_raises :
  forall reply : http_reply,
    snd (_self_onboard reply) = Ok tt /\
    map level (fst (_self_onboard reply)) =
    match reply with
    | HttpFails _ => [DEBUG]
    | HttpReply status _ body =>
        if status =? 200 then
          match body with
          | Ok (JDict _) => [INFO]
          | _ => [DEBUG]
          end
        else []
    end.
Proof.
  intros reply. unfold _self_onboard, onboard_body.
  destruct reply as [status text body|e]; [|split; reflexivity].
  destruct (status =? 200); [|split; reflexivity].
  destruct body as [data|e]; [|split; reflexivity].
  destruct data; split; reflexivity.
Qed.

End Registering.

Section Comprehensions.

Lemma rbind_ok {A B} (r : result A) (k : A -> result B) b :
  rbind r k = Ok b -> exists a, r = Ok a /\ k a = Ok b.
Proof. destruct r; cbn; [eauto | discriminate]. Qed.

Lemma comprehension_ok keep us :
  (forall u, In u us -> exists b, keep u = Ok b) ->
  PyOps.comprehension keep us =
  Ok (filter (fun u => match keep u with Ok b => b | Err _ => false end) us).
Proof.
  induction us as [|u us IH]; intros H; [reflexivity|].
  cbn [PyOps.comprehension filter].
  destruct (H u (or_introl eq_refl)) as (b & ->).
  rewrite IH by (intros v Hv; apply H; right; exact Hv).
  reflexivity.
Qed.

Lemma comprehension_inv keep us kept :
  PyOps.comprehension keep us = Ok kept ->
  (forall u, In u us -> exists b, keep u = Ok b) /\
  kept = filter (fun u => match keep u with Ok b => b | Err _ => false end) us.
Proof.
  revert kept. induction us as [|u us IH]; intros kept H.
  - inversion H. split; [intros ? []|reflexivity].
  - cbn [PyOps.comprehension] in H.
    destruct (keep u) as [b|e] eqn:Eu; [|discriminate].
    destruct (PyOps.comprehension keep us) as [tl|e] eqn:E; [|discriminate].
    destruct (IH tl eq_refl) as (Hall & ->).
    inversion H; subst. split.
    + intros v [<-|Hv]; eauto.
    + cbn [filter]. rewrite Eu. reflexivity.
Qed.

(** A comprehension over a list with an element its condition raises
    on raises, with the error of the first such element. *)
Lemma comprehension_raises keep us u :
  In u us -> (forall b, keep u <> Ok b) ->
  exists e u', In u' us /\ keep u' = Err e /\
               PyOps.comprehension keep us = Err e.
Proof.
  induction us as [|v us IH]; intros Hin Hbad; [destruct Hin|].
  cbn [PyOps.comprehension].
  destruct (keep v) as [b|e] eqn:Ev.
  - destruct Hin as [->|Hin]; [exfalso; exact (Hbad b Ev)|].
    destruct (IH Hin Hbad) as (e & u' & Hu' & He & ->).
    exists e, u'. split; [right; exact Hu'|]. auto.
  - exists e, v. split; [left; reflexivity|]. auto.
Qed.

Lemma comprehension_error keep us e :
  PyOps.comprehension keep us = Err e ->
  exists u, In u us /\ keep u = Err e.
Proof.
  induction us as [|u us IH]; cbn; [discriminate|].
  destruct (keep u) eqn:Eu.
  - destruct (PyOps.comprehension keep us); [discriminate|].
    intros H. inversion H; subst.
    destruct (IH eq_refl) as (v & Hv & He). exists v. auto.
  - intros H. inversion H; subst. exists u. auto.
Qed.

Lemma collect_inv f us vs :
  PyOps.collect f us = Ok vs -> Forall2 (fun u v => f u = Ok v) us vs.
Proof.
  revert vs. induction us as [|u us IH]; intros vs H; cbn in H.
  - inversion H. constructor.
  - destruct (f u) eqn:Eu; [|discriminate].
    destruct (PyOps.collect f us); [|discriminate].
    inversion H; subst. constructor; auto.
Qed.

Lemma Forall2_right {A B} (R : A -> B -> Prop) us vs :
  Forall2 R us vs -> Forall (fun v => exists u, In u us /\ R u v) vs.
Proof.
  induction 1 as [|u v us vs Huv _ IH]; constructor.
  - exists u. split; [left; reflexivity | exact Huv].
  - eapply Forall_impl; [|exact IH].
    cbn beta. intros w (u' & Hu' & Hw). exists u'. split; [right|]; auto.
Qed.

Lemma chars_length s : length (Py.chars s) = length (Py.code_points s).
Proof. unfold Py.chars. apply length_map. Qed.

(** [len] counts what a [for] loop visits. *)
Lemma iter_len j us :
  Py.iter j = Ok us -> Py.len j = Ok (Z.of_nat (length us)).
Proof.
  destruct j; cbn; try discriminate; intros H; inversion H; subst.
  - rewrite chars_length. reflexivity.
  - reflexivity.
  - rewrite length_map. reflexivity.
Qed.

Lemma iter_raises j e : Py.iter j = Err e -> e = TypeError.
Proof. destruct j; cbn; intros H; inversion H; reflexivity. Qed.

Lemma getitem_raises d k e :
  PyOps.getitem d k = Err e -> e = TypeError \/ e = OtherException "KeyError".
Proof.
  destruct d; cbn; try (intros H; inversion H; auto; fail).
  destruct (Py.lookup k kvs); intros H; inversion H; auto.
Qed.

End Comprehensions.

(** X24.  Which units are idle.  Over the units of a snapshot,
    [idle_units] returns, in their order, the units whose "is_idle"
    entry is true in Python's sense (a unit without the entry is not
    idle), provided every unit is a mapping; with a unit that is no
    mapping it raises [AttributeError]. *)
Theorem idle_units_are_the_marked_ones :
  forall (s : GameState.t) (us idle : list json),
    Py.iter (GameState.own_units s) = Ok us ->
    (Views.idle_units s = Ok idle <->
     forallb Payload.is_dict us = true /\
     idle = filter Views.marked_idle us) /\
    (forallb Payload.is_dict us = false ->
     Views.idle_units s = Err AttributeError).
Proof.
  intros s us idle Hus. unfold Views.idle_units. rewrite Hus. cbn [rbind].
  assert (Hf : forall l, forallb Payload.is_dict l = true ->
             filter (fun u => match Views.is_idle u with
                              | Ok b => b | Err _ => false end) l
             = filter Views.marked_idle l).
  { intros l Hl. apply filter_ext_in. intros u Hu.
    rewrite forallb_forall in Hl. specialize (Hl u Hu).
    destruct u; try discriminate. reflexivity. }
  split; [split|].
  - intros H. apply comprehension_inv in H. destruct H as (Hall & ->).
    assert (Hd : forallb Payload.is_dict us = true).
    { apply forallb_forall. intros u Hu. destruct (Hall u Hu) as (b & Hb).
      destruct u; try discriminate Hb. reflexivity. }
    split; [exact Hd | apply Hf, Hd].
  - intros (Hd & ->). rewrite comprehension_ok.
    + rewrite (Hf us Hd). reflexivity.
    + intros u Hu. rewrite forallb_forall in Hd. specialize (Hd u Hu).
      destruct u; try discriminate. eexists. reflexivity.
  - clear Hus Hf. induction us as [|u us IH]; [discriminate|].
    cbn [forallb PyOps.comprehension]. intros H.
    destruct u; try reflexivity. cbn in H.
    unfold Views.is_idle at 1. cbn [Py.get rbind].
    rewrite (IH H). reflexivity.
Qed.

Lemma idle_units_are_the_marked_ones_witness :
  Views.idle_units Cases.mid_state =
  Ok [Cases.tank 1 true; Cases.tank 2 true; Cases.harvester;
      Cases.tank 5 true; Cases.tank 6 true; Cases.tank 7 true].
Proof.
  apply (proj2 (proj1 (idle_units_are_the_marked_ones
                         Cases.mid_state Cases.army _ eq_refl))).
  split; reflexivity.
Defined.

(** X25.  Idle units are units.  When [idle_units] returns, [unit_count]
    returns too and is not below the number of idle units. *)
Theorem idle_units_bounded_by_unit_count :
  forall (s : GameState.t) (idle : list json),
    Views.idle_units s = Ok idle ->
    exists n, GameState.unit_count s = Ok n /\ Z.of_nat (length idle) <= n.
Proof.
  intros s idle. unfold Views.idle_units, GameState.unit_count.
  destruct (Py.iter (GameState.own_units s)) as [us|e] eqn:Hus;
    [|discriminate].
  cbn [rbind]. intros H. apply comprehension_inv in H.
  destruct H as (_ & ->).
  exists (Z.of_nat (length us)). split; [apply iter_len, Hus|].
  apply inj_le, filter_length_le.
Qed.

Lemma idle_units_bounded_by_unit_count_witness :
  exists n, GameState.unit_count Cases.mid_state = Ok n /\ 6 <= n.
Proof.
  exact (idle_units_bounded_by_unit_count Cases.mid_state
           (filter Views.marked_idle Cases.army) eq_refl).
Defined.

Section OrderHelpers.

Import Orders.

Lemma list_inv t l : list_ t = Ok l -> exists items, l = JList items.
Proof.
  destruct t as [items|v]; cbn.
  - intros H. inversion H. eauto.
  - destruct (Py.iter v); cbn; intros H; inversion H. eauto.
Qed.

Lemma list_raises t e : list_ t = Err e -> e = TypeError.
Proof.
  destruct t as [items|v]; cbn; [discriminate|].
  destruct (Py.iter v) eqn:E; cbn; [discriminate|].
  intros H. inversion H; subst. exact (iter_raises _ _ E).
Qed.

Ltac open_helpers :=
  unfold move, attack, attack_move, deploy, build, train, sell, repair,
    set_rally, stop, scatter, guard, patrol in *.

Lemma run_tag c d :
  run c = Ok d -> Py.get d "type" JNull = Ok (JStr (tag c)).
Proof.
  destruct c; cbn; open_helpers;
    try (intros H; inversion H; reflexivity);
    match goal with
    | |- context [list_ ?t] =>
        destruct (list_ t); cbn; intros H; inversion H; reflexivity
    end.
Qed.

Lemma run_listed c1 c2 d :
  run c1 = Ok d -> run c2 = Ok d -> listed c1 = listed c2.
Proof.
  intros H1 H2.
  assert (Htag : tag c1 = tag c2).
  { apply run_tag in H1, H2. congruence. }
  destruct c1, c2; try discriminate Htag; clear Htag;
    cbn in H1, H2 |- *; open_helpers;
    repeat match goal with
    | H : rbind (list_ ?t) _ = _ |- _ =>
        let E := fresh "E" in
        destruct (list_ t) eqn:E; cbn in H; [|discriminate H]
    end;
    cbn; congruence.
Qed.

End OrderHelpers.

(** X26.  Order helpers.  A helper of [Orders] raises only
    [TypeError], when its target cannot be iterated; the dict it builds
    carries the helper's name under "type".  Two calls build the same
    dict exactly when they are the same helper on the same arguments
    once every target is replaced by [list(target)]: the helpers see
    nothing else of a target, so a tuple and a list of the same items
    give the same dict, and calls that differ in anything else give
    different dicts. *)
Theorem orders_are_tagged_and_distinct :
  (forall c e, Orders.run c = Err e -> e = TypeError) /\
  (forall c d,
     Orders.run c = Ok d ->
     Py.get d "type" JNull = Ok (JStr (Orders.tag c))) /\
  (forall c c', Orders.listed c = Ok c' -> Orders.run c = Orders.run c') /\
  (forall c1 c2 d,
     Orders.run c1 = Ok d -> Orders.run c2 = Ok d ->
     Orders.listed c1 = Orders.listed c2) /\
  (forall u items q,
     Orders.move u (Orders.Tuple items) q =
     Orders.move u (Orders.Value (JList items)) q) /\
  (forall u items,
     Orders.attack_move u (Orders.Tuple items) =
     Orders.attack_move u (Orders.Value (JList items)) /\
     Orders.build u (Orders.Tuple items) =
     Orders.build u (Orders.Value (JList items)) /\
     Orders.set_rally u (Orders.Tuple items) =
     Orders.set_rally u (Orders.Value (JList items)) /\
     Orders.patrol u (Orders.Tuple items) =
     Orders.patrol u (Orders.Value (JList items))).
Proof.
  split; [|split; [|split; [|split; [|split]]]].
  - intros [] e; cbn;
      unfold Orders.move, Orders.attack_move, Orders.build,
        Orders.set_rally, Orders.patrol;
      try discriminate;
      match goal with
      | |- context [Orders.list_ ?t] =>
          destruct (Orders.list_ t) eqn:E; cbn; [discriminate|];
          intros H; inversion H; subst; exact (list_raises _ _ E)
      end.
  - exact run_tag.
  - intros [] c'; cbn;
      unfold Orders.move, Orders.attack_move, Orders.build,
        Orders.set_rally, Orders.patrol;
      try (intros H; inversion H; reflexivity);
      match goal with
      | |- context [Orders.list_ ?t] =>
          destruct (Orders.list_ t) as [l|] eqn:E; cbn;
          intros H; inversion H; subst; cbn;
          unfold Orders.move, Orders.attack_move, Orders.build,
            Orders.set_rally, Orders.patrol;
          destruct (list_inv _ _ E) as (items & ->); reflexivity
      end.
  - exact run_listed.
  - reflexivity.
  - intros u items. repeat split.
Qed.

Section Example.

Variable fl : float -> float.

Lemma type_is_raises name u e :
  type_is name u = Err e -> e = TypeError \/ e = OtherException "KeyError".
Proof.
  unfold type_is. destruct (PyOps.getitem u "type") eqn:E; cbn;
    [discriminate|].
  intros H. inversion H; subst. exact (getitem_raises _ _ _ E).
Qed.

Lemma type_is_untyped name u :
  (forall ty, PyOps.getitem u "type" <> Ok ty) ->
  forall b, type_is name u <> Ok b.
Proof.
  intros H b. unfold type_is.
  destruct (PyOps.getitem u "type") eqn:E; cbn; [|discriminate].
  exfalso. exact (H _ eq_refl).
Qed.

Lemma war_factories_untyped s bs b :
  Py.iter (GameState.own_buildings s) = Ok bs ->
  In b bs -> (forall ty, PyOps.getitem b "type" <> Ok ty) ->
  exists e, war_factories s = Err e /\
            (e = TypeError \/ e = OtherException "KeyError").
Proof.
  intros Hbs Hin Hbad. unfold war_factories. rewrite Hbs. cbn [rbind].
  destruct (comprehension_raises (type_is "weap") bs b Hin
              (type_is_untyped _ _ Hbad)) as (e & u' & _ & He & ->).
  exists e. split; [reflexivity | exact (type_is_raises _ _ _ He)].
Qed.

(** The strategy raises on every snapshot with a building that has no
    ["type"], in the early game and after it. *)
Lemma example_bot_untyped_building s bs b :
  Py.iter (GameState.own_buildings s) = Ok bs ->
  In b bs -> (forall ty, PyOps.getitem b "type" <> Ok ty) ->
  exists e, ExampleBot_on_game_state fl s = Err e /\
            (e = TypeError \/ e = OtherException "KeyError").
Proof.
  intros Hbs Hin Hbad.
  destruct (war_factories_untyped s bs b Hbs Hin Hbad) as (e & Hw & He).
  unfold ExampleBot_on_game_state.
  destruct (PyOps.lt_1000 (GameState.tick s)) as [early|e0] eqn:Et.
  2:{ exists e0. split; [reflexivity|].
      destruct (GameState.tick s); cbn in Et; inversion Et; auto. }
  cbn [rbind]. destruct early.
  - unfold early_game.
    destruct (Py.iter (GameState.own_units s)) as [us|e1] eqn:Eu.
    2:{ exists e1. split; [reflexivity|].
        left. exact (iter_raises _ _ Eu). }
    cbn [rbind].
    destruct (PyOps.comprehension (type_is "mcv") us) as [mcvs|e2] eqn:Em.
    2:{ exists e2. split; [reflexivity|].
        destruct (comprehension_error _ _ _ Em) as (u & _ & Hu).
        exact (type_is_raises _ _ _ Hu). }
    cbn [rbind].
    destruct mcvs as [|mcv mcvs].
    + cbn [rbind]. rewrite Hw. exists e. auto.
    + destruct (PyOps.getitem mcv "id") as [id|e3] eqn:Ei.
      * cbn [rbind]. rewrite Hw. exists e. auto.
      * exists e3. split; [reflexivity | exact (getitem_raises _ _ _ Ei)].
  - unfold mid_game. rewrite Hw. exists e. auto.
Qed.

Lemma early_game_inv s orders :
  early_game s = Ok orders -> Batch.early orders.
Proof.
  unfold early_game, Batch.early. intros H.
  apply rbind_ok in H. destruct H as (us & _ & H).
  apply rbind_ok in H. destruct H as (mcvs & _ & H).
  apply rbind_ok in H. destruct H as (dep & Hd & H).
  apply rbind_ok in H. destruct H as (facts & _ & H).
  inversion H; subst. exists dep. eexists. split; [reflexivity|].
  split.
  - destruct mcvs as [|mcv ?]; [inversion Hd; auto|].
    apply rbind_ok in Hd. destruct Hd as (id & _ & Hd).
    inversion Hd. right. eauto.
  - destruct facts; auto.
Qed.

(** What the mid-game branch has done when it returns. *)
Lemma mid_game_inv s orders :
  mid_game fl s = Ok orders ->
  exists trn idle combat,
    (trn = [] \/ trn = [Orders.train (JStr "3tnk") (JInt 2)]) /\
    Views.idle_units s = Ok idle /\
    combat = filter (fun u => match is_combat u with
                              | Ok b => b | Err _ => false end) idle /\
    ((length combat < 5)%nat /\ orders = trn \/
     (5 <= length combat)%nat /\
     exists w h cx cy ids,
       nth_error (GameState.map_size s) 0 = Some w /\
       nth_error (GameState.map_size s) 1 = Some h /\
       PyOps.floordiv_2 fl w = Ok cx /\
       PyOps.floordiv_2 fl h = Ok cy /\
       Forall2 (fun u id => PyOps.getitem u "id" = Ok id) combat ids /\
       orders = trn ++ [JDict [("type", JStr "attack_move");
                               ("unit_ids", JList ids);
                               ("target", JList [cx; cy])]]).
Proof.
  unfold mid_game. intros H.
  apply rbind_ok in H. destruct H as (facts & _ & H).
  apply rbind_ok in H. destruct H as (trn & Ht & H).
  apply rbind_ok in H. destruct H as (idle & Hidle & H).
  apply rbind_ok in H. destruct H as (combat & Hc & H).
  apply comprehension_inv in Hc. destruct Hc as (_ & Hc).
  exists trn, idle, combat. split.
  { destruct facts; [inversion Ht; auto|].
    apply rbind_ok in Ht. destruct Ht as (rich & _ & Ht).
    inversion Ht. destruct rich; auto. }
  split; [exact Hidle|]. split; [exact Hc|].
  destruct (5 <=? length combat)%nat eqn:E5.
  - apply Nat.leb_le in E5. right. split; [exact E5|].
    apply rbind_ok in H. destruct H as (w & Hw & H).
    apply rbind_ok in H. destruct H as (cx & Hcx & H).
    apply rbind_ok in H. destruct H as (h & Hh & H).
    apply rbind_ok in H. destruct H as (cy & Hcy & H).
    apply rbind_ok in H. destruct H as (ids & Hids & H).
    cbn in H. inversion H; subst orders.
    unfold PyOps.index in Hw, Hh.
    destruct (nth_error (GameState.map_size s) 0) eqn:E0; [|discriminate].
    destruct (nth_error (GameState.map_size s) 1) eqn:E1; [|discriminate].
    inversion Hw; inversion Hh; subst.
    exists w, h, cx, cy, ids. repeat split; auto.
    apply collect_inv. exact Hids.
  - apply Nat.leb_gt in E5. left. inversion H. auto.
Qed.

End Example.

(** X27.  The batches of the example bot.  When
    [ExampleBot.on_game_state] returns, the tick is a number and the
    batch holds at most two orders: before tick 1000 at most one
    deployment of a single unit followed by at most one order for one
    harvester, and from tick 1000 on at most one order for two heavy
    tanks followed by at most one attack-move of five units or more. *)
Theorem example_bot_batch_shape :
  forall (fl : float -> float) (s : GameState.t) (orders : list json),
    ExampleBot_on_game_state fl s = Ok orders ->
    (length orders <= 2)%nat /\
    exists early,
      PyOps.lt_1000 (GameState.tick s) = Ok early /\
      if early then Batch.early orders else Batch.mid orders.
Proof.
  intros fl s orders H. unfold ExampleBot_on_game_state in H.
  apply rbind_ok in H. destruct H as (early & He & H).
  assert (Hshape : if early then Batch.early orders else Batch.mid orders).
  { destruct early.
    - apply (early_game_inv s). exact H.
    - cbn beta iota in H. apply mid_game_inv in H.
      destruct H as (trn & idle & combat & Ht & _ & _ & H).
      exists trn.
      destruct H as [(_ & ->)|(H5 & w & h & cx & cy & ids & _ & _ & _ & _
                               & Hids & ->)].
      + exists []. rewrite app_nil_r. auto.
      + eexists. split; [reflexivity|]. split; [exact Ht|]. right.
        exists ids, [cx; cy]. split; [reflexivity|].
        apply Forall2_length in Hids. lia. }
  split; [|exists early; auto].
  destruct early.
  - destruct Hshape as (dep & trn & -> & [->|(id & ->)] & [->| ->]);
      cbn; lia.
  - destruct Hshape as (trn & atk & -> & [->| ->]
                        & [->|(ids & center & -> & _)]);
      cbn; lia.
Qed.

Lemma example_bot_batch_shape_witness :
  Batch.mid [Orders.train (JStr "3tnk") (JInt 2);
             JDict [("type", JStr "attack_move");
                    ("unit_ids",
                     JList [JInt 1; JInt 2; JInt 5; JInt 6; JInt 7]);
                    ("target", JList [JInt 32; JInt 48])]].
Proof.
  destruct (example_bot_batch_shape (fun x => x) Cases.mid_state _ eq_refl)
    as (_ & [|] & He & H); [discriminate He | exact H].
Defined.

(** X28.  The attack of the example bot.  An attack-move order in a
    batch of [ExampleBot.on_game_state] names at least five units, each
    by the "id" of an idle own unit whose type is neither "harv" nor
    "mcv", and its target is the pair of the two map dimensions each
    floor-divided by two. *)
Theorem example_bot_attack_order :
  forall (fl : float -> float) (s : GameState.t)
         (orders ids center : list json),
    ExampleBot_on_game_state fl s = Ok orders ->
    In (JDict [("type", JStr "attack_move"); ("unit_ids", JList ids);
               ("target", JList center)]) orders ->
    exists idle w h cx cy,
      Views.idle_units s = Ok idle /\
      (5 <= length ids <= length idle)%nat /\
      Forall (fun id => exists u, In u idle /\
                                  PyOps.getitem u "id" = Ok id /\
                                  is_combat u = Ok true) ids /\
      nth_error (GameState.map_size s) 0 = Some w /\
      nth_error (GameState.map_size s) 1 = Some h /\
      PyOps.floordiv_2 fl w = Ok cx /\
      PyOps.floordiv_2 fl h = Ok cy /\
      center = [cx; cy].
Proof.
  intros fl s orders ids center H Hin. unfold ExampleBot_on_game_state in H.
  apply rbind_ok in H. destruct H as (early & He & H). destruct early.
  - exfalso. cbn beta iota in H. apply early_game_inv in H.
    destruct H as (dep & trn & -> & Hd & Ht).
    apply in_app_or in Hin.
    destruct Hin as [Hin|Hin];
      [destruct Hd as [->|(id & ->)] | destruct Ht as [->| ->]];
      cbn in Hin; intuition discriminate.
  - cbn beta iota in H. apply mid_game_inv in H.
    destruct H as (trn & idle & combat & Ht & Hidle & Hc & H).
    assert (Hnot : ~ In (JDict [("type", JStr "attack_move");
                                ("unit_ids", JList ids);
                                ("target", JList center)]) trn).
    { destruct Ht as [->| ->]; cbn; intuition discriminate. }
    destruct H as [(_ & ->)|(H5 & w & h & cx & cy & ids' & H0 & H1 & Hcx
                             & Hcy & Hids & ->)];
      [contradiction|].
    apply in_app_or in Hin. destruct Hin as [Hin|Hin]; [contradiction|].
    cbn in Hin. destruct Hin as [Hin|[]].
    inversion Hin; subst ids' center.
    exists idle, w, h, cx, cy.
    pose proof (Forall2_length Hids) as Hlen.
    split; [exact Hidle|]. split.
    { split; [lia|]. rewrite <- Hlen, Hc. apply filter_length_le. }
    split.
    { apply Forall2_right in Hids. eapply Forall_impl; [|exact Hids].
      cbn beta. intros id (u & Hu & Hid). exists u. subst combat.
      apply filter_In in Hu. destruct Hu as (Hu & Hb).
      repeat split; auto.
      destruct (is_combat u) as [[]|]; congruence. }
    auto 10.
Qed.

Lemma example_bot_attack_order_witness :
  exists idle,
    Views.idle_units Cases.mid_state = Ok idle /\
    (5 <= 5 <= length idle)%nat.
Proof.
  destruct (example_bot_attack_order (fun x => x) Cases.mid_state _
              [JInt 1; JInt 2; JInt 5; JInt 6; JInt 7] [JInt 32; JInt 48]
              eq_refl (or_intror (or_introl eq_refl)))
    as (idle & _ & _ & _ & _ & Hidle & Hlen & _).
  exists idle. split; [exact Hidle | exact Hlen].
Defined.

(** X29.  A building without a type.  On a state message whose snapshot
    has an own building without "type" (a mapping that lacks the key, or
    no mapping at all), [ExampleBot.on_game_state] raises [KeyError] or
    [TypeError], in the early game and after it.  In a match session the
    snapshot is stored, nothing is sent, no further message is received
    and the exception leaves the game loop. *)
Theorem untyped_building_ends_example_bot_session :
  forall (fl : float -> float) (s : recv_step) (rest : list recv_step)
         (a : Agent) (c : AgentCredentials) (kvs : list (string * json))
         (ty : string) (gs : GameState.t) (bs : list json) (b : json),
    credentials a = Some c ->
    _running a = true ->
    received s = RecvMsg (JDict kvs) ->
    Py.lookup "type" kvs = Some (JStr ty) ->
    ty = "state_update" \/ ty = "state_response" ->
    GameState.from_dict (Payload.value_or kvs "state" (JDict [])) = Ok gs ->
    Py.iter (GameState.own_buildings gs) = Ok bs ->
    In b bs ->
    (forall v, PyOps.getitem b "type" <> Ok v) ->
    exists e,
      (e = TypeError \/ e = OtherException "KeyError") /\
      ExampleBot_on_game_state fl gs = Err e /\
      game_loop (bot := ExampleBot fl) (s :: rest) a =
      (Raised e, set_game_state (Some gs) (after_signal s a),
       signal_log s ++
       [WsRecv MatchChannel (RecvMsg (JDict kvs)); CallOnGameState gs]).
Proof.
  intros fl s rest a c kvs ty gs bs b Hc Hrun Hr Hty Hcase Hgs Hbs Hin Hbad.
  destruct (example_bot_untyped_building fl gs bs b Hbs Hin Hbad)
    as (e & He & Hkind).
  exists e. split; [exact Hkind|]. split; [exact He|].
  assert (Hc' : credentials (after_signal s a) = Some c).
  { unfold after_signal. destruct (signalled s); exact Hc. }
  pose proof (handle_state_message (bot := ExampleBot fl) (match_ws s)
                (after_signal s a) c kvs ty gs Hc' Hty Hcase Hgs) as Hh.
  cbn [on_game_state ExampleBot] in Hh. rewrite He in Hh.
  assert (Hnt : @Raised unit e <> Raised TimeoutError).
  { destruct Hkind; subst; discriminate. }
  rewrite (game_loop_cons (bot := ExampleBot fl) s rest a Hrun).
  rewrite (game_iteration_delivered (bot := ExampleBot fl) s a kvs _ _ _
             Hr Hh Hnt).
  reflexivity.
Qed.

Lemma untyped_building_ends_example_bot_session_witness :
  game_loop (bot := ExampleBot (fun x => x))
    [Scenario.delivers Cases.untyped_building_msg;
     Scenario.delivers Scenario.victory_msg] Scenario.agent0 =
  (Raised (OtherException "KeyError"),
   set_game_state (Some Cases.untyped_building_state) Scenario.agent0,
   [WsRecv MatchChannel (RecvMsg Cases.untyped_building_msg);
    CallOnGameState Cases.untyped_building_state]).
Proof.
  assert (Hbad : forall v, PyOps.getitem (JDict [("id", JInt 9)]) "type"
                           <> Ok v)
    by (intros v H; discriminate H).
  destruct (untyped_building_ends_example_bot_session (fun x => x)
              (Scenario.delivers Cases.untyped_building_msg)
              [Scenario.delivers Scenario.victory_msg]
              Scenario.agent0 Scenario.creds
              [("type", JStr "state_update");
               ("state", JDict Cases.untyped_building_payload)]
              "state_update" Cases.untyped_building_state
              [JDict [("id", JInt 9)]] (JDict [("id", JInt 9)])
              eq_refl eq_refl eq_refl eq_refl (or_introl eq_refl)
              eq_refl eq_refl (or_introl eq_refl)
              Hbad)
    as (e & _ & He & Hloop).
  inversion He; subst e. exact Hloop.
Defined.

(** X30.  The example bot at the end of a game.  With [ExampleBot], whose
    match-end hook does not raise on a mapping, every [game_end] message
    ends the game loop by its [break]: the loop returns, the message is
    kept as [match_result], the hook is called once and logs two INFO
    records, and nothing is sent or received after it. *)
Theorem example_bot_takes_every_game_end :
  forall (fl : float -> float) (s : recv_step) (rest : list recv_step)
         (a : Agent) (c : AgentCredentials) (kvs : list (string * json)),
    credentials a = Some c ->
    _running a = true ->
    received s = RecvMsg (JDict kvs) ->
    Py.lookup "type" kvs = Some (JStr "game_end") ->
    exists a' first second,
      game_loop (bot := ExampleBot fl) (s :: rest) a =
      (Return tt, a',
       signal_log s ++
       [WsRecv MatchChannel (RecvMsg (JDict kvs));
        CallOnMatchEnd (JDict kvs); Log first; Log second]) /\
      level first = INFO /\ level second = INFO /\
      match_result a' = Some (JDict kvs).
Proof.
  intros fl s rest a c kvs Hc Hrun Hr Hty.
  assert (Hc' : credentials (after_signal s a) = Some c).
  { unfold after_signal. destruct (signalled s); exact Hc. }
  rewrite (game_loop_cons (bot := ExampleBot fl) s rest a Hrun).
  unfold game_iteration. unfold_M. rewrite Hr. cbn beta iota zeta.
  unfold _handle_match_message. unfold_M. rewrite Hc'.
  cbn [Py.get]. rewrite Hty. cbn beta iota zeta.
  change (Py.eq_str (JStr "game_end") "state_update"
          || Py.eq_str (JStr "game_end") "state_response") with false.
  change (Py.eq_str (JStr "game_end") "game_end") with true.
  cbn beta iota zeta.
  cbn [on_match_end ExampleBot ExampleBot_on_match_end Default.on_match_end
       Py.get].
  destruct (Py.lookup "result" kvs) as [r|];
    [destruct (Py.eq_str r "victory"); [|destruct (Py.eq_str r "defeat")]|];
    cbn; rewrite <- ?app_assoc; cbn [app];
    do 3 eexists; (split; [reflexivity|]); cbn; auto.
Qed.

Lemma example_bot_takes_every_game_end_witness :
  exists a' first second,
    game_loop (bot := ExampleBot (fun x => x))
      [Scenario.delivers Scenario.victory_msg;
       Scenario.delivers Scenario.state_update_msg] Scenario.agent0 =
    (Return tt, a',
     [WsRecv MatchChannel (RecvMsg Scenario.victory_msg);
      CallOnMatchEnd Scenario.victory_msg; Log first; Log second]) /\
    wins a' = 1.
Proof.
  destruct (example_bot_takes_every_game_end (fun x => x)
              (Scenario.delivers Scenario.victory_msg)
              [Scenario.delivers Scenario.state_update_msg]
              Scenario.agent0 Scenario.creds
              [("type", JStr "game_end"); ("result", JStr "victory")]
              eq_refl eq_refl eq_refl eq_refl)
    as (a' & first & second & Hloop & _).
  exists a', first, second. split; [exact Hloop|].
  cbn in Hloop. inversion Hloop. reflexivity.
Defined.
